(** * buildSilvaTaxFiles: taxonomy trees from Silva / PR2 lineages

    A shallow embedding of [databases/buildSilvaTaxFiles.py].  Python
    objects live in an arena: a [list TaxNode] whose positions are the
    object references, so that [node.parent], [node.children] and the
    dictionaries of the script hold positions, and an attribute write is an
    update of the arena at that position. *)

From Stdlib Require Import ZArith Ascii String.
From stdpp Require Import gmap strings list fin_maps pretty.

Open Scope string_scope.
Open Scope list_scope.

(** ** Python values and exceptions *)

Inductive pyexn : Set :=
| IndexError | ValueError | KeyError | AttributeError | TypeError | StopIteration.

Inductive result (A : Type) : Type :=
| Ok (a : A)
| Raise (e : pyexn).
Arguments Ok {A} a.
Arguments Raise {A} e.

#[global] Instance result_bind : MBind result := λ A B k r,
  match r with
  | Ok a => k a
  | Raise e => Raise e
  end.

(** What a node's [id] attribute can hold: an [int], a [str] (the synthetic
    root of the PR2 tree is built with id ['root']) or nothing yet. *)
Inductive pyid : Set :=
| IdInt (z : Z)
| IdStr (s : string)
| IdNone.

#[global] Instance pyid_eq_dec : EqDecision pyid.
Proof. solve_decision. Defined.

(** [isinstance(x, int)] *)
Definition isinstance_int (x : pyid) : bool :=
  match x with IdInt _ => true | _ => false end.

(** [str(x)] *)
Definition py_str (x : pyid) : string :=
  match x with
  | IdInt z => pretty z
  | IdStr s => s
  | IdNone => "None"
  end.

(** ** Strings *)

Definition TAB : string := String "009"%char "".
Definition NL : string := String "010"%char "".

Definition ascii_eqb (a b : ascii) : bool := bool_decide (a = b).

Definition mem_ascii (c : ascii) (cs : list ascii) : bool := bool_decide (c ∈ cs).

(** [s.split(sep)] for a one-character separator: never the empty list. *)
Fixpoint split_on (sep : ascii) (s : string) : list string :=
  match s with
  | EmptyString => [""]
  | String c s' =>
      if ascii_eqb c sep then "" :: split_on sep s'
      else match split_on sep s' with
           | w :: ws => String c w :: ws
           | [] => [String c ""]
           end
  end.

(** [sep.join(l)] *)
Fixpoint join (sep : string) (l : list string) : string :=
  match l with
  | [] => ""
  | [w] => w
  | w :: ws => w +:+ sep +:+ join sep ws
  end.

(** [s.lstrip(cs)], [s.rstrip(cs)], [s.strip(cs)] *)
Fixpoint lstrip (cs : list ascii) (s : string) : string :=
  match s with
  | EmptyString => ""
  | String c s' => if mem_ascii c cs then lstrip cs s' else s
  end.

Fixpoint rstrip (cs : list ascii) (s : string) : string :=
  match s with
  | EmptyString => ""
  | String c s' =>
      match rstrip cs s' with
      | EmptyString => if mem_ascii c cs then "" else String c ""
      | r => String c r
      end
  end.

Definition strip (cs : list ascii) (s : string) : string := rstrip cs (lstrip cs s).

(** A character of a string is a code point below 256.  [whitespace] lists
    every one of them that [str.isspace] accepts, which are the characters
    [str.strip()] and [str.split(None, ...)] take for white space: the
    ASCII ones, U+0085 and U+00A0. *)
Definition whitespace : list ascii :=
  ["009"; "010"; "011"; "012"; "013"; "028"; "029"; "030"; "031"; " ";
   "133"; "160"]%char.

(** The longest prefix without a character of [cs], and the rest. *)
Fixpoint break_at (cs : list ascii) (s : string) : string * string :=
  match s with
  | EmptyString => ("", "")
  | String c s' =>
      if mem_ascii c cs then ("", s)
      else let '(w, r) := break_at cs s' in (String c w, r)
  end.

(** [s.split(None, 1)]: at most one split, on a run of whitespace. *)
Definition split_ws_1 (s : string) : list string :=
  match lstrip whitespace s with
  | EmptyString => []
  | s1 =>
      let '(w, r) := break_at whitespace s1 in
      match lstrip whitespace r with
      | EmptyString => [w]
      | r' => [w; r']
      end
  end.

(** The [%] operator on a format string with [%s] and [%d] directives. *)
Inductive pyarg : Set :=
| AStr (s : string)
| AId (i : pyid)
| AInt (z : Z).

Definition fmt_s (a : pyarg) : string :=
  match a with
  | AStr s => s
  | AId i => py_str i
  | AInt z => pretty z
  end.

Definition fmt_d (a : pyarg) : result string :=
  match a with
  | AInt z => Ok (pretty z)
  | AId (IdInt z) => Ok (pretty z)
  | _ => Raise TypeError
  end.

Fixpoint py_format (fmt : string) (args : list pyarg) : result string :=
  match fmt with
  | EmptyString => match args with [] => Ok "" | _ => Raise TypeError end
  | String "%" (String "s" rest) =>
      match args with
      | a :: args' => r ← py_format rest args' ;
          Ok (fmt_s a +:+ r)
      | [] => Raise TypeError
      end
  | String "%" (String "d" rest) =>
      match args with
      | a :: args' => d ← fmt_d a; r ← py_format rest args' ;
          Ok (d +:+ r)
      | [] => Raise TypeError
      end
  | String "%" _ => Raise ValueError
  | String c rest => r ← py_format rest args ;
          Ok (String c r)
  end.

(** ** Insertion-ordered dictionaries *)

Section Dict.
Context {K V : Type} `{EqDecision K}.

(** [d[k] = v]: an existing key keeps its place. *)
Fixpoint dict_set (d : list (K * V)) (k : K) (v : V) : list (K * V) :=
  match d with
  | [] => [(k, v)]
  | (k', v') :: d' =>
      if decide (k' = k) then (k, v) :: d' else (k', v') :: dict_set d' k v
  end.

Fixpoint dict_get (d : list (K * V)) (k : K) : option V :=
  match d with
  | [] => None
  | (k', v') :: d' => if decide (k' = k) then Some v' else dict_get d' k
  end.
End Dict.

(** ** TaxNode *)

(** Modelled from the spec: [edl.taxon.TaxNode], whose class body is not
    part of this file's source.  The fields are those of the data model
    (id, name, rank, parent, children); [node_parentid] keeps the second
    constructor argument as passed, and [node_ncbi_tax_id] is the attribute
    [buildSilvaTree] attaches ([None] while the attribute is absent). *)
Record TaxNode : Type := mkTaxNode {
  node_id : pyid;
  node_parentid : option pyid;
  node_name : string;
  node_rank : option string;
  node_parent : option nat;
  node_children : list nat;
  node_ncbi_tax_id : option Z
}.

#[global] Instance TaxNode_inhabited : Inhabited TaxNode :=
  populate (mkTaxNode IdNone None "" None None [] None).

Definition with_id (i : pyid) (n : TaxNode) : TaxNode :=
  mkTaxNode i (node_parentid n) (node_name n) (node_rank n)
            (node_parent n) (node_children n) (node_ncbi_tax_id n).
Definition with_name (s : string) (n : TaxNode) : TaxNode :=
  mkTaxNode (node_id n) (node_parentid n) s (node_rank n)
            (node_parent n) (node_children n) (node_ncbi_tax_id n).
Definition with_rank (r : option string) (n : TaxNode) : TaxNode :=
  mkTaxNode (node_id n) (node_parentid n) (node_name n) r
            (node_parent n) (node_children n) (node_ncbi_tax_id n).
Definition with_parent (p : option nat) (n : TaxNode) : TaxNode :=
  mkTaxNode (node_id n) (node_parentid n) (node_name n) (node_rank n)
            p (node_children n) (node_ncbi_tax_id n).
Definition with_children (cs : list nat) (n : TaxNode) : TaxNode :=
  mkTaxNode (node_id n) (node_parentid n) (node_name n) (node_rank n)
            (node_parent n) cs (node_ncbi_tax_id n).
Definition with_ncbi_tax_id (t : option Z) (n : TaxNode) : TaxNode :=
  mkTaxNode (node_id n) (node_parentid n) (node_name n) (node_rank n)
            (node_parent n) (node_children n) t.

(** The arena of node objects; a reference is a position in it. *)
Abbreviation heap := (list TaxNode).

(** Modelled from the spec: the constructor [TaxNode(taxid, parentid, rank)],
    a fresh object with no parent and no child yet. *)
Definition new_TaxNode (h : heap) (taxid : pyid) (parentid : option pyid)
    (rank : option string) : heap * nat :=
  (h ++ [mkTaxNode taxid parentid "" rank None [] None], length h).

(** Attribute reads and writes through a reference. *)
Definition obj (h : heap) (n : nat) : TaxNode := h !!! n.
Definition set_attr (f : TaxNode → TaxNode) (h : heap) (n : nat) : heap :=
  alter f n h.

(** Modelled from the spec: [self.setParent(parent)], which links the node
    under its parent: it records the parent and appends [self] to the
    parent's children, which keep their insertion order. *)
Definition setParent (h : heap) (self parent : nat) : heap :=
  let h1 := set_attr (with_parent (Some parent)) h self in
  set_attr (λ p, with_children (node_children p ++ [self]) p) h1 parent.

(** Modelled from the spec: [TaxNode.getRootNode], the walk along the
    parent links up to the node that has none.  The arena is finite, so
    its length bounds the walk. *)
Fixpoint getRootNode_fuel (fuel : nat) (h : heap) (n : nat) : nat :=
  match fuel with
  | O => n
  | S f =>
      match node_parent (obj h n) with
      | None => n
      | Some p => getRootNode_fuel f h p
      end
  end.
Definition getRootNode (h : heap) (n : nat) : nat :=
  getRootNode_fuel (length h) h n.

(** Modelled from the spec: [edl.util.treeGenerator], a traversal of the
    nodes below (and including) a root, each parent before its children,
    children in insertion order; here in pre-order. *)
Fixpoint treeGenerator_fuel (fuel : nat) (h : heap) (n : nat) : list nat :=
  match fuel with
  | O => []
  | S f => n :: flat_map (treeGenerator_fuel f h) (node_children (obj h n))
  end.
Definition treeGenerator (h : heap) (n : nat) : list nat :=
  treeGenerator_fuel (length h) h n.

(** ** Shared pieces of the two builders *)

(** Only the warnings of the script are recorded.  Its info-level progress
    messages influence no result and are left out. *)
Inductive log_entry : Set :=
| Warn (msg : string).

(** What a builder hands back, together with the arena its references
    point into and what it logged and wrote on the way. *)
Record built : Type := mkBuilt {
  b_root : nat;
  b_taxmap : list (string * pyid);
  b_heap : heap;
  b_log : list log_entry;
  b_fastaout : list string
}.

Fixpoint foldM {A B : Type} (f : A → B → result A) (a : A) (l : list B) : result A :=
  match l with
  | [] => Ok a
  | x :: l' => a' ← f a x; foldM f a' l'
  end.

(** [len(line)>0 and line[0]=='>'] and [line[1:]] *)
Definition is_header (line : string) : bool :=
  match line with
  | String ">" _ => true
  | _ => false
  end.

Definition drop_first (line : string) : string :=
  match line with
  | String _ s => s
  | EmptyString => ""
  end.

(** ** buildPR2Tree *)

Definition ranks : list string :=
  ["domain"; "kingdom"; "phylum"; "class"; "order"; "family"; "genus"; "species"].

(** The local variables of [buildPR2Tree] that the loop updates.
    [taxaByNameAndRank[rank][taxName]] is a lookup at the pair: the outer
    dictionary has exactly the eight ranks as keys from the start. *)
Record pr2_state : Type := mkPR2 {
  pr_heap : heap;
  taxaByNameAndRank : gmap (string * string) nat;
  prTree : list (pyid * nat);
  taxMap : list (string * pyid);
  nextId : Z;
  outhandle : list string
}.

(** One turn of [for rank, taxName in zip(ranks,names)]. *)
Definition pr2_place (acc : pr2_state * nat) (rt : string * string) : pr2_state * nat :=
  let '(st, lastNode) := acc in
  let '(rank, taxName) := rt in
  match taxaByNameAndRank st !! (rank, taxName) with
  | None =>
      let nextId' := (nextId st + 1)%Z in
      let '(h1, newNode) :=
        new_TaxNode (pr_heap st) (IdInt nextId')
                    (Some (node_id (obj (pr_heap st) lastNode))) None in
      let h2 := set_attr (with_name taxName) h1 newNode in
      let h3 := set_attr (with_rank (Some rank)) h2 newNode in
      let h4 := setParent h3 newNode lastNode in
      (mkPR2 h4
             (<[(rank, taxName) := newNode]> (taxaByNameAndRank st))
             (dict_set (prTree st) (node_id (obj h4 newNode)) newNode)
             (taxMap st) nextId' (outhandle st),
       newNode)
  | Some n => (st, n)
  end.

Definition header_fmt : string := ">%s %s" +:+ NL.

(** The body of [for line in f]. *)
Definition pr2_line (fastaout : bool) (rootNode : nat) (st : pr2_state)
    (line : string) : result pr2_state :=
  if is_header line then
    match split_on "|" (rstrip ["010"; "013"]%char (drop_first line)) with
    | [] => Raise IndexError
    | hitid :: names =>
        let '(st1, lastNode) := foldl pr2_place (st, rootNode) (zip ranks names) in
        let tm := dict_set (taxMap st1) hitid (node_id (obj (pr_heap st1) lastNode)) in
        let st2 := mkPR2 (pr_heap st1) (taxaByNameAndRank st1) (prTree st1) tm
                         (nextId st1) (outhandle st1) in
        if fastaout then
          l ← py_format header_fmt [AStr hitid; AStr (join ";" names)];
          Ok (mkPR2 (pr_heap st2) (taxaByNameAndRank st2) (prTree st2) (taxMap st2)
                    (nextId st2) (outhandle st2 ++ [l]))
        else Ok st2
    end
  else if fastaout then
    Ok (mkPR2 (pr_heap st) (taxaByNameAndRank st) (prTree st) (taxMap st)
              (nextId st) (outhandle st ++ [line]))
  else Ok st.

(** The state before the first line: the synthetic root alone. *)
Definition pr2_init (idStart : Z) : pr2_state * nat :=
  let '(h0, rootNode) := new_TaxNode [] (IdStr "root") None None in
  (mkPR2 h0 ∅ (dict_set [] (node_id (obj h0 rootNode)) rootNode) [] idStart [],
   rootNode).

Definition pr2_loop (lines : list string) (fastaout : bool) (idStart : Z)
    : result pr2_state :=
  let '(st0, rootNode) := pr2_init idStart in
  foldM (pr2_line fastaout rootNode) st0 lines.

Definition root_warning_fmt : string :=
  "There should only be one child of root! Not %d:" +:+ NL +:+ "%s".

(** What follows the loop: the warning, then [rootNode.children[0]]. *)
Definition pr2_finish (st : pr2_state) (rootNode : nat) : result built :=
  let kids := node_children (obj (pr_heap st) rootNode) in
  log ← (if bool_decide (length kids ≠ 1%nat) then
           m ← py_format root_warning_fmt
                 [AInt (Z.of_nat (length kids));
                  AStr (join ", " ((λ c, node_name (obj (pr_heap st) c)) <$> kids))];
           Ok [Warn m]
         else Ok []);
  match kids !! 0%nat with
  | None => Raise IndexError
  | Some c => Ok (mkBuilt c (taxMap st) (pr_heap st) log (outhandle st))
  end.

Definition buildPR2Tree (lines : list string) (fastaout : bool) (idStart : Z)
    : result built :=
  st ← pr2_loop lines fastaout idStart;
  pr2_finish st (snd (pr2_init idStart)).

(** ** buildSilvaTree *)

Definition rankMapping : list (string * string) := [("superkingdom", "major_clade")].

(** [rankMapping.get(rank,rank)] *)
Definition rankMapping_get (rank : string) : string :=
  default rank (dict_get rankMapping rank).

(** The generator [getOrgsFromSilvaFasta]: the pairs it yields and, when the
    unpacking of a header raises, the exception that ends it. *)
Fixpoint getOrgsFromSilvaFasta (lines : list string)
    : list (string * string) * option pyexn :=
  match lines with
  | [] => ([], None)
  | line :: rest =>
      if is_header line then
        match split_ws_1 (strip whitespace (drop_first line)) with
        | [read; desc] =>
            let '(ys, e) := getOrgsFromSilvaFasta rest in ((read, desc) :: ys, e)
        | _ => ([], Some ValueError)
        end
      else getOrgsFromSilvaFasta rest
  end.

(** Modelled from the spec: the lookup of the current node's children by
    name, inside [addToTreeFromString]. *)
Definition find_child (h : heap) (cur : nat) (nm : string) : option nat :=
  head (filter (λ c, node_name (obj h c) = nm) (node_children (obj h cur))).

(** Modelled from the spec: one step of [addToTreeFromString], which
    descends into the child with that name or creates it under the current
    node. *)
Definition silva_descend (acc : heap * nat) (nm : string) : heap * nat :=
  let '(h, cur) := acc in
  match find_child h cur nm with
  | Some c => (h, c)
  | None =>
      let '(h1, newNode) := new_TaxNode h IdNone None None in
      let h2 := set_attr (with_name nm) h1 newNode in
      (setParent h2 newNode cur, newNode)
  end.

(** Modelled from the spec: [edl.silva.SilvaTaxNode.addToTreeFromString],
    which is not part of this file's source.  The lineage string is split
    on its separator and inserted from the root, which the first call
    creates; a new node has no integer id and no rank yet.  The tree table
    [silvaTree] is the arena itself, root first. *)
Definition addToTreeFromString (taxString : string) (h : heap) : heap * nat :=
  let h0 := match h with
            | [] => set_attr (with_name "root") (fst (new_TaxNode [] IdNone None None)) 0
            | _ => h
            end in
  foldl silva_descend (h0, 0%nat) (split_on ";" taxString).

(** [max(l)] *)
Definition py_max (l : list Z) : result Z :=
  match l with
  | [] => Raise ValueError
  | x :: l' => Ok (foldl Z.max x l')
  end.

(** The body of the loop over [rankMap.items()]. *)
Definition silva_row (silvaTaxidMap : list (string * Z)) (h : heap)
    (row : string * string) : result heap :=
  let '(lineage, rank) := row in
  let '(h1, node) := addToTreeFromString (strip [";"; " "]%char lineage) h in
  let h2 := set_attr (with_rank (Some (rankMapping_get rank))) h1 node in
  match dict_get silvaTaxidMap lineage with
  | None => Raise KeyError
  | Some t => Ok (set_attr (with_ncbi_tax_id (Some t)) h2 node)
  end.

(** The body of the loop over the fasta records; [taxmap] holds nodes. *)
Definition silva_record (acc : heap * list (string * nat)) (rec : string * string)
    : heap * list (string * nat) :=
  let '(h, taxmap) := acc in
  let '(hitid, lineage) := rec in
  let '(h1, node) := addToTreeFromString lineage h in
  (h1, dict_set taxmap hitid node).

(** The body of the check that every node has an integer id. *)
Definition silva_fix_id (acc : heap * Z) (node : nat) : heap * Z :=
  let '(h, maxTaxid) := acc in
  if isinstance_int (node_id (obj h node)) then (h, maxTaxid)
  else match node_ncbi_tax_id (obj h node) with
       | Some t => (set_attr (with_id (IdInt t)) h node, maxTaxid)
       | None =>
           let maxTaxid' := (maxTaxid + 1)%Z in
           (set_attr (with_id (IdInt maxTaxid')) h node, maxTaxid')
       end.

(** [parseMapFile] is read as its two results: [rankMap] (lineage to rank)
    and [silvaTaxidMap] (lineage to integer id), in file order.  The values
    of the second are integers, so the warning for a non-integer id has
    nothing to fire on. *)
Definition buildSilvaTree (rankMap : list (string * string))
    (silvaTaxidMap : list (string * Z)) (fastaLines : list string) : result built :=
  maxTaxid ← py_max (snd <$> silvaTaxidMap);
  h1 ← foldM (silva_row silvaTaxidMap) [] rankMap;
  let '(recs, exn) := getOrgsFromSilvaFasta fastaLines in
  let '(h2, taxmap) := foldl silva_record (h1, []) recs in
  match exn with
  | Some e => Raise e
  | None =>
      match h2 with
      | [] => Raise StopIteration
      | _ :: _ =>
          let rootNode := getRootNode h2 0 in
          let '(h3, _) := foldl silva_fix_id (h2, maxTaxid) (treeGenerator h2 rootNode) in
          Ok (mkBuilt rootNode
                      ((λ '(hitid, node), (hitid, node_id (obj h3 node))) <$> taxmap)
                      h3 [] [])
      end
  end.

(** ** writeDumpFiles and the record map *)

Definition nodes_fmt : string :=
  "%s" +:+ TAB +:+ "|" +:+ TAB +:+ "%s" +:+ TAB +:+ "|" +:+ TAB +:+ "%s" +:+ TAB +:+ NL.
Definition names_fmt : string :=
  "%s" +:+ TAB +:+ "|" +:+ TAB +:+ "%s" +:+ TAB +:+ "|" +:+ TAB +:+ TAB +:+ "|"
       +:+ TAB +:+ "scientific name" +:+ TAB +:+ NL.
Definition taxmap_fmt : string := "%s" +:+ TAB +:+ "%s" +:+ NL.

Section Dump.
(** [edl.taxon.ranks], the rank vocabulary of the target format, is not in
    this file's source: the writer is read for any vocabulary. *)
Variable taxon_ranks : list string.

(** The rank column: the [if/elif/else] on [node.rank]. *)
Definition dump_rank (r : option string) : string :=
  match r with
  | Some s =>
      if decide (s = "domain") then "superkingdom"
      else if decide (s ∈ taxon_ranks) then s
      else "no rank"
  | None => "no rank"
  end.

(** [nparent] *)
Definition dump_parent (h : heap) (rootNode node : nat) : result pyid :=
  if decide (node = rootNode) then Ok (node_id (obj h node))
  else match node_parent (obj h node) with
       | Some p => Ok (node_id (obj h p))
       | None => Raise AttributeError
       end.

(** The body of the loop: the line for each of the two streams. *)
Definition dump_node (h : heap) (rootNode node : nat) : result (string * string) :=
  let nid := node_id (obj h node) in
  let nname := node_name (obj h node) in
  nparent ← dump_parent h rootNode node;
  let nrank := dump_rank (node_rank (obj h node)) in
  l1 ← py_format nodes_fmt [AId nid; AId nparent; AStr nrank];
  l2 ← py_format names_fmt [AId nid; AStr nname];
  Ok (l1, l2).

(** The two streams, as the lists of strings written to them. *)
Definition writeDumpFiles (h : heap) (rootNode : nat)
    : result (list string * list string) :=
  foldM (λ (acc : list string * list string) node,
           ls ← dump_node h rootNode node;
           Ok (acc.1 ++ [ls.1], acc.2 ++ [ls.2]))
        ([], []) (treeGenerator h rootNode).

(** The loop of [main] over [taxmap.items()]. *)
Definition writeTaxMap (taxmap : list (string * pyid)) : result (list string) :=
  foldM (λ (acc : list string) (kv : string * pyid),
           l ← py_format taxmap_fmt [AStr kv.1; AId kv.2];
           Ok (acc ++ [l]))
        [] taxmap.

(** The three files [main] writes from what a builder returned. *)
Definition write_outputs (b : built)
    : result (list string * list string * list string) :=
  dumps ← writeDumpFiles (b_heap b) (b_root b);
  tm ← writeTaxMap (b_taxmap b);
  Ok (dumps.1, dumps.2, tm).
End Dump.

(** ** Vocabulary of the properties *)

(** The part of a node that makes the tree: name, parent, children. *)
Definition shape (h : heap) : list (string * option nat * list nat) :=
  (λ nd, (node_name nd, node_parent nd, node_children nd)) <$> h.

(** The arena after a node [nd] has been created as a child of [last]. *)
Definition graft (h : heap) (last : nat) (nd : TaxNode) : heap :=
  alter (λ p, with_children (node_children p ++ [length h]) p) last h
    ++ [with_parent (Some last) nd].

(** The arena holds one tree, rooted at position 0: every other node has a
    parent created before it and is listed once among that parent's
    children, and every listed child points back. *)
Record wf_heap (h : heap) : Prop := mk_wf_heap {
  wf_root : ∃ r, h !! 0%nat = Some r ∧ node_parent r = None;
  wf_parent : ∀ n nd, h !! n = Some nd → n ≠ 0%nat →
    ∃ p pd, node_parent nd = Some p ∧ (p < n)%nat ∧ h !! p = Some pd ∧
            n ∈ node_children pd;
  wf_child : ∀ p pd c, h !! p = Some pd → c ∈ node_children pd →
    ∃ cd, h !! c = Some cd ∧ node_parent cd = Some p;
  wf_nodup : ∀ p pd, h !! p = Some pd → NoDup (node_children pd)
}.

(** The names on the way from the root (excluded) down to a node. *)
Fixpoint lineage_fuel (fuel : nat) (h : heap) (n : nat) : list string :=
  match fuel with
  | O => []
  | S f =>
      match h !! n with
      | Some nd =>
          match node_parent nd with
          | Some p => lineage_fuel f h p ++ [node_name nd]
          | None => []
          end
      | None => []
      end
  end.
Definition lineage (h : heap) (n : nat) : list string := lineage_fuel (S n) h n.

(** No two children of a node share a name. *)
Definition sibling_names_unique (h : heap) : Prop :=
  ∀ p pd c1 c2 d1 d2, h !! p = Some pd →
    c1 ∈ node_children pd → c2 ∈ node_children pd →
    h !! c1 = Some d1 → h !! c2 = Some d2 →
    node_name d1 = node_name d2 → c1 = c2.

(** [q] is a non-empty prefix of one of the paths. *)
Definition is_prefix_of_some (paths : list (list string)) (q : list string) : Prop :=
  q ≠ [] ∧ ∃ p, p ∈ paths ∧ q `prefix_of` p.

(** A name stands at a given position under one ancestor prefix only. *)
Definition hierarchical (paths : list (list string)) : Prop :=
  ∀ p q i x, p ∈ paths → q ∈ paths →
    p !! i = Some x → q !! i = Some x → take i p = take i q.

(** The lineage names of a PR2 header line ([names] after the [pop]). *)
Definition header_names (line : string) : list string :=
  tail (split_on "|" (rstrip ["010"; "013"]%char (drop_first line))).

(** The paths the header lines of a PR2 fasta insert, in order. *)
Definition pr2_paths (lines : list string) : list (list string) :=
  header_names <$> filter (λ l, is_header l = true) lines.

(** The insertion loop of [buildPR2Tree] on its own: the walk from the
    root along [zip(ranks,names)]. *)
Definition pr2_insert (st : pr2_state) (names : list string) : pr2_state * nat :=
  foldl pr2_place (st, 0%nat) (zip ranks names).

(** The path [addToTreeFromString] inserts for a lineage string. *)
Definition silva_path (taxString : string) : list string := split_on ";" taxString.

(** What the loop of [buildPR2Tree] maintains between two steps, on the
    arena [h], the index [idx] and the counter [nxt]: one tree; the root
    keeps its string id; the node created k-th stands at position k and
    carries the k-th id; the index lists exactly the nodes other than the
    root, each under its own rank and name, and only pairs that a path of
    [A] has. *)
Record pr2_basic (idStart : Z) (A : list (list string)) (h : heap)
    (idx : gmap (string * string) nat) (nxt : Z) : Prop := mk_pr2_basic {
  pb_wf : wf_heap h;
  pb_root : ∃ r, h !! 0%nat = Some r ∧ node_id r = IdStr "root";
  pb_ids : ∀ n nd, h !! n = Some nd → n ≠ 0%nat →
    node_id nd = IdInt (idStart + Z.of_nat n);
  pb_next : nxt = (idStart + Z.of_nat (length h) - 1)%Z;
  pb_index : ∀ r x n, idx !! (r, x) = Some n →
    n ≠ 0%nat ∧ ∃ nd, h !! n = Some nd ∧ node_rank nd = Some r ∧ node_name nd = x;
  pb_nodes : ∀ n nd, h !! n = Some nd → n ≠ 0%nat →
    ∃ r, node_rank nd = Some r ∧ idx !! (r, node_name nd) = Some n;
  pb_keys : ∀ r x n, idx !! (r, x) = Some n →
    ∃ p, p ∈ A ∧ (r, x) ∈ zip ranks p
}.

(** Every node other than the root sits at the end of a prefix of a path
    of [A], with the rank of its depth. *)
Definition pr2_tree (A : list (list string)) (h : heap) : Prop :=
  ∀ n nd, h !! n = Some nd → n ≠ 0%nat →
    ∃ p i, p ∈ A ∧ (i < length p)%nat ∧ lineage h n = take (S i) p ∧
           node_rank nd = ranks !! i.

(** All the (rank, name) pairs of a path are in the index. *)
Definition covered (idx : gmap (string * string) nat) (p : list string) : Prop :=
  ∀ rx, rx ∈ zip ranks p → is_Some (idx !! rx).

(** The node a miss in the index creates under [last]. *)
Definition pr2_fresh (st : pr2_state) (last : nat) (r x : string) : TaxNode :=
  mkTaxNode (IdInt (nextId st + 1)) (Some (node_id (obj (pr_heap st) last)))
            x (Some r) None [] None.

(** The loop invariant of [buildPR2Tree] on a state, and what a step may
    do to the state before it: the index and the arena only grow, and the
    nodes already there keep their lineage. *)
Definition pr2_inv (idStart : Z) (A : list (list string)) (st : pr2_state) : Prop :=
  pr2_basic idStart A (pr_heap st) (taxaByNameAndRank st) (nextId st).

Definition heap_grows (h h' : heap) : Prop :=
  (length h ≤ length h')%nat ∧
  ∀ m, (m < length h)%nat → lineage h' m = lineage h m.

Definition pr2_grows (st st' : pr2_state) : Prop :=
  (∀ k v, taxaByNameAndRank st !! k = Some v → taxaByNameAndRank st' !! k = Some v) ∧
  heap_grows (pr_heap st) (pr_heap st').

(** The paths of a PR2 fasta as far as the rank ladder reaches. *)
Definition ladder_paths (lines : list string) : list (list string) :=
  take (length ranks) <$> pr2_paths lines.

(** What the insertion of [addToTreeFromString] maintains: one tree in
    which no two children of a node share a name. *)
Definition silva_inv (h : heap) : Prop := wf_heap h ∧ sibling_names_unique h.

(** The node a missing child name creates. *)
Definition silva_fresh (nm : string) : TaxNode :=
  mkTaxNode IdNone None nm None None [] None.

(** The nodes of [h'] that [h] already had keep id, rank and Silva id; the
    others have none of them yet. *)
Definition attrs_kept (h h' : heap) : Prop :=
  ∀ m md', h' !! m = Some md' →
    (∃ md, h !! m = Some md ∧ node_id md' = node_id md ∧
           node_rank md' = node_rank md ∧
           node_ncbi_tax_id md' = node_ncbi_tax_id md) ∨
    (h !! m = None ∧ node_id md' = IdNone ∧ node_rank md' = None ∧
     node_ncbi_tax_id md' = None).

(** Every node other than the root ends a non-empty prefix of a path of [P]. *)
Definition nodes_below (P : list (list string)) (h : heap) : Prop :=
  ∀ n nd, h !! n = Some nd → n ≠ 0%nat → is_prefix_of_some P (lineage h n).

(** A sequence of insertions into an empty tree table. *)
Definition silva_insert_all (ss : list string) : heap :=
  foldl (λ h s, (addToTreeFromString s h).1) [] ss.

(** The stripping of a table lineage before its insertion. *)
Definition table_path (lineage : string) : list string :=
  silva_path (strip [";"; " "]%char lineage).

(** What the two loops of [buildSilvaTree] maintain on the attributes: no
    node has an id yet, and a node that carries a Silva id got it from a
    row of the table whose lineage ends on that node. *)
Definition silva_attrs (rankMap : list (string * string))
    (silvaTaxidMap : list (string * Z)) (h : heap) : Prop :=
  ∀ n nd, h !! n = Some nd →
    node_id nd = IdNone ∧
    ∀ t, node_ncbi_tax_id nd = Some t →
      ∃ l r, (l, r) ∈ rankMap ∧ dict_get silvaTaxidMap l = Some t ∧
             lineage h n = table_path l.

(** What the pass over the finished tree maintains, [m0] being the mark it
    started from and [m] the mark now: an integer id is the node's Silva id
    or, for a node without one, a mark value handed out since, and no mark
    value was handed out twice. *)
Definition fix_inv (m0 m : Z) (h : heap) : Prop :=
  (m0 ≤ m)%Z ∧
  (∀ n nd, h !! n = Some nd →
     match node_id nd with
     | IdInt z => node_ncbi_tax_id nd = Some z ∨
                  (node_ncbi_tax_id nd = None ∧ (m0 < z ≤ m)%Z)
     | IdStr _ => False
     | IdNone => True
     end) ∧
  (∀ n1 n2 d1 d2 z, h !! n1 = Some d1 → h !! n2 = Some d2 →
     node_id d1 = IdInt z → node_id d2 = IdInt z →
     node_ncbi_tax_id d1 = None → node_ncbi_tax_id d2 = None → n1 = n2).

(** Two arenas with the same tree, ranks and Silva ids. *)
Definition same_tree (h h' : heap) : Prop :=
  shape h' = shape h ∧
  ∀ k nd', h' !! k = Some nd' →
    ∃ nd, h !! k = Some nd ∧ node_ncbi_tax_id nd' = node_ncbi_tax_id nd ∧
          node_rank nd' = node_rank nd.

(** The table has one id per taxon: rows with the same id name the same
    path. *)
Definition ids_name_one_taxon (rankMap : list (string * string))
    (silvaTaxidMap : list (string * Z)) : Prop :=
  ∀ l1 r1 l2 r2 t, (l1, r1) ∈ rankMap → (l2, r2) ∈ rankMap →
    dict_get silvaTaxidMap l1 = Some t → dict_get silvaTaxidMap l2 = Some t →
    table_path l1 = table_path l2.

(** The three line formats of the output files. *)
Definition nodes_line (i p : pyid) (r : string) : string :=
  py_str i +:+ TAB +:+ "|" +:+ TAB +:+ py_str p +:+ TAB +:+ "|" +:+ TAB +:+ r
    +:+ TAB +:+ NL.
Definition names_line (i : pyid) (nm : string) : string :=
  py_str i +:+ TAB +:+ "|" +:+ TAB +:+ nm +:+ TAB +:+ "|" +:+ TAB +:+ TAB +:+ "|"
    +:+ TAB +:+ "scientific name" +:+ TAB +:+ NL.
Definition taxmap_line (k : string) (v : pyid) : string :=
  k +:+ TAB +:+ py_str v +:+ NL.

(** [n] is [r] or below it in the tree. *)
Inductive below (h : heap) : nat → nat → Prop :=
| below_here r : below h r r
| below_step r rd c n :
    h !! r = Some rd → c ∈ node_children rd → below h c n → below h r n.

(** A value that one of the two builders returned. *)
Definition built_by (b : built) : Prop :=
  (∃ lines fastaout idStart, buildPR2Tree lines fastaout idStart = Ok b) ∨
  (∃ rankMap silvaTaxidMap fastaLines,
     buildSilvaTree rankMap silvaTaxidMap fastaLines = Ok b).

(** ** Sample inputs *)

(** The two records of the specification's example, with a sequence line
    between them, and a header that has a record id and nothing else. *)
Definition ex_pr2_lines : list string :=
  [">A.1.1|Eukaryota|Fungi|Ascomycota" +:+ NL; "ACGT" +:+ NL;
   ">B.1.1|Eukaryota|Fungi|Basidiomycota" +:+ NL].
Definition ex_pr2_bare : string := ">X.9" +:+ NL.

(** The text of the warning about the children of the root. *)
Definition root_warning (h : heap) (kids : list nat) : string :=
  "There should only be one child of root! Not " +:+ pretty (Z.of_nat (length kids))
    +:+ ":" +:+ NL +:+ join ", " ((λ c, node_name (obj h c)) <$> kids).

(** A Silva table with the external ids 5, 12 and 7 and two fasta records
    that add leaves below its taxa. *)
Definition ex_rankMap : list (string * string) :=
  [("Bacteria;", "superkingdom"); ("Bacteria;Proteobacteria;", "phylum");
   ("Archaea;", "superkingdom")].
Definition ex_taxids : list (string * Z) :=
  [("Bacteria;", 5%Z); ("Bacteria;Proteobacteria;", 12%Z); ("Archaea;", 7%Z)].
Definition ex_fasta : list string :=
  [">s1 Bacteria;Proteobacteria;Escherichia" +:+ NL; "ACGT" +:+ NL;
   ">s2 Archaea;Euryarchaeota" +:+ NL].

(** The same table with one id given to two taxa. *)
Definition ex_taxids_twice : list (string * Z) :=
  [("Bacteria;", 5%Z); ("Bacteria;Proteobacteria;", 12%Z); ("Archaea;", 5%Z)].

(** A fasta whose first header has no description. *)
Definition ex_fasta_bad : list string :=
  [">s0" +:+ NL; ">s1 Bacteria;Proteobacteria;Escherichia" +:+ NL].

(** A rank vocabulary for the samples: the ranks the specification lists,
    with the two labels of the rename. *)
Definition ex_vocabulary : list string :=
  ["superkingdom"; "major_clade"; "domain"; "kingdom"; "phylum"; "class"; "order";
   "family"; "genus"; "species"].

(** Two PR2 records whose lineages end in the same name at the same rank
    under different parents. *)
Definition ex_pr2_clash : list string :=
  [">a|E|X|Z" +:+ NL; ">b|E|Y|Z" +:+ NL].

(** ** Further vocabulary *)

(** The record id of a PR2 header line ([names.pop(0)]). *)
Definition header_hitid (line : string) : string :=
  default "" (head (split_on "|" (rstrip ["010"; "013"]%char (drop_first line)))).

(** What [buildPR2Tree] writes to the fasta output for an input line. *)
Definition rewritten_header (line : string) : string :=
  ">" +:+ header_hitid line +:+ " " +:+ join ";" (header_names line) +:+ NL.
Definition fasta_rewrite (line : string) : string :=
  if is_header line then rewritten_header line else line.

(** A node of [h] is still there in [h'] with the same id, name, rank and
    parent, and its children are still its first children. *)
Definition heap_persists (h h' : heap) : Prop :=
  ∀ n nd, h !! n = Some nd →
    ∃ nd', h' !! n = Some nd' ∧ node_id nd' = node_id nd ∧
           node_name nd' = node_name nd ∧ node_rank nd' = node_rank nd ∧
           node_parent nd' = node_parent nd ∧
           node_children nd `prefix_of` node_children nd'.

(** The rank of every node other than the root is the ladder rank of its
    depth. *)
Definition rank_is_depth (h : heap) : Prop :=
  ∀ n nd, h !! n = Some nd → n ≠ 0%nat →
    ∃ i, length (lineage h n) = S i ∧ node_rank nd = ranks !! i ∧
         (i < length ranks)%nat.

(** The first lineage name of a PR2 fasta: the first name of the first
    header line that has one. *)
Definition first_taxon (lines : list string) : option string :=
  head (concat (pr2_paths lines)).

(** A header line with at least one lineage name. *)
Definition has_names (line : string) : Prop :=
  is_header line = true ∧ header_names line ≠ [].

(** After the first lineage name [x0] has been placed, the index has it at
    position 1 and the root has that node as its first child. *)
Definition first_placed (x0 : string) (st : pr2_state) : Prop :=
  taxaByNameAndRank st !! ("domain", x0) = Some 1%nat ∧
  ∃ nd0, pr_heap st !! 0%nat = Some nd0 ∧ head (node_children nd0) = Some 1%nat.


#[global] Instance has_names_dec (line : string) : Decision (has_names line).
Proof. unfold has_names. apply _. Defined.

(** The record ids of the header lines of a PR2 fasta, in order. *)
Definition pr2_hitids (lines : list string) : list string :=
  header_hitid <$> filter (λ l, is_header l = true) lines.

(** The id of the node at which the walk of [buildPR2Tree] along the
    names of a header line ends in a state. *)
Definition pr2_taxid (st : pr2_state) (line : string) : pyid :=
  node_id (obj (pr_heap st) (pr2_insert st (header_names line)).2).

(** [for x in l: d[f(x)] = g(x)]. *)
Definition dict_fill {X K V : Type} `{EqDecision K} (f : X → K) (g : X → V)
    (d : list (K * V)) (l : list X) : list (K * V) :=
  foldl (λ d x, dict_set d (f x) (g x)) d l.

(** The unpacking of [getOrgsFromSilvaFasta] on one header line. *)
Definition header_record (line : string) : option (string * string) :=
  match split_ws_1 (strip whitespace (drop_first line)) with
  | [read; desc] => Some (read, desc)
  | _ => None
  end.

(** All characters, or no character, of a string are among [cs]. *)
Fixpoint all_in (cs : list ascii) (s : string) : bool :=
  match s with
  | EmptyString => true
  | String c s' => mem_ascii c cs && all_in cs s'
  end.

Fixpoint none_in (cs : list ascii) (s : string) : bool :=
  match s with
  | EmptyString => true
  | String c s' => negb (mem_ascii c cs) && none_in cs s'
  end.

(** ** main *)

Inductive db_type : Set := DbSilva | DbPR2.

(** The parsed command line.  The two input files stand for what the run
    reads from them: [silva_fasta] for the lines of the fasta, [taxfile]
    for the two maps [parseMapFile] makes of the tax file. *)
Record arguments : Type := mkArguments {
  taxfile : option (list (string * string) * list (string * Z));
  dbType : db_type;
  fastaout : option string;
  idStart : Z;
  output_map : string;
  silva_fasta : list string;
  output_dir : string
}.

(** How [main] ends: [parser.error] leaves with a usage message, an
    exception of a builder or a writer is not caught, and otherwise the
    run finishes.  [written] lists the handles a finished run opened for
    writing, in the order of opening, each with the path given to [open]
    and the lines written through it; which file a path names, and so
    what a file holds in the end, is left to the file system.  What a run
    wrote before an exception is not recorded. *)
Inductive main_result : Type :=
| ParserError (msg : string)
| Uncaught (e : pyexn)
| Finished (written : list (string * list string)) (log : list log_entry).

(** [if fastaout:] on the option value. *)
Definition truthy (p : option string) : bool :=
  match p with
  | Some s => bool_decide (s ≠ "")
  | None => false
  end.

(** [os.path.sep.join((dir, name))] *)
Definition path_join (sep dir name : string) : string := dir +:+ sep +:+ name.

(** The branch of [main] on [dbType]. *)
Definition main_build (a : arguments) : string + result built :=
  match dbType a with
  | DbPR2 => inr (buildPR2Tree (silva_fasta a) (truthy (fastaout a)) (idStart a))
  | DbSilva =>
      match taxfile a with
      | None => inl "You must provide the tax file for Silva (-t)"
      | Some (rankMap, silvaTaxidMap) =>
          inr (buildSilvaTree rankMap silvaTaxidMap (silva_fasta a))
      end
  end.

(** The handle [buildPR2Tree] opens on [fastaout] before it reads the
    fasta and closes before it returns.  [buildSilvaTree] is not given the
    option. *)
Definition fastaout_written (a : arguments) (lines : list string)
    : list (string * list string) :=
  match dbType a, fastaout a with
  | DbPR2, Some p => if truthy (fastaout a) then [(p, lines)] else []
  | _, _ => []
  end.

(** The handles of a run whose builder returned: the two dumps, open
    together, and after them the record map. *)
Definition main_written (sep : string) (a : arguments) (b : built)
    (nodes names tm : list string) : list (string * list string) :=
  fastaout_written a (b_fastaout b) ++
  [(path_join sep (output_dir a) "nodes.dmp", nodes);
   (path_join sep (output_dir a) "names.dmp", names);
   (path_join sep (output_dir a) (output_map a), tm)].

Definition main (taxon_ranks : list string) (sep : string) (a : arguments)
    : main_result :=
  match main_build a with
  | inl msg => ParserError msg
  | inr (Raise e) => Uncaught e
  | inr (Ok b) =>
      match write_outputs taxon_ranks b with
      | Raise e => Uncaught e
      | Ok (nodes, names, tm) => Finished (main_written sep a b nodes names tm) (b_log b)
      end
  end.

(** A PR2 run of the sample fasta, with the rewritten fasta asked for. *)
Definition ex_arguments : arguments :=
  mkArguments None DbPR2 (Some "out.fasta") 100 "lastdb.tax" ex_pr2_lines "tax".

(** ** The rank of a node of the Silva tree *)

(** The row of the rank table that decides the rank of the node at the
    end of a path: the last one whose stripped lineage is the path. *)
Definition table_row (rankMap : list (string * string)) (p : list string)
    : option (string * string) :=
  last (filter (λ row, table_path row.1 = p) rankMap).

(** The rank that row leaves on the node, after the rename. *)
Definition table_rank (rankMap : list (string * string)) (p : list string)
    : option string :=
  (λ row, rankMapping_get row.2) <$> table_row rankMap p.

(** What the loops of [buildSilvaTree] maintain on the ranks, [rows] being
    the rows of the table read so far: a node has the rank of the last
    row read for its path, and every row read has its node. *)
Definition rank_inv (rows : list (string * string)) (h : heap) : Prop :=
  (∀ n nd, h !! n = Some nd → node_rank nd = table_rank rows (lineage h n)) ∧
  (∀ l r, (l, r) ∈ rows → ∃ n, (n < length h)%nat ∧ lineage h n = table_path l).

(** A table in which a later row, written without the final ";", gives
    the rank "domain" to the path of an earlier row. *)
Definition ex_rankMap_twice : list (string * string) :=
  [("Bacteria;", "superkingdom"); ("Bacteria", "domain")].
Definition ex_taxids_alias : list (string * Z) :=
  [("Bacteria;", 5%Z); ("Bacteria", 6%Z)].

(** * Properties *)

(** Split the conjunctions that are written out, not the ones a
    definition hides. *)
Ltac splits := repeat match goal with |- _ ∧ _ => split end.

(** ** The error monad *)

Lemma foldM_app {A B : Type} (f : A → B → result A) (a : A) (l1 l2 : list B) :
  foldM f a (l1 ++ l2) = (a' ← foldM f a l1; foldM f a' l2).
Proof.
  revert a. induction l1 as [|x l1 IH]; intros a; simpl; [done|].
  destruct (f a x) as [a'|e]; simpl; [apply IH|done].
Qed.

Lemma bind_Ok_inv {A B : Type} (r : result A) (k : A → result B) (b : B) :
  (a ← r; k a) = Ok b → ∃ a, r = Ok a ∧ k a = Ok b.
Proof. destruct r as [a|e]; simpl; [eauto|done]. Qed.

(** ** Strings *)

Lemma append_empty_r (s : string) : s +:+ "" = s.
Proof.
  induction s as [|c s IH]; [done|].
  change (String c (s +:+ "") = String c s). by f_equal.
Qed.

(** ** The arena *)

Section Arena.
Implicit Types (h : heap) (n p : nat) (nd : TaxNode).

Lemma obj_lookup h n nd : h !! n = Some nd → obj h n = nd.
Proof. intros H. unfold obj. by apply list_lookup_total_correct. Qed.

Lemma shape_lookup h h' n nd :
  shape h = shape h' → h !! n = Some nd →
  ∃ nd', h' !! n = Some nd' ∧ node_name nd' = node_name nd ∧
         node_parent nd' = node_parent nd ∧ node_children nd' = node_children nd.
Proof.
  intros Hs Hn.
  assert (shape h' !! n = Some (node_name nd, node_parent nd, node_children nd)) as H'.
  { rewrite <- Hs. unfold shape. by rewrite list_lookup_fmap, Hn. }
  unfold shape in H'. rewrite list_lookup_fmap in H'.
  destruct (h' !! n) as [nd'|]; simpl in H'; [|done].
  exists nd'. by simplify_eq.
Qed.

Lemma shape_length h h' : shape h = shape h' → length h = length h'.
Proof.
  intros Hs. apply (f_equal length) in Hs. unfold shape in Hs.
  by rewrite !length_fmap in Hs.
Qed.

Lemma shape_set_attr (f : TaxNode → TaxNode) h n :
  (∀ nd, node_name (f nd) = node_name nd ∧ node_parent (f nd) = node_parent nd ∧
         node_children (f nd) = node_children nd) →
  shape (set_attr f h n) = shape h.
Proof.
  intros Hf. unfold shape, set_attr. apply list_eq. intros i.
  rewrite !list_lookup_fmap.
  destruct (decide (i = n)) as [->|Hne].
  - rewrite list_lookup_alter_eq. destruct (h !! n) as [nd|]; simpl; [|done].
    destruct (Hf nd) as (-> & -> & ->). done.
  - by rewrite list_lookup_alter_ne.
Qed.

Lemma wf_heap_shape h h' : shape h = shape h' → wf_heap h → wf_heap h'.
Proof.
  intros Hs [Hr Hp Hc Hd]. symmetry in Hs. split.
  - destruct Hr as (r & Hr & Hpr).
    destruct (shape_lookup h h' 0 r (eq_sym Hs) Hr) as (r' & ? & _ & Hp' & _).
    exists r'. split; [done|congruence].
  - intros n nd' Hn Hn0.
    destruct (shape_lookup _ _ _ _ Hs Hn) as (nd & Hnd & _ & Hpn & _).
    destruct (Hp n nd Hnd Hn0) as (p & pd & Hpar & Hlt & Hpd & Hin).
    destruct (shape_lookup _ _ _ _ (eq_sym Hs) Hpd) as (pd' & ? & _ & _ & Hk).
    exists p, pd'. repeat split; try done; congruence.
  - intros p pd' c Hpd' Hin.
    destruct (shape_lookup _ _ _ _ Hs Hpd') as (pd & Hpd & _ & _ & Hk).
    rewrite <- Hk in Hin. destruct (Hc p pd c Hpd Hin) as (cd & Hcd & Hcp).
    destruct (shape_lookup _ _ _ _ (eq_sym Hs) Hcd) as (cd' & ? & _ & Hp' & _).
    exists cd'. split; [done|congruence].
  - intros p pd' Hpd'.
    destruct (shape_lookup _ _ _ _ Hs Hpd') as (pd & Hpd & _ & _ & Hk).
    rewrite <- Hk. by eapply Hd.
Qed.

Lemma lineage_fuel_shape h h' fuel n :
  shape h = shape h' → lineage_fuel fuel h n = lineage_fuel fuel h' n.
Proof.
  intros Hs. revert n. induction fuel as [|f IH]; intros n; simpl; [done|].
  destruct (h !! n) as [nd|] eqn:Hn.
  - destruct (shape_lookup _ _ _ _ Hs Hn) as (nd' & -> & -> & -> & _).
    destruct (node_parent nd); [by rewrite IH|done].
  - destruct (h' !! n) as [nd'|] eqn:Hn'; [|done].
    destruct (shape_lookup _ _ _ _ (eq_sym Hs) Hn') as (? & ? & _). congruence.
Qed.

Lemma lineage_shape h h' n : shape h = shape h' → lineage h n = lineage h' n.
Proof. apply lineage_fuel_shape. Qed.

(** With parents created before their children, [S n] steps reach the
    root from [n], and more fuel changes nothing. *)
Lemma lineage_fuel_enough h : wf_heap h →
  ∀ n fuel, (n < fuel)%nat → lineage_fuel fuel h n = lineage h n.
Proof.
  intros Hwf n. induction n as [n IH] using lt_wf_ind. intros fuel Hlt.
  unfold lineage. destruct fuel as [|f]; [lia|]. simpl.
  destruct (h !! n) as [nd|] eqn:Hn; [|done].
  destruct (node_parent nd) as [p|] eqn:Hp; [|done].
  destruct (decide (n = 0%nat)) as [->|Hn0].
  { destruct (wf_root h Hwf) as (r & Hr & Hpr). congruence. }
  destruct (wf_parent h Hwf n nd Hn Hn0) as (p' & pd & Hp' & Hlt' & _).
  assert (p' = p) as -> by congruence.
  rewrite (IH p Hlt' f) by lia. rewrite (IH p Hlt' n) by lia. done.
Qed.

Lemma lineage_step h n nd p : wf_heap h →
  h !! n = Some nd → node_parent nd = Some p →
  lineage h n = lineage h p ++ [node_name nd].
Proof.
  intros Hwf Hn Hp. unfold lineage at 1. simpl. rewrite Hn, Hp.
  rewrite lineage_fuel_enough; [done|done|].
  destruct (decide (n = 0%nat)) as [->|Hn0].
  { destruct (wf_root h Hwf) as (r & Hr & Hpr). congruence. }
  destruct (wf_parent h Hwf n nd Hn Hn0) as (p' & pd & Hp' & Hlt' & _).
  congruence.
Qed.

Lemma lineage_root h : wf_heap h → lineage h 0 = [].
Proof.
  intros Hwf. destruct (wf_root h Hwf) as (r & Hr & Hpr).
  unfold lineage. simpl. by rewrite Hr, Hpr.
Qed.

Lemma lineage_nonroot h n nd : wf_heap h →
  h !! n = Some nd → n ≠ 0%nat → lineage h n ≠ [].
Proof.
  intros Hwf Hn Hn0.
  destruct (wf_parent h Hwf n nd Hn Hn0) as (p & pd & Hp & _).
  rewrite (lineage_step h n nd p) by done. by destruct (lineage h p).
Qed.

Lemma lineage_outside h n : h !! n = None → lineage h n = [].
Proof. intros Hn. unfold lineage. simpl. by rewrite Hn. Qed.

(** *** Creating a child *)

Lemma graft_length h last nd : length (graft h last nd) = S (length h).
Proof. unfold graft. rewrite length_app, length_alter. simpl. lia. Qed.

Lemma graft_lookup_new h last nd :
  graft h last nd !! length h = Some (with_parent (Some last) nd).
Proof.
  unfold graft. rewrite lookup_app_r by (rewrite length_alter; lia).
  rewrite length_alter. by rewrite Nat.sub_diag.
Qed.

Lemma graft_lookup_last h last nd pd : h !! last = Some pd →
  graft h last nd !! last
    = Some (with_children (node_children pd ++ [length h]) pd).
Proof.
  intros Hl. unfold graft.
  rewrite lookup_app_l by (rewrite length_alter; by eapply lookup_lt_Some).
  by rewrite list_lookup_alter_eq, Hl.
Qed.

Lemma graft_lookup_other h last nd n : n ≠ last → n ≠ length h →
  graft h last nd !! n = h !! n.
Proof.
  intros Hne Hlen. unfold graft.
  destruct (decide (n < length h)%nat) as [Hlt|Hge].
  - rewrite lookup_app_l by (by rewrite length_alter).
    by rewrite list_lookup_alter_ne.
  - rewrite (lookup_ge_None_2 h) by lia.
    apply lookup_ge_None_2. rewrite length_app, length_alter. simpl. lia.
Qed.

(** An old node keeps everything but, for [last], its list of children. *)
Lemma graft_lookup_old h last nd n nd' :
  graft h last nd !! n = Some nd' → n ≠ length h →
  ∃ od, h !! n = Some od ∧ node_name nd' = node_name od ∧
        node_parent nd' = node_parent od ∧ node_id nd' = node_id od ∧
        node_rank nd' = node_rank od ∧
        node_ncbi_tax_id nd' = node_ncbi_tax_id od ∧
        node_children nd' =
          (if decide (n = last) then node_children od ++ [length h]
           else node_children od).
Proof.
  intros Hn Hlen. destruct (decide (n = last)) as [->|Hne].
  - destruct (h !! last) as [pd|] eqn:Hl.
    + rewrite (graft_lookup_last _ _ _ pd Hl) in Hn. simplify_eq.
      exists pd. by repeat split.
    + exfalso. unfold graft in Hn.
      apply lookup_ge_None_1 in Hl.
      rewrite lookup_app_r in Hn by (rewrite length_alter; lia).
      rewrite length_alter in Hn.
      destruct (last - length h)%nat as [|k] eqn:Hk; [lia|].
      simpl in Hn. by rewrite lookup_nil in Hn.
  - rewrite graft_lookup_other in Hn by done. exists nd'. by repeat split.
Qed.

Lemma graft_lookup_old_2 h last nd n od : h !! n = Some od →
  ∃ nd', graft h last nd !! n = Some nd' ∧ node_name nd' = node_name od ∧
         node_parent nd' = node_parent od ∧ node_id nd' = node_id od ∧
         node_rank nd' = node_rank od ∧
         node_ncbi_tax_id nd' = node_ncbi_tax_id od ∧
         node_children nd' =
           (if decide (n = last) then node_children od ++ [length h]
            else node_children od).
Proof.
  intros Hn. pose proof (lookup_lt_Some _ _ _ Hn) as Hlt.
  destruct (decide (n = last)) as [->|Hne].
  - eexists. split; [by apply graft_lookup_last|]. by repeat split.
  - exists od. rewrite graft_lookup_other by lia. by repeat split.
Qed.

Lemma wf_graft h last nd : wf_heap h → (last < length h)%nat →
  node_children nd = [] → wf_heap (graft h last nd).
Proof.
  intros Hwf Hlast Hkids.
  destruct (lookup_lt_is_Some_2 h last Hlast) as [ld Hld].
  pose proof Hwf as [Hr Hp Hc Hd]. split.
  - destruct Hr as (r & Hr & Hpr).
    destruct (graft_lookup_old_2 h last nd 0 r Hr) as (r' & ? & _ & Hp' & _).
    exists r'. split; [done|congruence].
  - intros n nd' Hn Hn0. destruct (decide (n = length h)) as [->|Hne].
    + rewrite graft_lookup_new in Hn. simplify_eq.
      exists last. eexists. split; [done|]. split; [done|].
      split; [by apply graft_lookup_last|]. simpl. set_solver.
    + destruct (graft_lookup_old _ _ _ _ _ Hn Hne) as (od & Hod & _ & Hpo & _).
      destruct (Hp n od Hod Hn0) as (p & pd & Hpar & Hlt & Hpd & Hin).
      destruct (graft_lookup_old_2 h last nd p pd Hpd)
        as (pd' & Hpd' & _ & _ & _ & _ & _ & Hk).
      exists p, pd'. split; [congruence|]. split; [done|]. split; [done|].
      rewrite Hk. case_decide; set_solver.
  - intros p pd' c Hpd' Hin.
    assert (p ≠ length h) as Hpne.
    { intros ->. rewrite graft_lookup_new in Hpd'. simplify_eq.
      simpl in Hin. rewrite Hkids in Hin. set_solver. }
    destruct (graft_lookup_old _ _ _ _ _ Hpd' Hpne) as (pd & Hpd & _ & _ & _ & _ & _ & Hk).
    rewrite Hk in Hin.
    assert (c ∈ node_children pd ∨ (c = length h ∧ p = last)) as [Hold|[-> ->]].
    { case_decide; [|by left]. apply elem_of_app in Hin as [?|Hin]; [by left|].
      right. set_solver. }
    + destruct (Hc p pd c Hpd Hold) as (cd & Hcd & Hcp).
      destruct (graft_lookup_old_2 h last nd c cd Hcd) as (cd' & ? & _ & Hp' & _).
      exists cd'. split; [done|congruence].
    + eexists. split; [apply graft_lookup_new|done].
  - intros p pd' Hpd'. destruct (decide (p = length h)) as [->|Hpne].
    + rewrite graft_lookup_new in Hpd'. simplify_eq. simpl. rewrite Hkids.
      constructor.
    + destruct (graft_lookup_old _ _ _ _ _ Hpd' Hpne) as (pd & Hpd & _ & _ & _ & _ & _ & Hk).
      rewrite Hk. case_decide; [|by eapply Hd]. subst p.
      apply NoDup_app. split; [by eapply Hd|]. split; [|apply NoDup_singleton].
      intros c Hin Hin'. apply list_elem_of_singleton in Hin'. subst c.
      destruct (Hc last pd (length h) Hpd Hin) as (cd & Hcd & _).
      apply lookup_lt_Some in Hcd. lia.
Qed.

Lemma lineage_graft_old h last nd n : wf_heap h → (last < length h)%nat →
  node_children nd = [] → (n < length h)%nat →
  lineage (graft h last nd) n = lineage h n.
Proof.
  intros Hwf Hlast Hkids. pose proof (wf_graft h last nd Hwf Hlast Hkids) as Hwf'.
  induction n as [n IH] using lt_wf_ind. intros Hn.
  destruct (lookup_lt_is_Some_2 h n Hn) as [od Hod].
  destruct (graft_lookup_old_2 h last nd n od Hod) as (nd' & Hnd' & Hnm & Hpa & _).
  destruct (decide (n = 0%nat)) as [->|Hn0]; [by rewrite !lineage_root|].
  destruct (wf_parent h Hwf n od Hod Hn0) as (p & pd & Hp & Hlt & _).
  rewrite (lineage_step _ n nd' p Hwf' Hnd') by congruence.
  rewrite (lineage_step _ n od p Hwf Hod Hp).
  rewrite IH by lia. by rewrite Hnm.
Qed.

Lemma lineage_graft_new h last nd : wf_heap h → (last < length h)%nat →
  node_children nd = [] →
  lineage (graft h last nd) (length h) = lineage h last ++ [node_name nd].
Proof.
  intros Hwf Hlast Hkids. pose proof (wf_graft h last nd Hwf Hlast Hkids) as Hwf'.
  rewrite (lineage_step _ _ _ last Hwf' (graft_lookup_new h last nd)) by done.
  by rewrite lineage_graft_old.
Qed.

(** Every proper ancestor prefix of a node's lineage is the lineage of
    one of its ancestors. *)
Lemma lineage_prefix_closed h : wf_heap h →
  ∀ n nd k, h !! n = Some nd → (k ≤ length (lineage h n))%nat →
  ∃ m md, h !! m = Some md ∧ lineage h m = take k (lineage h n).
Proof.
  intros Hwf n. induction n as [n IH] using lt_wf_ind. intros nd k Hn Hk.
  destruct (decide (k = length (lineage h n))) as [->|Hne].
  { exists n, nd. by rewrite firstn_all. }
  destruct (decide (n = 0%nat)) as [->|Hn0].
  { rewrite lineage_root in Hk, Hne by done. simpl in *. lia. }
  destruct (wf_parent h Hwf n nd Hn Hn0) as (p & pd & Hp & Hlt & Hpd & _).
  rewrite (lineage_step h n nd p Hwf Hn Hp) in *.
  rewrite length_app in Hk, Hne. simpl in *.
  rewrite take_app_le by lia. apply (IH p Hlt pd); [done|lia].
Qed.
End Arena.

(** ** The insertion step of buildPR2Tree *)

Section PR2.
Implicit Types (h : heap) (st : pr2_state) (n last : nat).

Lemma set_attr_fresh (f : TaxNode → TaxNode) h nd :
  set_attr f (h ++ [nd]) (length h) = h ++ [f nd].
Proof.
  unfold set_attr. replace (length h) with (length h + 0)%nat at 1 by lia.
  by rewrite alter_app_r.
Qed.

Lemma setParent_fresh h nd last : (last < length h)%nat →
  setParent (h ++ [nd]) (length h) last = graft h last nd.
Proof.
  intros Hlt. unfold setParent. rewrite set_attr_fresh.
  unfold set_attr, graft. by rewrite alter_app_l.
Qed.

Lemma pr2_place_found st last r x n :
  taxaByNameAndRank st !! (r, x) = Some n → pr2_place (st, last) (r, x) = (st, n).
Proof. intros H. unfold pr2_place. by rewrite H. Qed.

Lemma pr2_place_new st last r x :
  taxaByNameAndRank st !! (r, x) = None → (last < length (pr_heap st))%nat →
  pr2_place (st, last) (r, x) =
    (mkPR2 (graft (pr_heap st) last (pr2_fresh st last r x))
           (<[(r, x) := length (pr_heap st)]> (taxaByNameAndRank st))
           (dict_set (prTree st) (IdInt (nextId st + 1)) (length (pr_heap st)))
           (taxMap st) (nextId st + 1)%Z (outhandle st),
     length (pr_heap st)).
Proof.
  intros Hnone Hlt. unfold pr2_place. rewrite Hnone.
  unfold new_TaxNode. rewrite !set_attr_fresh. rewrite setParent_fresh by done.
  simpl. unfold pr2_fresh.
  rewrite (obj_lookup _ _ _ (graft_lookup_new _ _ _)). done.
Qed.

Lemma pr2_place_frame acc rt :
  taxMap (pr2_place acc rt).1 = taxMap acc.1 ∧
  outhandle (pr2_place acc rt).1 = outhandle acc.1.
Proof.
  destruct acc as [st last], rt as [r x]. unfold pr2_place.
  destruct (taxaByNameAndRank st !! (r, x)); simpl; [done|].
  unfold new_TaxNode. done.
Qed.

Lemma pr2_basic_place idStart A st last r x p :
  pr2_basic idStart A (pr_heap st) (taxaByNameAndRank st) (nextId st) →
  (last < length (pr_heap st))%nat → p ∈ A → (r, x) ∈ zip ranks p →
  ∀ st' n', pr2_place (st, last) (r, x) = (st', n') →
    pr2_basic idStart A (pr_heap st') (taxaByNameAndRank st') (nextId st') ∧
    (n' < length (pr_heap st'))%nat ∧ n' ≠ 0%nat ∧
    taxaByNameAndRank st' !! (r, x) = Some n' ∧
    (∀ k v, taxaByNameAndRank st !! k = Some v → taxaByNameAndRank st' !! k = Some v) ∧
    (length (pr_heap st) ≤ length (pr_heap st'))%nat.
Proof.
  intros Hb Hlast HpA Hrx st' n' Hplace.
  destruct (taxaByNameAndRank st !! (r, x)) as [n|] eqn:Hidx.
  - rewrite (pr2_place_found _ _ _ _ _ Hidx) in Hplace. simplify_eq.
    destruct (pb_index _ _ _ _ _ Hb r x n' Hidx) as (Hn0 & nd & Hnd & _).
    splits; try done. by eapply lookup_lt_Some.
  - rewrite pr2_place_new in Hplace by done. simplify_eq. simpl.
    pose proof (pb_wf _ _ _ _ _ Hb) as Hwf.
    set (h := pr_heap st) in *. set (nd0 := pr2_fresh st last r x).
    assert (length h ≠ 0)%nat as Hlen0 by lia.
    splits.
    + split.
      * by apply wf_graft.
      * destruct (pb_root _ _ _ _ _ Hb) as (rt & Hrt & Hid).
        destruct (graft_lookup_old_2 h last nd0 0 rt Hrt) as (rt' & ? & _ & _ & Hid' & _).
        exists rt'. split; [done|congruence].
      * intros n nd Hn Hn0. destruct (decide (n = length h)) as [->|Hne].
        -- rewrite graft_lookup_new in Hn. simplify_eq. simpl.
           rewrite (pb_next _ _ _ _ _ Hb). fold h. f_equal. lia.
        -- destruct (graft_lookup_old _ _ _ _ _ Hn Hne) as (od & Hod & _ & _ & Hid & _).
           rewrite Hid. by eapply pb_ids.
      * rewrite graft_length, (pb_next _ _ _ _ _ Hb). fold h. lia.
      * intros r' x' n Hl. destruct (decide ((r, x) = (r', x'))) as [Heq|Hne].
        -- simplify_eq. rewrite lookup_insert_eq in Hl. simplify_eq.
           split; [done|]. eexists. split; [apply graft_lookup_new|done].
        -- rewrite lookup_insert_ne in Hl by done.
           destruct (pb_index _ _ _ _ _ Hb r' x' n Hl) as (Hn0 & nd & Hnd & Hr & Hx).
           split; [done|].
           destruct (graft_lookup_old_2 h last nd0 n nd Hnd)
             as (nd' & ? & Hnm & _ & _ & Hrk & _).
           exists nd'. split; [done|]. split; congruence.
      * intros n nd Hn Hn0. destruct (decide (n = length h)) as [->|Hne].
        -- rewrite graft_lookup_new in Hn. simplify_eq. simpl.
           exists r. split; [done|]. apply lookup_insert_eq.
        -- destruct (graft_lookup_old _ _ _ _ _ Hn Hne)
             as (od & Hod & Hnm & _ & _ & Hrk & _).
           destruct (pb_nodes _ _ _ _ _ Hb n od Hod Hn0) as (r' & Hr' & Hi').
           exists r'. split; [congruence|]. rewrite Hnm.
           rewrite lookup_insert_ne; [done|]. intros Heq. rewrite <- Heq in Hi'.
           congruence.
      * intros r' x' n Hl. destruct (decide ((r, x) = (r', x'))) as [Heq|Hne].
        -- simplify_eq. by exists p.
        -- rewrite lookup_insert_ne in Hl by done. by eapply pb_keys.
    + rewrite graft_length. lia.
    + done.
    + apply lookup_insert_eq.
    + intros k v Hk. rewrite lookup_insert_ne; [done|]. intros <-. congruence.
    + rewrite graft_length. lia.
Qed.

Lemma ranks_NoDup : NoDup ranks.
Proof. apply (bool_decide_unpack (NoDup ranks)). by vm_compute. Qed.

Lemma zip_lookup_elem (p : list string) i r x :
  ranks !! i = Some r → p !! i = Some x → (r, x) ∈ zip ranks p.
Proof.
  intros Hr Hx. apply (list_elem_of_lookup_2 _ i). by apply lookup_zip_Some.
Qed.

Lemma heap_grows_refl h : heap_grows h h.
Proof. by split. Qed.

Lemma heap_grows_trans h1 h2 h3 :
  heap_grows h1 h2 → heap_grows h2 h3 → heap_grows h1 h3.
Proof.
  intros [Hl1 H1] [Hl2 H2]. split; [lia|].
  intros m Hm. rewrite H2 by lia. by apply H1.
Qed.

Lemma heap_grows_graft h last nd : wf_heap h → (last < length h)%nat →
  node_children nd = [] → heap_grows h (graft h last nd).
Proof.
  intros Hwf Hlast Hk. split; [rewrite graft_length; lia|].
  intros m Hm. by apply lineage_graft_old.
Qed.

Lemma pr2_grows_refl st : pr2_grows st st.
Proof. split; [done|apply heap_grows_refl]. Qed.

Lemma pr2_grows_trans st1 st2 st3 :
  pr2_grows st1 st2 → pr2_grows st2 st3 → pr2_grows st1 st3.
Proof.
  intros [Hi1 Hh1] [Hi2 Hh2]. split; [by eauto|by eapply heap_grows_trans].
Qed.

Lemma pr2_grows_place idStart A st last rx st' n' :
  pr2_inv idStart A st → (last < length (pr_heap st))%nat →
  pr2_place (st, last) rx = (st', n') → pr2_grows st st'.
Proof.
  intros Hb Hlast Hplace. destruct rx as [r x].
  destruct (taxaByNameAndRank st !! (r, x)) as [n|] eqn:Hidx.
  - rewrite (pr2_place_found _ _ _ _ _ Hidx) in Hplace. simplify_eq.
    apply pr2_grows_refl.
  - rewrite pr2_place_new in Hplace by done. simplify_eq. split; simpl.
    + intros k v Hk. rewrite lookup_insert_ne; [done|]. intros <-. congruence.
    + apply heap_grows_graft; [by apply (pb_wf _ _ _ _ _ Hb)|done|done].
Qed.

(** Under a hierarchical set of paths the index lookup of a name at its
    rank lands on the child of the current node. *)
Lemma pr2_tree_place idStart A st last r x p i :
  hierarchical A → pr2_inv idStart A st → pr2_tree A (pr_heap st) →
  p ∈ A → p !! i = Some x → ranks !! i = Some r →
  (last < length (pr_heap st))%nat → lineage (pr_heap st) last = take i p →
  ∀ st' n', pr2_place (st, last) (r, x) = (st', n') →
    pr2_tree A (pr_heap st') ∧ lineage (pr_heap st') n' = take (S i) p.
Proof.
  intros HA Hb Ht HpA Hpi Hri Hlast Hlin st' n' Hplace.
  pose proof (pb_wf _ _ _ _ _ Hb) as Hwf.
  destruct (taxaByNameAndRank st !! (r, x)) as [n|] eqn:Hidx.
  - rewrite (pr2_place_found _ _ _ _ _ Hidx) in Hplace. simplify_eq.
    split; [done|].
    destruct (pb_index _ _ _ _ _ Hb r x n' Hidx) as (Hn0 & nd & Hnd & Hrk & Hnm).
    destruct (Ht n' nd Hnd Hn0) as (p' & i' & Hp'A & Hi' & Hl' & Hrk').
    assert (i' = i) as ->.
    { eapply NoDup_lookup; [apply ranks_NoDup| |done]. congruence. }
    destruct (wf_parent _ Hwf n' nd Hnd Hn0) as (q & qd & Hq & _).
    rewrite (lineage_step _ n' nd q Hwf Hnd Hq) in Hl'.
    destruct (lookup_lt_is_Some_2 p' i Hi') as [y Hy].
    rewrite (take_S_r p' i y Hy) in Hl'.
    apply app_inj_tail in Hl' as [Hl' Hxy]. subst y.
    rewrite (lineage_step _ n' nd q Hwf Hnd Hq), Hl', Hnm.
    rewrite (take_S_r p i x Hpi). f_equal. apply (HA p' p i x); [done|done|congruence|done].
  - rewrite pr2_place_new in Hplace by done. simplify_eq. simpl.
    set (h := pr_heap st) in *. set (nd0 := pr2_fresh st last r x).
    assert (lineage (graft h last nd0) (length h) = take (S i) p) as Hnew.
    { rewrite lineage_graft_new by done. simpl. rewrite Hlin.
      by rewrite (take_S_r p i x Hpi). }
    split; [|done].
    intros n nd Hn Hn0. destruct (decide (n = length h)) as [->|Hne].
    + rewrite graft_lookup_new in Hn. simplify_eq. simpl.
      exists p, i. splits; try done. by eapply lookup_lt_Some.
    + destruct (graft_lookup_old _ _ _ _ _ Hn Hne) as (od & Hod & _ & _ & _ & Hrk & _).
      destruct (Ht n od Hod Hn0) as (p' & i' & ? & ? & Hl' & Hrk').
      exists p', i'. splits; try done; [|congruence].
      rewrite lineage_graft_old; try done. by eapply lookup_lt_Some.
Qed.

(** The walk along a path, from position [i] on. *)
Lemma pr2_insert_from idStart A p : p ∈ A → (length p ≤ length ranks)%nat →
  ∀ k i st last, length p = (i + k)%nat →
    pr2_inv idStart A st → (last < length (pr_heap st))%nat →
    ∀ st' n', foldl pr2_place (st, last) (zip (drop i ranks) (drop i p)) = (st', n') →
      pr2_inv idStart A st' ∧ (n' < length (pr_heap st'))%nat ∧ pr2_grows st st' ∧
      (∀ rx, rx ∈ zip (drop i ranks) (drop i p) →
             is_Some (taxaByNameAndRank st' !! rx)) ∧
      (hierarchical A → pr2_tree A (pr_heap st) →
       lineage (pr_heap st) last = take i p →
       pr2_tree A (pr_heap st') ∧ lineage (pr_heap st') n' = p).
Proof.
  intros HpA Hlen k. induction k as [|k IH]; intros i st last Hik Hb Hlast st' n' Hfold.
  - rewrite (drop_ge p) in Hfold by lia. rewrite zip_with_nil_r in Hfold.
    simpl in Hfold. simplify_eq.
    rewrite (drop_ge p) by lia. rewrite zip_with_nil_r.
    splits; try done.
    + intros rx Hrx. by apply elem_of_nil in Hrx.
    + intros _ Ht Hl. split; [done|]. rewrite Hl. apply take_ge. lia.
  - destruct (lookup_lt_is_Some_2 p i) as [x Hx]; [lia|].
    destruct (lookup_lt_is_Some_2 ranks i) as [r Hr]; [lia|].
    rewrite (drop_S _ _ _ Hx), (drop_S _ _ _ Hr) in Hfold |- *.
    cbn [zip_with foldl] in Hfold.
    destruct (pr2_place (st, last) (r, x)) as [st1 n1] eqn:Hplace.
    pose proof (zip_lookup_elem p i r x Hr Hx) as Hin.
    destruct (pr2_basic_place idStart A st last r x p Hb Hlast HpA Hin st1 n1 Hplace)
      as (Hb1 & Hn1 & _ & Hidx1 & _).
    pose proof (pr2_grows_place _ _ _ _ _ _ _ Hb Hlast Hplace) as Hg1.
    destruct (IH (S i) st1 n1 ltac:(lia) Hb1 Hn1 st' n' Hfold)
      as (Hb' & Hn' & Hg' & Hcov & Htree).
    splits; try done.
    + by eapply pr2_grows_trans.
    + intros rx Hrx. simpl in Hrx. apply elem_of_cons in Hrx as [->|Hrx].
      * exists n1. by apply Hg'.
      * by apply Hcov.
    + intros HA Ht Hl.
      destruct (pr2_tree_place idStart A st last r x p i HA Hb Ht HpA Hx Hr Hlast Hl
                  st1 n1 Hplace) as [Ht1 Hl1].
      by apply Htree.
Qed.
End PR2.

(** ** The loop of buildPR2Tree *)

Section PR2Loop.
Implicit Types (st : pr2_state) (line : string) (p : list string).

Lemma split_on_nonempty sep s : split_on sep s ≠ [].
Proof.
  destruct s as [|c s]; simpl; [done|].
  destruct (ascii_eqb c sep); [done|]. by destruct (split_on sep s).
Qed.

Lemma header_fmt_ok (a b : string) :
  py_format header_fmt [AStr a; AStr b] = Ok (">" +:+ a +:+ " " +:+ b +:+ NL).
Proof. reflexivity. Qed.

Lemma zip_with_take_length {X Y Z : Type} (f : X → Y → Z) (l : list X) (k : list Y) :
  zip_with f l k = zip_with f l (take (length l) k).
Proof.
  revert k. induction l as [|a l IH]; intros [|b k]; simpl; try done.
  by rewrite <- IH.
Qed.

Lemma pr2_insert_ladder st p :
  pr2_insert st p = pr2_insert st (take (length ranks) p).
Proof. unfold pr2_insert. by rewrite (zip_with_take_length pair ranks p). Qed.

Lemma covered_ladder idx p : covered idx (take (length ranks) p) → covered idx p.
Proof. unfold covered. by rewrite <- (zip_with_take_length pair ranks p). Qed.

(** What a header line does, in terms of the insertion of its names. *)
Lemma pr2_line_header fo st line : is_header line = true →
  ∃ hitid st1 n1 out,
    split_on "|" (rstrip ["010"; "013"]%char (drop_first line))
      = hitid :: header_names line ∧
    pr2_insert st (header_names line) = (st1, n1) ∧
    pr2_line fo 0 st line =
      Ok (mkPR2 (pr_heap st1) (taxaByNameAndRank st1) (prTree st1)
                (dict_set (taxMap st) hitid (node_id (obj (pr_heap st1) n1)))
                (nextId st1) out).
Proof.
  intros Hh. unfold pr2_line, header_names. rewrite Hh.
  destruct (split_on "|" (rstrip ["010"; "013"]%char (drop_first line)))
    as [|hitid names] eqn:Hs; [by apply split_on_nonempty in Hs|].
  cbn [tail]. change (foldl pr2_place (st, 0%nat) (zip ranks names))
    with (pr2_insert st names).
  destruct (pr2_insert st names) as [st1 n1] eqn:Hins.
  assert (taxMap st1 = taxMap st ∧ outhandle st1 = outhandle st) as [Htm Hout].
  { clear -Hins. unfold pr2_insert in Hins. revert st1 n1 Hins.
    generalize 0%nat. generalize (zip ranks names).
    intros l. revert st. induction l as [|rx l IH]; intros st n st1 n1 Hf.
    - simpl in Hf. by simplify_eq.
    - cbn [foldl] in Hf. destruct (pr2_place (st, n) rx) as [st2 n2] eqn:Hp.
      destruct (pr2_place_frame (st, n) rx) as [H1 H2]. rewrite Hp in H1, H2.
      simpl in H1, H2. destruct (IH _ _ _ _ Hf) as [-> ->]. done. }
  exists hitid, st1, n1. cbn [pr_heap taxaByNameAndRank prTree taxMap nextId outhandle].
  rewrite Htm. destruct fo.
  - rewrite header_fmt_ok. cbn [mbind result_bind]. eauto.
  - eauto.
Qed.

Lemma pr2_line_other fo st line : is_header line = false →
  ∃ out, pr2_line fo 0 st line =
    Ok (mkPR2 (pr_heap st) (taxaByNameAndRank st) (prTree st) (taxMap st)
              (nextId st) out).
Proof.
  intros Hh. unfold pr2_line. rewrite Hh. destruct fo; [eauto|].
  exists (outhandle st). by destruct st.
Qed.

(** The insertion of one path of [A]. *)
Lemma pr2_insert_inv idStart A st p :
  take (length ranks) p ∈ A → pr2_inv idStart A st →
  ∀ st' n', pr2_insert st p = (st', n') →
    pr2_inv idStart A st' ∧ (n' < length (pr_heap st'))%nat ∧ pr2_grows st st' ∧
    covered (taxaByNameAndRank st') p ∧
    (hierarchical A → pr2_tree A (pr_heap st) →
     pr2_tree A (pr_heap st') ∧
     lineage (pr_heap st') n' = take (length ranks) p).
Proof.
  intros HpA Hb st' n' Hins. rewrite pr2_insert_ladder in Hins.
  set (q := take (length ranks) p) in *.
  assert (length q ≤ length ranks)%nat as Hlen.
  { unfold q. rewrite length_take. lia. }
  assert (0 < length (pr_heap st))%nat as H0.
  { destruct (pb_root _ _ _ _ _ Hb) as (r & Hr & _). by eapply lookup_lt_Some. }
  destruct (pr2_insert_from idStart A q HpA Hlen (length q) 0 st 0 eq_refl Hb H0
              st' n' Hins) as (Hb' & Hn' & Hg & Hcov & Htree).
  splits; try done.
  - by apply covered_ladder.
  - intros HA Ht. apply Htree; try done.
    rewrite take_0. apply lineage_root, (pb_wf _ _ _ _ _ Hb).
Qed.

Lemma pr2_insert_covered st last (pairs : list (string * string)) :
  (∀ rx, rx ∈ pairs → is_Some (taxaByNameAndRank st !! rx)) →
  ∃ n, foldl pr2_place (st, last) pairs = (st, n).
Proof.
  revert last. induction pairs as [|[r x] l IH]; intros last Hcov; simpl.
  - by exists last.
  - destruct (Hcov (r, x)) as [n Hn]; [set_solver|].
    rewrite Hn. apply IH. intros rx Hrx. apply Hcov. set_solver.
Qed.

Lemma pr2_init_inv idStart A : pr2_inv idStart A (pr2_init idStart).1.
Proof.
  unfold pr2_inv. simpl. split.
  - split.
    + eexists. by split.
    + intros [|n] nd Hn Hn0; [done|]. by rewrite lookup_cons, lookup_nil in Hn.
    + intros [|p] pd c Hp Hc; simplify_eq/=. by apply elem_of_nil in Hc.
    + intros [|p] pd Hp; simplify_eq/=. constructor.
  - eexists. by split.
  - intros [|n] nd Hn Hn0; [done|]. by rewrite lookup_cons, lookup_nil in Hn.
  - simpl. lia.
  - intros r x n Hl. by rewrite lookup_empty in Hl.
  - intros [|n] nd Hn Hn0; [done|]. by rewrite lookup_cons, lookup_nil in Hn.
  - intros r x n Hl. by rewrite lookup_empty in Hl.
Qed.

Lemma pr2_init_tree idStart A : pr2_tree A (pr_heap (pr2_init idStart).1).
Proof. intros [|n] nd Hn Hn0; [done|]. simpl in Hn. by rewrite lookup_nil in Hn. Qed.

Lemma pr2_paths_cons line lines :
  pr2_paths (line :: lines) =
    if is_header line then header_names line :: pr2_paths lines
    else pr2_paths lines.
Proof.
  unfold pr2_paths. rewrite filter_cons.
  destruct (is_header line); case_decide; done.
Qed.

Lemma ladder_paths_cons line lines :
  ladder_paths (line :: lines) =
    if is_header line
    then take (length ranks) (header_names line) :: ladder_paths lines
    else ladder_paths lines.
Proof.
  unfold ladder_paths. rewrite pr2_paths_cons. by destruct (is_header line).
Qed.

(** The loop never raises; it keeps the invariant, covers every path it
    has inserted and, when the paths are hierarchical, leaves for each of
    them a node with that lineage. *)
Lemma pr2_lines_inv idStart A fo lines :
  (∀ p, p ∈ ladder_paths lines → p ∈ A) →
  ∀ st, pr2_inv idStart A st →
  ∃ st', foldM (pr2_line fo 0) st lines = Ok st' ∧
    pr2_inv idStart A st' ∧ pr2_grows st st' ∧
    (∀ p, p ∈ pr2_paths lines → covered (taxaByNameAndRank st') p) ∧
    (hierarchical A → pr2_tree A (pr_heap st) →
     pr2_tree A (pr_heap st') ∧
     ∀ p, p ∈ ladder_paths lines →
       ∃ n, (n < length (pr_heap st'))%nat ∧ lineage (pr_heap st') n = p).
Proof.
  induction lines as [|line lines IH]; intros HA st Hb.
  - exists st. simpl. splits; try done.
    + intros p Hp. by apply elem_of_nil in Hp.
    + intros _ Ht. split; [done|]. intros p Hp. by apply elem_of_nil in Hp.
  - cbn [foldM]. rewrite pr2_paths_cons. rewrite ladder_paths_cons in HA |- *.
    destruct (is_header line) eqn:Hh.
    + destruct (pr2_line_header fo st line Hh)
        as (hitid & st1 & n1 & out & Hsplit & Hins & Hline).
      rewrite Hline. cbn [mbind result_bind].
      assert (take (length ranks) (header_names line) ∈ A) as HpA.
      { apply HA. set_solver. }
      destruct (pr2_insert_inv idStart A st _ HpA Hb st1 n1 Hins)
        as (Hb1 & Hn1 & Hg1 & Hcov1 & Htree1).
      set (st2 := mkPR2 _ _ _ _ _ _).
      assert (pr2_inv idStart A st2) as Hb2 by done.
      destruct (IH) with (st := st2) as (st' & Hfold & Hb' & Hg' & Hcov' & Htree'); [|done|].
      { intros p Hp. apply HA. set_solver. }
      assert (pr2_grows st1 st') as Hg1' by done.
      exists st'. splits; try done.
      * by eapply pr2_grows_trans.
      * intros p Hp. apply elem_of_cons in Hp as [->|Hp].
        -- intros rx Hrx. destruct (Hcov1 rx Hrx) as [v Hv].
           exists v. by apply (proj1 Hg1').
        -- by apply Hcov'.
      * intros HAh Ht. destruct (Htree1 HAh Ht) as [Ht1 Hl1].
        destruct (Htree' HAh Ht1) as [Ht' Hl']. split; [done|].
        intros p Hp. apply elem_of_cons in Hp as [->|Hp].
        -- exists n1. destruct Hg1' as [_ [Hlen Hlin]].
           split; [lia|]. rewrite Hlin by done. done.
        -- by apply Hl'.
    + destruct (pr2_line_other fo st line Hh) as (out & Hline).
      rewrite Hline. cbn [mbind result_bind].
      set (st2 := mkPR2 _ _ _ _ _ _).
      assert (pr2_inv idStart A st2) as Hb2 by done.
      destruct (IH HA st2 Hb2) as (st' & Hfold & Hb' & Hg' & Hcov' & Htree').
      exists st'. splits; try done.
Qed.
End PR2Loop.

(** ** The insertion of addToTreeFromString *)

Section Silva.
Implicit Types (h : heap) (n cur : nat) (nm : string).

Lemma find_child_Some h cur nm c : find_child h cur nm = Some c →
  c ∈ node_children (obj h cur) ∧ node_name (obj h c) = nm.
Proof.
  unfold find_child. intros Hh. apply head_Some_elem_of in Hh.
  apply list_elem_of_filter in Hh. by destruct Hh.
Qed.

Lemma find_child_None h cur nm c : find_child h cur nm = None →
  c ∈ node_children (obj h cur) → node_name (obj h c) ≠ nm.
Proof.
  unfold find_child. intros Hh Hc Hnm. apply head_None in Hh.
  exact (filter_nil_not_elem_of _ _ c Hh Hnm Hc).
Qed.

Lemma silva_descend_new h cur nm : find_child h cur nm = None →
  (cur < length h)%nat →
  silva_descend (h, cur) nm = (graft h cur (silva_fresh nm), length h).
Proof.
  intros Hf Hcur. unfold silva_descend. rewrite Hf. unfold new_TaxNode.
  rewrite set_attr_fresh. by rewrite setParent_fresh.
Qed.

Lemma attrs_kept_refl h : attrs_kept h h.
Proof. intros m md Hm. left. by exists md. Qed.

Lemma attrs_kept_trans h1 h2 h3 : (length h1 ≤ length h2)%nat →
  attrs_kept h1 h2 → attrs_kept h2 h3 → attrs_kept h1 h3.
Proof.
  intros Hlen H12 H23 m md3 Hm.
  destruct (H23 m md3 Hm) as [(md2 & Hm2 & Hi & Hr & Hn)|(Hm2 & Hi & Hr & Hn)].
  - destruct (H12 m md2 Hm2) as [(md1 & Hm1 & Hi' & Hr' & Hn')|(Hm1 & Hi' & Hr' & Hn')].
    + left. exists md1. splits; congruence.
    + right. splits; congruence.
  - right. splits; try done. apply lookup_ge_None_2.
    apply lookup_ge_None_1 in Hm2. lia.
Qed.

Lemma attrs_kept_graft h last nm : attrs_kept h (graft h last (silva_fresh nm)).
Proof.
  intros m md' Hm. destruct (decide (m = length h)) as [->|Hne].
  - right. rewrite graft_lookup_new in Hm. simplify_eq.
    split; [by apply lookup_ge_None_2|done].
  - left. destruct (graft_lookup_old _ _ _ _ _ Hm Hne)
      as (od & Hod & _ & _ & Hi & Hr & Hn & _).
    by exists od.
Qed.

Lemma sibling_graft h cur nm : silva_inv h → (cur < length h)%nat →
  find_child h cur nm = None →
  sibling_names_unique (graft h cur (silva_fresh nm)).
Proof.
  intros [Hwf Hsib] Hcur Hnone p pd' c1 c2 d1' d2' Hp Hc1 Hc2 Hd1 Hd2 Hnm.
  assert (p ≠ length h) as Hpne.
  { intros ->. rewrite graft_lookup_new in Hp. simplify_eq.
    by apply elem_of_nil in Hc1. }
  destruct (graft_lookup_old _ _ _ _ _ Hp Hpne) as (pd & Hpd & _ & _ & _ & _ & _ & Hk).
  assert (∀ c d', c ∈ node_children pd → graft h cur (silva_fresh nm) !! c = Some d' →
            ∃ d, h !! c = Some d ∧ node_name d' = node_name d) as Hold.
  { intros c d' Hc Hd'. destruct (wf_child _ Hwf p pd c Hpd Hc) as (cd & Hcd & _).
    destruct (graft_lookup_old_2 h cur (silva_fresh nm) c cd Hcd) as (cd' & ? & Hn & _).
    exists cd. split; [done|]. congruence. }
  assert (∀ c d', p = cur → c ∈ node_children pd →
            graft h cur (silva_fresh nm) !! c = Some d' → node_name d' ≠ nm) as Hfresh.
  { intros c d' -> Hc Hd'. destruct (Hold c d' Hc Hd') as (d & Hd & ->).
    rewrite <- (obj_lookup _ _ _ Hd). apply (find_child_None h cur nm c Hnone).
    by rewrite (obj_lookup _ _ _ Hpd). }
  rewrite Hk in Hc1, Hc2. destruct (decide (p = cur)) as [Hpc|Hpc].
  - subst p. apply elem_of_app in Hc1 as [Hc1|Hc1], Hc2 as [Hc2|Hc2].
    + destruct (Hold c1 d1' Hc1 Hd1) as (d1 & ? & Hn1).
      destruct (Hold c2 d2' Hc2 Hd2) as (d2 & ? & Hn2).
      apply (Hsib cur pd c1 c2 d1 d2); try done. congruence.
    + apply list_elem_of_singleton in Hc2. subst c2.
      rewrite graft_lookup_new in Hd2. simplify_eq. simpl in Hnm.
      by destruct (Hfresh c1 d1' eq_refl Hc1 Hd1).
    + apply list_elem_of_singleton in Hc1. subst c1.
      rewrite graft_lookup_new in Hd1. simplify_eq. simpl in Hnm.
      by destruct (Hfresh c2 d2' eq_refl Hc2 Hd2).
    + apply list_elem_of_singleton in Hc1, Hc2. congruence.
  - destruct (Hold c1 d1' Hc1 Hd1) as (d1 & ? & Hn1).
    destruct (Hold c2 d2' Hc2 Hd2) as (d2 & ? & Hn2).
    apply (Hsib p pd c1 c2 d1 d2); try done. congruence.
Qed.

(** One step of the insertion from a node of the tree. *)
Lemma silva_descend_spec h cur nm : silva_inv h → (cur < length h)%nat →
  ∀ h' n', silva_descend (h, cur) nm = (h', n') →
    silva_inv h' ∧ (n' < length h')%nat ∧ n' ≠ 0%nat ∧
    lineage h' n' = lineage h cur ++ [nm] ∧
    heap_grows h h' ∧ attrs_kept h h' ∧
    (∀ m, (m < length h')%nat → (m < length h)%nat ∨ m = n').
Proof.
  intros Hinv Hcur h' n' Hd. pose proof Hinv as [Hwf Hsib].
  destruct (lookup_lt_is_Some_2 h cur Hcur) as [cd Hcd].
  destruct (find_child h cur nm) as [c|] eqn:Hf.
  - unfold silva_descend in Hd. rewrite Hf in Hd. injection Hd as <- <-.
    apply find_child_Some in Hf as [Hin Hnm].
    rewrite (obj_lookup _ _ _ Hcd) in Hin.
    destruct (wf_child _ Hwf cur cd c Hcd Hin) as (nd & Hnd & Hpar).
    rewrite (obj_lookup _ _ _ Hnd) in Hnm.
    splits; try done.
    + by eapply lookup_lt_Some.
    + intros ->. destruct (wf_root _ Hwf) as (r & Hr & Hrp). congruence.
    + rewrite (lineage_step h c nd cur Hwf Hnd Hpar). by rewrite Hnm.
    + apply attrs_kept_refl.
    + intros m Hm. by left.
  - rewrite silva_descend_new in Hd by done. injection Hd as <- <-.
    splits.
    + split; [by apply wf_graft|by apply sibling_graft].
    + rewrite graft_length. lia.
    + lia.
    + by rewrite lineage_graft_new.
    + by apply heap_grows_graft.
    + apply attrs_kept_graft.
    + intros m Hm. rewrite graft_length in Hm. lia.
Qed.

Lemma nodes_below_descend P h cur nm h' n' : silva_inv h → (cur < length h)%nat →
  silva_descend (h, cur) nm = (h', n') → nodes_below P h →
  is_prefix_of_some P (lineage h cur ++ [nm]) → nodes_below P h'.
Proof.
  intros Hinv Hcur Hd Hb Hpre.
  destruct (silva_descend_spec h cur nm Hinv Hcur h' n' Hd)
    as (_ & _ & _ & Hlin & [Hlen Hg] & Hk & Hnew).
  intros m md' Hm Hm0.
  destruct (Hnew m (lookup_lt_Some _ _ _ Hm)) as [Hold| ->].
  - rewrite Hg by done. destruct (lookup_lt_is_Some_2 h m Hold) as [md Hmd].
    by apply (Hb m md).
  - by rewrite Hlin.
Qed.

(** The walk along a path [p], from position [i] on. *)
Lemma silva_walk P p : p ∈ P →
  ∀ k i h cur, length p = (i + k)%nat → silva_inv h → (cur < length h)%nat →
    lineage h cur = take i p →
    ∀ h' n', foldl silva_descend (h, cur) (drop i p) = (h', n') →
      silva_inv h' ∧ (n' < length h')%nat ∧ lineage h' n' = p ∧
      heap_grows h h' ∧ attrs_kept h h' ∧ (nodes_below P h → nodes_below P h').
Proof.
  intros HpP k. induction k as [|k IH]; intros i h cur Hik Hinv Hcur Hl h' n' Hf.
  - rewrite drop_ge in Hf by lia. simpl in Hf. injection Hf as <- <-.
    splits; try done.
    + rewrite Hl. apply take_ge. lia.
    + apply attrs_kept_refl.
  - destruct (lookup_lt_is_Some_2 p i) as [x Hx]; [lia|].
    rewrite (drop_S _ _ _ Hx) in Hf. cbn [foldl] in Hf.
    destruct (silva_descend (h, cur) x) as [h1 n1] eqn:Hd.
    destruct (silva_descend_spec h cur x Hinv Hcur h1 n1 Hd)
      as (Hinv1 & Hn1 & _ & Hl1 & Hg1 & Hk1 & _).
    rewrite Hl, <- (take_S_r p i x Hx) in Hl1.
    destruct (IH (S i) h1 n1 ltac:(lia) Hinv1 Hn1 Hl1 h' n' Hf)
      as (Hinv' & Hn' & Hl' & Hg' & Hk' & Hb').
    splits; try done.
    + by eapply heap_grows_trans.
    + eapply attrs_kept_trans; [apply Hg1|done|done].
    + intros Hb. apply Hb'.
      eapply (nodes_below_descend P h cur x h1 n1); try done.
      rewrite Hl, <- (take_S_r p i x Hx). split.
      * rewrite (take_S_r p i x Hx). by destruct (take i p).
      * exists p. split; [done|apply prefix_take].
Qed.

Lemma silva_root_inv : silva_inv [silva_fresh "root"].
Proof.
  split; [split|].
  - eexists. by split.
  - intros [|n] nd Hn Hn0; [done|]. simpl in Hn. by rewrite lookup_nil in Hn.
  - intros [|p] pd c Hp Hc; simplify_eq/=. by apply elem_of_nil in Hc.
  - intros [|p] pd Hp; simplify_eq/=. constructor.
  - intros [|p] pd c1 c2 d1 d2 Hp Hc1; simplify_eq/=. by apply elem_of_nil in Hc1.
Qed.

(** The insertion of a lineage string into a table that is empty or a
    tree: the result is a tree, the returned node ends the inserted path,
    and nothing that was there has moved or changed. *)
Lemma addToTreeFromString_spec P s h : silva_path s ∈ P →
  h = [] ∨ silva_inv h →
  ∀ h' n', addToTreeFromString s h = (h', n') →
    silva_inv h' ∧ (n' < length h')%nat ∧ lineage h' n' = silva_path s ∧
    heap_grows h h' ∧ attrs_kept h h' ∧ (nodes_below P h → nodes_below P h').
Proof.
  intros HpP Hh h' n' Hadd. unfold addToTreeFromString in Hadd.
  fold (silva_path s) in Hadd.
  destruct Hh as [->|Hinv].
  - change (set_attr (with_name "root") (new_TaxNode [] IdNone None None).1 0)
      with [silva_fresh "root"] in Hadd.
    destruct (silva_walk P (silva_path s) HpP (length (silva_path s)) 0
                [silva_fresh "root"] 0 eq_refl silva_root_inv) with (h' := h') (n' := n')
      as (Hinv' & Hn' & Hl' & Hg' & Hk' & Hb'); try done.
    { simpl. lia. }
    splits; try done.
    + split; [simpl; lia|]. intros m Hm. simpl in Hm. lia.
    + intros m md' Hm. right. split; [done|].
      destruct (Hk' m md' Hm) as [(md & Hmd & -> & -> & ->)|(_ & ? & ? & ?)]; [|done].
      destruct m as [|m]; simpl in Hmd; [by simplify_eq|by rewrite lookup_nil in Hmd].
    + intros _. apply Hb'. intros [|n] nd Hn Hn0; [done|].
      simpl in Hn. by rewrite lookup_nil in Hn.
  - assert (0 < length h)%nat as H0.
    { destruct (wf_root _ (proj1 Hinv)) as (r & Hr & _). by eapply lookup_lt_Some. }
    assert (match h with [] => set_attr (with_name "root")
                                 (new_TaxNode [] IdNone None None).1 0
                    | _ => h end = h) as Heq.
    { destruct h; [simpl in H0; lia|done]. }
    rewrite Heq in Hadd.
    assert (lineage h 0 = take 0 (silva_path s)) as Hl0.
    { rewrite take_0. apply lineage_root, Hinv. }
    exact (silva_walk P (silva_path s) HpP (length (silva_path s)) 0 h 0 eq_refl
             Hinv H0 Hl0 h' n' Hadd).
Qed.

(** In a tree without equal sibling names a lineage names one node. *)
Lemma silva_lineage_inj h : silva_inv h →
  ∀ n1 n2 d1 d2, h !! n1 = Some d1 → h !! n2 = Some d2 →
    lineage h n1 = lineage h n2 → n1 = n2.
Proof.
  intros [Hwf Hsib] n1. induction n1 as [n1 IH] using lt_wf_ind.
  intros n2 d1 d2 H1 H2 Hl.
  destruct (decide (n1 = 0%nat)) as [->|Hn1], (decide (n2 = 0%nat)) as [->|Hn2];
    try done.
  - rewrite lineage_root in Hl by done. symmetry in Hl.
    by apply (lineage_nonroot h n2 d2 Hwf H2 Hn2) in Hl.
  - rewrite (lineage_root h) in Hl by done.
    by apply (lineage_nonroot h n1 d1 Hwf H1 Hn1) in Hl.
  - destruct (wf_parent _ Hwf n1 d1 H1 Hn1) as (p1 & pd1 & Hp1 & Hlt1 & Hpd1 & Hin1).
    destruct (wf_parent _ Hwf n2 d2 H2 Hn2) as (p2 & pd2 & Hp2 & Hlt2 & Hpd2 & Hin2).
    rewrite (lineage_step h n1 d1 p1 Hwf H1 Hp1) in Hl.
    rewrite (lineage_step h n2 d2 p2 Hwf H2 Hp2) in Hl.
    apply app_inj_tail in Hl as [Hl Hnm].
    assert (p1 = p2) as -> by (by eapply (IH p1 Hlt1 p2 pd1 pd2)).
    assert (pd1 = pd2) as -> by congruence.
    by apply (Hsib p2 pd2 n1 n2 d1 d2).
Qed.
End Silva.

(** ** The phases of buildSilvaTree *)

Section SilvaBuild.
Implicit Types (h : heap) (n : nat).

Lemma foldl_max_spec (l : list Z) (a : Z) :
  (a ≤ foldl Z.max a l)%Z ∧ (∀ x, x ∈ l → (x ≤ foldl Z.max a l)%Z) ∧
  (foldl Z.max a l = a ∨ foldl Z.max a l ∈ l).
Proof.
  revert a. induction l as [|y l IH]; intros a; simpl.
  - splits; [lia| |by left]. intros x Hx. by apply elem_of_nil in Hx.
  - destruct (IH (Z.max a y)) as (Hge & Hall & Hin). splits.
    + lia.
    + intros x Hx. apply elem_of_cons in Hx as [->|Hx]; [lia|by apply Hall].
    + destruct Hin as [Heq|Hin]; [|right; set_solver].
      rewrite Heq. destruct (Z.max_spec a y) as [[_ ->]|[_ ->]]; [|by left].
      right. set_solver.
Qed.

Lemma py_max_spec (l : list Z) (m : Z) :
  py_max l = Ok m → m ∈ l ∧ ∀ x, x ∈ l → (x ≤ m)%Z.
Proof.
  destruct l as [|a l]; simpl; [done|]. intros [= <-].
  destruct (foldl_max_spec l a) as (Hge & Hall & Hin). split.
  - destruct Hin as [->|Hin]; set_solver.
  - intros x Hx. apply elem_of_cons in Hx as [->|Hx]; [done|by apply Hall].
Qed.

Lemma dict_get_elem {K V : Type} `{EqDecision K} (d : list (K * V)) k v :
  dict_get d k = Some v → v ∈ d.*2.
Proof.
  induction d as [|[k' v'] d IH]; simpl; [done|].
  case_decide; [intros [= ->]; set_solver|]. intros H'. set_solver.
Qed.

Lemma set_attr_lookup (f : TaxNode → TaxNode) h n k :
  set_attr f h n !! k = if decide (n = k) then f <$> h !! n else h !! k.
Proof. apply list_lookup_alter. Qed.

Lemma set_attr_length (f : TaxNode → TaxNode) h n :
  length (set_attr f h n) = length h.
Proof. apply length_alter. Qed.

Lemma shape_with_rank r h n : shape (set_attr (with_rank r) h n) = shape h.
Proof. by apply shape_set_attr. Qed.
Lemma shape_with_ncbi t h n : shape (set_attr (with_ncbi_tax_id t) h n) = shape h.
Proof. by apply shape_set_attr. Qed.
Lemma shape_with_id i h n : shape (set_attr (with_id i) h n) = shape h.
Proof. by apply shape_set_attr. Qed.

Lemma sibling_shape h h' : shape h = shape h' →
  sibling_names_unique h → sibling_names_unique h'.
Proof.
  intros Hs Hu p pd' c1 c2 d1' d2' Hp Hc1 Hc2 Hd1 Hd2 Hnm.
  destruct (shape_lookup _ _ _ _ (eq_sym Hs) Hp) as (pd & Hpd & _ & _ & Hk).
  destruct (shape_lookup _ _ _ _ (eq_sym Hs) Hd1) as (d1 & ? & Hn1 & _).
  destruct (shape_lookup _ _ _ _ (eq_sym Hs) Hd2) as (d2 & ? & Hn2 & _).
  apply (Hu p pd c1 c2 d1 d2); try done; congruence.
Qed.

Lemma silva_inv_shape h h' : shape h = shape h' → silva_inv h → silva_inv h'.
Proof.
  intros Hs [Hwf Hu]. split; [by eapply wf_heap_shape|by eapply sibling_shape].
Qed.

Lemma silva_attrs_grow rankMap tm h h' :
  silva_attrs rankMap tm h → heap_grows h h' → attrs_kept h h' →
  silva_attrs rankMap tm h'.
Proof.
  intros Ha [Hlen Hg] Hk n nd' Hn.
  destruct (Hk n nd' Hn) as [(nd & Hnd & Hi & _ & Ht)|(_ & Hi & _ & Ht)].
  - destruct (Ha n nd Hnd) as [Hid Hex]. split; [congruence|].
    intros t Hnc. rewrite Ht in Hnc. destruct (Hex t Hnc) as (l & r & ? & ? & Hl).
    exists l, r. splits; try done. rewrite Hg; [done|]. by eapply lookup_lt_Some.
  - split; [done|]. intros t Hnc. congruence.
Qed.

(** A row of the table. *)
Lemma silva_row_spec rankMap tm h l r : (l, r) ∈ rankMap →
  is_Some (dict_get tm l) →
  h = [] ∨ silva_inv h → silva_attrs rankMap tm h →
  ∃ h' node, silva_row tm h (l, r) = Ok h' ∧ silva_inv h' ∧
    silva_attrs rankMap tm h' ∧
    (addToTreeFromString (strip [";"; " "]%char l) h).2 = node ∧
    (node < length h')%nat ∧
    node_rank (obj h' node) = Some (rankMapping_get r) ∧
    lineage h' node = table_path l.
Proof.
  intros Hin [t Ht] Hh Ha. unfold silva_row. rewrite Ht.
  destruct (addToTreeFromString (strip [";"; " "]%char l) h) as [h1 node] eqn:Hadd.
  destruct (addToTreeFromString_spec [table_path l] _ h
              (proj2 (list_elem_of_singleton _ _) eq_refl) Hh h1 node Hadd)
    as (Hinv1 & Hnode & Hlin & Hg & Hk & _).
  pose proof (silva_attrs_grow _ _ _ _ Ha Hg Hk) as Ha1.
  set (h2 := set_attr (with_rank (Some (rankMapping_get r))) h1 node).
  set (h3 := set_attr (with_ncbi_tax_id (Some t)) h2 node).
  assert (shape h1 = shape h3) as Hs.
  { unfold h3, h2. by rewrite shape_with_ncbi, shape_with_rank. }
  destruct (lookup_lt_is_Some_2 h1 node Hnode) as [nd1 Hnd1].
  assert (h3 !! node = Some (with_ncbi_tax_id (Some t)
            (with_rank (Some (rankMapping_get r)) nd1))) as Hnd3.
  { unfold h3, h2. rewrite !set_attr_lookup, !decide_True by done.
    by rewrite Hnd1. }
  exists h3, node. splits; try done.
  - by eapply silva_inv_shape.
  - intros n nd Hn. rewrite <- (lineage_shape h1 h3 n Hs).
    destruct (decide (node = n)) as [<-|Hne].
    + rewrite Hnd3 in Hn. injection Hn as <-. simpl.
      split; [apply (Ha1 node nd1 Hnd1)|]. intros t' [= <-].
      exists l, r. by splits.
    + unfold h3, h2 in Hn. rewrite !set_attr_lookup, !decide_False in Hn by done.
      by apply Ha1.
  - unfold h3. rewrite set_attr_length. unfold h2. by rewrite set_attr_length.
  - by rewrite (obj_lookup _ _ _ Hnd3).
  - by rewrite <- (lineage_shape h1 h3 node Hs).
Qed.

(** The loop over the table, for rows that all have an id. *)
Lemma silva_rows_spec rankMap tm rows :
  (∀ row, row ∈ rows → row ∈ rankMap) →
  ∀ h h', h = [] ∨ silva_inv h → silva_attrs rankMap tm h →
    foldM (silva_row tm) h rows = Ok h' →
    (h' = [] ∨ silva_inv h') ∧ silva_attrs rankMap tm h' ∧ (rows ≠ [] → h' ≠ []).
Proof.
  induction rows as [|[l r] rows IH]; intros Hsub h h' Hh Ha Hf.
  - simpl in Hf. injection Hf as <-. by splits.
  - cbn [foldM] in Hf.
    destruct (dict_get tm l) as [t|] eqn:Ht.
    + destruct (silva_row_spec rankMap tm h l r) as (h1 & node & Hrow & Hinv1 & Ha1 & _);
        [apply Hsub; set_solver|by eexists|done|done|].
      rewrite Hrow in Hf. cbn [mbind result_bind] in Hf.
      destruct (IH ltac:(intros; apply Hsub; set_solver) h1 h' (or_intror Hinv1) Ha1 Hf)
        as (Hh' & Ha' & Hne).
      splits; try done. intros _.
      destruct Hh' as [->|Hinv']; [|].
      * destruct rows as [|row rows]; [|by apply Hne].
        simpl in Hf. injection Hf as ->.
        destruct (wf_root _ (proj1 Hinv1)) as (? & ? & _). done.
      * destruct (wf_root _ (proj1 Hinv')) as (? & Hr0 & _). by intros ->.
    + unfold silva_row in Hf. destruct (addToTreeFromString _ h).
      rewrite Ht in Hf. done.
Qed.

(** The loop over the fasta records. *)
Lemma silva_records_spec rankMap tm recs :
  ∀ h taxmap h' taxmap', h = [] ∨ silva_inv h → silva_attrs rankMap tm h →
    foldl silva_record (h, taxmap) recs = (h', taxmap') →
    (h' = [] ∨ silva_inv h') ∧ silva_attrs rankMap tm h'.
Proof.
  induction recs as [|[hitid lin] recs IH]; intros h taxmap h' taxmap' Hh Ha Hf.
  - simpl in Hf. injection Hf as <- <-. by split.
  - cbn [foldl] in Hf. unfold silva_record at 2 in Hf.
    destruct (addToTreeFromString lin h) as [h1 node] eqn:Hadd.
    destruct (addToTreeFromString_spec [silva_path lin] _ h
                (proj2 (list_elem_of_singleton _ _) eq_refl) Hh h1 node Hadd)
      as (Hinv1 & Hnode & Hlin & Hg & Hk & _).
    eapply (IH h1 _ h' taxmap' (or_intror Hinv1)); [|exact Hf].
    by eapply silva_attrs_grow.
Qed.

Lemma getRootNode_root h : wf_heap h → getRootNode h 0 = 0%nat.
Proof.
  intros Hwf. destruct (wf_root _ Hwf) as (r & Hr & Hp).
  unfold getRootNode. destruct (length h) as [|f] eqn:Hl; [done|]. simpl.
  by rewrite (obj_lookup _ _ _ Hr), Hp.
Qed.

Lemma same_tree_refl h : same_tree h h.
Proof. split; [done|]. intros k nd Hk. by exists nd. Qed.

Lemma same_tree_trans h1 h2 h3 : same_tree h1 h2 → same_tree h2 h3 → same_tree h1 h3.
Proof.
  intros [Hs1 H1] [Hs2 H2]. split; [congruence|]. intros k nd3 Hk.
  destruct (H2 k nd3 Hk) as (nd2 & Hk2 & ? & ?).
  destruct (H1 k nd2 Hk2) as (nd1 & Hk1 & ? & ?).
  exists nd1. splits; congruence.
Qed.

(** One node of the pass that hands out the missing ids. *)
Lemma silva_fix_id_spec m0 m h n h' m' : fix_inv m0 m h →
  silva_fix_id (h, m) n = (h', m') → fix_inv m0 m' h' ∧ same_tree h h'.
Proof.
  intros (Hm & Hids & Huniq) Hfix. unfold silva_fix_id in Hfix.
  destruct (isinstance_int (node_id (obj h n))) eqn:Hint.
  { injection Hfix as <- <-. split; [done|apply same_tree_refl]. }
  assert (∀ i, same_tree h (set_attr (with_id i) h n)) as Hsame.
  { intros i. split; [apply shape_with_id|]. intros k nd' Hk.
    rewrite set_attr_lookup in Hk. destruct (decide (n = k)) as [<-|Hne]; [|by exists nd'].
    destruct (h !! n) as [nd|]; simplify_eq/=. by exists nd. }
  destruct (h !! n) as [nd|] eqn:Hn.
  - rewrite (obj_lookup _ _ _ Hn) in Hfix, Hint.
    destruct (node_ncbi_tax_id nd) as [t|] eqn:Ht.
    + injection Hfix as <- <-. split; [|apply Hsame]. unfold fix_inv. splits; [done| |].
      * intros k kd Hk. rewrite set_attr_lookup in Hk.
        destruct (decide (n = k)) as [<-|Hne]; [|by apply (Hids k)].
        rewrite Hn in Hk. simplify_eq/=. by left.
      * intros n1 n2 d1 d2 z H1 H2 Hi1 Hi2 Hn1 Hn2.
        rewrite set_attr_lookup in H1, H2. rewrite Hn in H1, H2.
        destruct (decide (n = n1)), (decide (n = n2)); simplify_eq/=.
        by eapply (Huniq n1 n2).
    + injection Hfix as <- <-. split; [|apply Hsame]. unfold fix_inv. splits; [lia| |].
      * intros k kd Hk. rewrite set_attr_lookup in Hk.
        destruct (decide (n = k)) as [<-|Hne].
        -- rewrite Hn in Hk. simplify_eq/=. right. split; [done|lia].
        -- specialize (Hids k kd Hk). destruct (node_id kd); try done.
           destruct Hids as [?|[? ?]]; [by left|right; split; [done|lia]].
      * intros n1 n2 d1 d2 z H1 H2 Hi1 Hi2 Hn1 Hn2.
        rewrite set_attr_lookup in H1, H2. rewrite Hn in H1, H2.
        destruct (decide (n = n1)), (decide (n = n2)); simplify_eq/=; try done.
        -- specialize (Hids n2 d2 H2). rewrite Hi2, Hn2 in Hids.
           destruct Hids as [?|[_ ?]]; [done|lia].
        -- specialize (Hids n1 d1 H1). rewrite Hi1, Hn1 in Hids.
           destruct Hids as [?|[_ ?]]; [done|lia].
        -- by eapply (Huniq n1 n2).
  - assert (obj h n = inhabitant) as Ho.
    { unfold obj. rewrite list_lookup_total_alt, Hn. done. }
    rewrite Ho in Hfix. simpl in Hfix. injection Hfix as <- <-.
    split; [|apply Hsame]. unfold fix_inv. splits; [lia| |].
    + intros k kd Hk. rewrite set_attr_lookup in Hk.
      destruct (decide (n = k)) as [<-|Hne]; [by rewrite Hn in Hk|].
      specialize (Hids k kd Hk). destruct (node_id kd); try done.
      destruct Hids as [?|[? ?]]; [by left|right; split; [done|lia]].
    + intros n1 n2 d1 d2 z H1 H2 Hi1 Hi2 Hn1 Hn2.
      rewrite set_attr_lookup in H1, H2. rewrite Hn in H1, H2.
      destruct (decide (n = n1)), (decide (n = n2)); simplify_eq/=.
      by eapply (Huniq n1 n2).
Qed.

Lemma silva_fix_ids_spec m0 ns : ∀ m h h' m', fix_inv m0 m h →
  foldl silva_fix_id (h, m) ns = (h', m') → fix_inv m0 m' h' ∧ same_tree h h'.
Proof.
  induction ns as [|n ns IH]; intros m h h' m' Hinv Hf.
  - simpl in Hf. injection Hf as <- <-. split; [done|apply same_tree_refl].
  - cbn [foldl] in Hf. destruct (silva_fix_id (h, m) n) as [h1 m1] eqn:Hstep.
    destruct (silva_fix_id_spec _ _ _ _ _ _ Hinv Hstep) as [Hinv1 Hs1].
    destruct (IH _ _ _ _ Hinv1 Hf) as [Hinv' Hs'].
    split; [done|by eapply same_tree_trans].
Qed.

Lemma fix_inv_start rankMap tm m0 h : silva_attrs rankMap tm h → fix_inv m0 m0 h.
Proof.
  intros Ha. unfold fix_inv. splits; [lia| |].
  - intros n nd Hn. by rewrite (proj1 (Ha n nd Hn)).
  - intros n1 n2 d1 d2 z H1 _ Hi1. by rewrite (proj1 (Ha n1 d1 H1)) in Hi1.
Qed.
End SilvaBuild.

(** ** buildPR2Tree: specified properties *)

Section PR2Run.
Implicit Types (st : pr2_state) (line : string) (p q : list string).

Lemma pr2_loop_unfold lines fo idStart :
  pr2_loop lines fo idStart = foldM (pr2_line fo 0) (pr2_init idStart).1 lines.
Proof. reflexivity. Qed.

(** The loop always ends with a state, and the state has the loop
    invariant for the paths of its own input. *)
Lemma pr2_loop_inv lines fo idStart :
  ∃ st, pr2_loop lines fo idStart = Ok st ∧
    pr2_inv idStart (ladder_paths lines) st ∧
    (∀ p, p ∈ pr2_paths lines → covered (taxaByNameAndRank st) p) ∧
    (hierarchical (ladder_paths lines) →
     pr2_tree (ladder_paths lines) (pr_heap st) ∧
     ∀ p, p ∈ ladder_paths lines →
       ∃ n, (n < length (pr_heap st))%nat ∧ lineage (pr_heap st) n = p).
Proof.
  rewrite pr2_loop_unfold.
  destruct (pr2_lines_inv idStart (ladder_paths lines) fo lines (λ p H, H)
              (pr2_init idStart).1 (pr2_init_inv idStart _))
    as (st & Hf & Hb & _ & Hcov & Htree).
  exists st. splits; try done.
  intros HA. apply Htree; [done|]. apply pr2_init_tree.
Qed.

Lemma zip_prefix_elem q p rx : q `prefix_of` p → rx ∈ zip ranks q → rx ∈ zip ranks p.
Proof.
  intros [k ->] Hrx. apply elem_of_lookup_zip_with in Hrx as (i & r & x & -> & Hr & Hx).
  apply (zip_lookup_elem _ i); [done|]. by apply lookup_app_l_Some.
Qed.

Lemma pr2_root_id idStart A st : pr2_inv idStart A st →
  node_id (obj (pr_heap st) 0) = IdStr "root".
Proof.
  intros Hb. destruct (pb_root _ _ _ _ _ Hb) as (r & Hr & Hid).
  by rewrite (obj_lookup _ _ _ Hr).
Qed.

Lemma root_warning_fmt_ok (z : Z) (s : string) :
  py_format root_warning_fmt [AInt z; AStr s] =
    Ok ("There should only be one child of root! Not " +:+ pretty z
          +:+ ":" +:+ NL +:+ s).
Proof.
  rewrite <- (append_empty_r s) at 2. reflexivity.
Qed.

(** What follows the loop, by the number of children of the root. *)
Lemma pr2_finish_spec st :
  pr2_finish st 0 =
    match node_children (obj (pr_heap st) 0) with
    | [] => Raise IndexError
    | [c] => Ok (mkBuilt c (taxMap st) (pr_heap st) [] (outhandle st))
    | c :: rest =>
        Ok (mkBuilt c (taxMap st) (pr_heap st)
                    [Warn (root_warning (pr_heap st) (c :: rest))] (outhandle st))
    end.
Proof.
  unfold pr2_finish, root_warning.
  destruct (node_children (obj (pr_heap st) 0)) as [|c [|c' rest]] eqn:Hk.
  - rewrite bool_decide_true by done. by rewrite root_warning_fmt_ok.
  - by rewrite bool_decide_false by (simpl; lia).
  - rewrite bool_decide_true by done. by rewrite root_warning_fmt_ok.
Qed.

Lemma buildPR2Tree_unfold lines fo idStart st :
  pr2_loop lines fo idStart = Ok st →
  buildPR2Tree lines fo idStart = pr2_finish st 0.
Proof. intros H. unfold buildPR2Tree. by rewrite H. Qed.

(** Lines without lineage names leave the arena as it is. *)
Lemma pr2_lines_no_names fo lines :
  (∀ line, line ∈ lines → is_header line = true → header_names line = []) →
  ∀ st, ∃ st', foldM (pr2_line fo 0) st lines = Ok st' ∧ pr_heap st' = pr_heap st.
Proof.
  induction lines as [|line lines IH]; intros Hall st; [by exists st|].
  cbn [foldM]. destruct (is_header line) eqn:Hh.
  - destruct (pr2_line_header fo st line Hh)
      as (hitid & st1 & n1 & out & _ & Hins & Hline).
    rewrite (Hall line) in Hins by (done || set_solver).
    unfold pr2_insert in Hins. simpl in Hins. injection Hins as <- <-.
    rewrite Hline. cbn [mbind result_bind].
    destruct (IH) with (st := mkPR2 (pr_heap st) (taxaByNameAndRank st) (prTree st)
               (dict_set (taxMap st) hitid (node_id (obj (pr_heap st) 0)))
               (nextId st) out) as (st' & Hf & Hh'); [intros; apply Hall; set_solver|].
    by exists st'.
  - destruct (pr2_line_other fo st line Hh) as (out & Hline).
    rewrite Hline. cbn [mbind result_bind].
    destruct (IH) with (st := mkPR2 (pr_heap st) (taxaByNameAndRank st) (prTree st)
               (taxMap st) (nextId st) out) as (st' & Hf & Hh');
      [intros; apply Hall; set_solver|].
    by exists st'.
Qed.
End PR2Run.

(** C6.  Sequential ids: after any PR2 input, read with any start value
    [idStart] (100 in the specification's example), the node created k-th (it stands at
    position k of the arena, the root at 0) has id [idStart + k], so the
    first one has [idStart + 1]; the counter equals [idStart] plus the
    number of nodes created, and the next node to be created takes the
    next position and the next id; and inserting again a path that was
    inserted, or a prefix of one, returns without touching the state,
    counter included, as does a whole header line with such a path. *)
Theorem pr2_sequential_ids (lines : list string) (fastaout : bool) (idStart : Z) :
  ∃ st, pr2_loop lines fastaout idStart = Ok st ∧
    (∀ k nd, pr_heap st !! k = Some nd → k ≠ 0%nat →
       node_id nd = IdInt (idStart + Z.of_nat k)) ∧
    nextId st = (idStart + Z.of_nat (length (pr_heap st) - 1))%Z ∧
    (∀ last r x, taxaByNameAndRank st !! (r, x) = None →
       (last < length (pr_heap st))%nat →
       ∃ st', pr2_place (st, last) (r, x) = (st', length (pr_heap st)) ∧
              length (pr_heap st') = S (length (pr_heap st)) ∧
              node_id (obj (pr_heap st') (length (pr_heap st)))
                = IdInt (idStart + Z.of_nat (length (pr_heap st))) ∧
              nextId st' = (nextId st + 1)%Z) ∧
    (∀ p q, p ∈ pr2_paths lines → q `prefix_of` p →
       ∃ n, pr2_insert st q = (st, n)) ∧
    (∀ line p, is_header line = true → p ∈ pr2_paths lines →
       header_names line `prefix_of` p →
       ∃ st', pr2_line fastaout 0 st line = Ok st' ∧
              pr_heap st' = pr_heap st ∧ nextId st' = nextId st ∧
              taxaByNameAndRank st' = taxaByNameAndRank st).
Proof.
  destruct (pr2_loop_inv lines fastaout idStart) as (st & Hloop & Hb & Hcov & _).
  assert (∀ p q, p ∈ pr2_paths lines → q `prefix_of` p →
            ∃ n, pr2_insert st q = (st, n)) as Hre.
  { intros p q Hp Hq. apply pr2_insert_covered. intros rx Hrx.
    apply (Hcov p Hp). by eapply zip_prefix_elem. }
  assert (0 < length (pr_heap st))%nat as Hlen.
  { destruct (pb_root _ _ _ _ _ Hb) as (r & Hr & _). by eapply lookup_lt_Some. }
  exists st. splits; try done.
  - by apply (pb_ids _ _ _ _ _ Hb).
  - rewrite (pb_next _ _ _ _ _ Hb). lia.
  - intros last r x Hnone Hlast. eexists. split; [by apply pr2_place_new|].
    cbn [pr_heap nextId]. splits; try done.
    + apply graft_length.
    + rewrite (obj_lookup _ _ _ (graft_lookup_new _ _ _)). simpl.
      rewrite (pb_next _ _ _ _ _ Hb). f_equal. lia.
  - intros line p Hh Hp Hq.
    destruct (pr2_line_header fastaout st line Hh)
      as (hitid & st1 & n1 & out & _ & Hins & Hline).
    destruct (Hre p _ Hp Hq) as (n & Hn). rewrite Hn in Hins.
    injection Hins as <- <-. rewrite Hline. eexists. split; [reflexivity|]. done.
Qed.

(** C9.  An empty path: a header line that carries a record id and no
    lineage name leaves every node, the index and the counter as they were,
    its walk ends on the synthetic root, and the record is mapped to the
    root's id, the string ['root']. *)
Theorem pr2_empty_path_is_root (lines : list string) (fastaout : bool) (idStart : Z)
    (st : pr2_state) (line : string) :
  pr2_loop lines fastaout idStart = Ok st →
  is_header line = true → header_names line = [] →
  ∃ hitid st',
    split_on "|" (rstrip ["010"; "013"]%char (drop_first line)) = [hitid] ∧
    pr2_insert st (header_names line) = (st, 0%nat) ∧
    pr2_loop (lines ++ [line]) fastaout idStart = Ok st' ∧
    pr_heap st' = pr_heap st ∧
    taxaByNameAndRank st' = taxaByNameAndRank st ∧
    nextId st' = nextId st ∧
    node_id (obj (pr_heap st) 0) = IdStr "root" ∧
    taxMap st' = dict_set (taxMap st) hitid (IdStr "root").
Proof.
  intros Hloop Hh Hnames.
  destruct (pr2_loop_inv lines fastaout idStart) as (st0 & Hloop0 & Hb & _).
  assert (st0 = st) as -> by congruence.
  destruct (pr2_line_header fastaout st line Hh)
    as (hitid & st1 & n1 & out & Hsplit & Hins & Hline).
  rewrite Hnames in Hsplit, Hins |- *. unfold pr2_insert in Hins. simpl in Hins.
  injection Hins as <- <-.
  pose proof (pr2_root_id _ _ _ Hb) as Hroot. rewrite Hroot in Hline.
  exists hitid.
  exists (mkPR2 (pr_heap st) (taxaByNameAndRank st) (prTree st)
                (dict_set (taxMap st) hitid (IdStr "root")) (nextId st) out).
  splits; try done.
  rewrite pr2_loop_unfold, foldM_app. rewrite <- pr2_loop_unfold, Hloop.
  cbn [mbind result_bind foldM]. by rewrite Hline.
Qed.

Lemma pr2_empty_path_is_root_witness :
  ∃ st hitid st',
    pr2_loop ex_pr2_lines false 100 = Ok st ∧
    is_header ex_pr2_bare = true ∧ header_names ex_pr2_bare = [] ∧
    pr2_loop (ex_pr2_lines ++ [ex_pr2_bare]) false 100 = Ok st' ∧
    pr_heap st' = pr_heap st ∧ nextId st' = nextId st ∧
    taxMap st' = dict_set (taxMap st) hitid (IdStr "root").
Proof.
  eexists.
  assert (pr2_loop ex_pr2_lines false 100 = Ok _) as Hloop by (vm_compute; reflexivity).
  destruct (pr2_empty_path_is_root ex_pr2_lines false 100 _ ex_pr2_bare
              Hloop eq_refl eq_refl)
    as (hitid & st' & _ & _ & Hl & Hh & _ & Hn & _ & Htm).
  exists hitid, st'. by splits.
Defined.

(** C10.  The unguarded empty root: when no header line of the fasta
    carries a lineage name (an empty file included), the loop ends with a
    root that has no child, and taking its first child raises IndexError,
    so that [buildPR2Tree] returns no (root, map) pair. *)
Theorem pr2_no_names_IndexError (lines : list string) (fastaout : bool) (idStart : Z) :
  (∀ line, line ∈ lines → is_header line = true → header_names line = []) →
  ∃ st, pr2_loop lines fastaout idStart = Ok st ∧
        node_children (obj (pr_heap st) 0) = [] ∧
        buildPR2Tree lines fastaout idStart = Raise IndexError.
Proof.
  intros Hall.
  destruct (pr2_lines_no_names fastaout lines Hall (pr2_init idStart).1)
    as (st & Hf & Hh).
  rewrite <- pr2_loop_unfold in Hf. exists st.
  assert (node_children (obj (pr_heap st) 0) = []) as Hk by (by rewrite Hh).
  splits; try done.
  rewrite (buildPR2Tree_unfold _ _ _ _ Hf), pr2_finish_spec. by rewrite Hk.
Qed.

Lemma pr2_no_names_IndexError_witness :
  (∀ line, line ∈ [ex_pr2_bare; "ACGT" +:+ NL] → is_header line = true →
           header_names line = []) ∧
  buildPR2Tree [ex_pr2_bare; "ACGT" +:+ NL] true 0 = Raise IndexError.
Proof.
  assert (∀ line, line ∈ [ex_pr2_bare; "ACGT" +:+ NL] → is_header line = true →
                  header_names line = []) as Hall.
  { intros line Hin Hh. apply elem_of_cons in Hin as [->|Hin]; [reflexivity|].
    apply list_elem_of_singleton in Hin. subst line. discriminate Hh. }
  split; [exact Hall|].
  destruct (pr2_no_names_IndexError [ex_pr2_bare; "ACGT" +:+ NL] true 0 Hall)
    as (st & _ & _ & Hb).
  exact Hb.
Defined.

(** ** buildSilvaTree: specified properties *)

Section SilvaRun.
Implicit Types (h : heap) (b : built).

(** What a run of [buildSilvaTree] that returns has gone through. *)
Lemma buildSilvaTree_spec rankMap tm fasta b :
  buildSilvaTree rankMap tm fasta = Ok b →
  ∃ maxTaxid h2 m',
    py_max (tm.*2) = Ok maxTaxid ∧ silva_inv h2 ∧ silva_attrs rankMap tm h2 ∧
    same_tree h2 (b_heap b) ∧ fix_inv maxTaxid m' (b_heap b) ∧
    b_root b = 0%nat ∧ b_log b = [] ∧
    (getOrgsFromSilvaFasta fasta).2 = None.
Proof.
  unfold buildSilvaTree. intros Hb.
  apply bind_Ok_inv in Hb as (maxTaxid & Hmax & Hb).
  apply bind_Ok_inv in Hb as (h1 & Hrows & Hb).
  destruct (getOrgsFromSilvaFasta fasta) as [recs exn] eqn:Hrecs.
  destruct (foldl silva_record (h1, []) recs) as [h2 taxmap] eqn:Hfold.
  destruct exn as [e|]; [done|].
  destruct h2 as [|nd0 h2']; [done|]. set (h2 := nd0 :: h2') in *.
  destruct (silva_rows_spec rankMap tm rankMap (λ row H, H) [] h1
              (or_introl eq_refl)) as (Hh1 & Ha1 & _); [|done|].
  { intros n nd Hn. by rewrite lookup_nil in Hn. }
  destruct (silva_records_spec rankMap tm recs h1 [] h2 taxmap Hh1 Ha1 Hfold)
    as [[Hnil|Hinv2] Ha2]; [done|].
  rewrite (getRootNode_root h2 (proj1 Hinv2)) in Hb.
  destruct (foldl silva_fix_id (h2, maxTaxid) (treeGenerator h2 0)) as [h3 m'] eqn:Hfix.
  injection Hb as <-. simpl.
  destruct (silva_fix_ids_spec maxTaxid _ maxTaxid h2 h3 m'
              (fix_inv_start rankMap tm maxTaxid h2 Ha2) Hfix) as [Hinv3 Hsame].
  exists maxTaxid, h2, m'. by splits.
Qed.

Lemma same_tree_lineage h h' n : same_tree h h' → lineage h' n = lineage h n.
Proof. intros [Hs _]. by apply lineage_shape. Qed.

(** A header that does not unpack ends the generator with ValueError. *)
Lemma getOrgs_malformed lines line : line ∈ lines → is_header line = true →
  length (split_ws_1 (strip whitespace (drop_first line))) ≠ 2%nat →
  (getOrgsFromSilvaFasta lines).2 = Some ValueError.
Proof.
  intros Hin Hh Hlen. induction lines as [|l lines IH]; [by apply elem_of_nil in Hin|].
  simpl. destruct (is_header l) eqn:Hl.
  - destruct (split_ws_1 (strip whitespace (drop_first l))) as [|r [|d [|x xs]]] eqn:Hs;
      try done.
    destruct (getOrgsFromSilvaFasta lines) as [ys e] eqn:Hrest. simpl.
    apply elem_of_cons in Hin as [->|Hin]; [by rewrite Hs in Hlen|].
    by apply IH.
  - apply elem_of_cons in Hin as [->|Hin]; [congruence|]. by apply IH.
Qed.

Lemma getOrgs_skip pre line post : is_header line = false →
  getOrgsFromSilvaFasta (pre ++ line :: post) = getOrgsFromSilvaFasta (pre ++ post).
Proof.
  intros Hh. induction pre as [|l pre IH]; simpl; [by rewrite Hh|].
  by rewrite IH.
Qed.
End SilvaRun.

(** C5 (as amended).  The generator of fasta records passes over a line
    that is not a header without a word, and the lines around it are read
    as if it were not there; a header that does not split into a record id
    and a description is not skipped: the unpacking raises ValueError,
    nothing catches it, and [buildSilvaTree] returns nothing, whatever the
    other lines are. *)
Theorem silva_malformed_header_raises (rankMap : list (string * string))
    (silvaTaxidMap : list (string * Z)) (lines : list string) (line : string) :
  line ∈ lines → is_header line = true →
  length (split_ws_1 (strip whitespace (drop_first line))) ≠ 2%nat →
  (getOrgsFromSilvaFasta lines).2 = Some ValueError ∧
  (∃ e, buildSilvaTree rankMap silvaTaxidMap lines = Raise e) ∧
  (∀ m h1, py_max (silvaTaxidMap.*2) = Ok m →
           foldM (silva_row silvaTaxidMap) [] rankMap = Ok h1 →
           buildSilvaTree rankMap silvaTaxidMap lines = Raise ValueError) ∧
  (∀ pre other post, is_header other = false →
     getOrgsFromSilvaFasta (pre ++ other :: post) = getOrgsFromSilvaFasta (pre ++ post)).
Proof.
  intros Hin Hh Hlen.
  pose proof (getOrgs_malformed lines line Hin Hh Hlen) as Hgen.
  assert (∀ m h1, py_max (silvaTaxidMap.*2) = Ok m →
           foldM (silva_row silvaTaxidMap) [] rankMap = Ok h1 →
           buildSilvaTree rankMap silvaTaxidMap lines = Raise ValueError) as Hrun.
  { intros m h1 Hm Hrows. unfold buildSilvaTree. rewrite Hm. cbn [mbind result_bind].
    rewrite Hrows. cbn [mbind result_bind].
    destruct (getOrgsFromSilvaFasta lines) as [recs exn]. simpl in Hgen. subst exn.
    by destruct (foldl silva_record (h1, []) recs). }
  splits; try done.
  - destruct (buildSilvaTree rankMap silvaTaxidMap lines) as [b|e] eqn:Hb; [|by exists e].
    apply buildSilvaTree_spec in Hb as (? & ? & ? & _ & _ & _ & _ & _ & _ & _ & Hnone).
    congruence.
  - intros pre other post Ho. by apply getOrgs_skip.
Qed.

Lemma silva_malformed_header_raises_witness :
  buildSilvaTree ex_rankMap ex_taxids ex_fasta_bad = Raise ValueError.
Proof.
  destruct (silva_malformed_header_raises ex_rankMap ex_taxids ex_fasta_bad (">s0" +:+ NL))
    as (_ & _ & Hrun & _).
  - apply list_elem_of_here.
  - reflexivity.
  - vm_compute. discriminate.
  - eapply Hrun; vm_compute; reflexivity.
Defined.

(** C5, as stated, fails: the header [>s0] has no description, and the run
    over the sample fasta ends in ValueError although the line after it is
    well formed.  Without the bad line the same run returns. *)
Lemma silva_malformed_header_not_skipped :
  buildSilvaTree ex_rankMap ex_taxids ex_fasta_bad = Raise ValueError ∧
  (∃ b, buildSilvaTree ex_rankMap ex_taxids (tail ex_fasta_bad) = Ok b).
Proof. split; [by vm_compute|]. eexists. vm_compute. reflexivity. Qed.

(** C2 (as amended).  The mark of the fallback ids starts from the maximum
    of the ids of the table, taken before the tree is built.  After a run
    that returns, a node with an integer id either carries a Silva id and
    has exactly that id, one of the table, or carries none and has an id
    above the maximum, hence above every id of the table.  No id is on two
    nodes provided the table gives no id to two taxa. *)
Theorem silva_fallback_ids (rankMap : list (string * string))
    (silvaTaxidMap : list (string * Z)) (fastaLines : list string) (b : built) :
  buildSilvaTree rankMap silvaTaxidMap fastaLines = Ok b →
  ∃ maxTaxid,
    py_max (silvaTaxidMap.*2) = Ok maxTaxid ∧ maxTaxid ∈ silvaTaxidMap.*2 ∧
    (∀ t, t ∈ silvaTaxidMap.*2 → (t ≤ maxTaxid)%Z) ∧
    (∀ n nd z, b_heap b !! n = Some nd → node_id nd = IdInt z →
       (node_ncbi_tax_id nd = Some z ∧ z ∈ silvaTaxidMap.*2) ∨
       (node_ncbi_tax_id nd = None ∧ (maxTaxid < z)%Z ∧
        ∀ t, t ∈ silvaTaxidMap.*2 → (t < z)%Z)) ∧
    (ids_name_one_taxon rankMap silvaTaxidMap →
     ∀ n1 n2 d1 d2 z, b_heap b !! n1 = Some d1 → b_heap b !! n2 = Some d2 →
       node_id d1 = IdInt z → node_id d2 = IdInt z → n1 = n2).
Proof.
  intros Hb.
  destruct (buildSilvaTree_spec _ _ _ _ Hb)
    as (maxTaxid & h2 & m' & Hmax & Hinv2 & Ha2 & Hsame & (Hm & Hids & Huniq) & _).
  destruct (py_max_spec _ _ Hmax) as [Hin Hle].
  assert (∀ n nd z, b_heap b !! n = Some nd → node_ncbi_tax_id nd = Some z →
            ∃ l r, (l, r) ∈ rankMap ∧ dict_get silvaTaxidMap l = Some z ∧
                   lineage h2 n = table_path l) as Hext.
  { intros n nd z Hn Hnc. destruct (proj2 Hsame n nd Hn) as (nd2 & Hn2 & Hnc2 & _).
    apply (proj2 (Ha2 n nd2 Hn2)). congruence. }
  assert (∀ n nd z, b_heap b !! n = Some nd → node_id nd = IdInt z →
            (node_ncbi_tax_id nd = Some z ∧ z ∈ silvaTaxidMap.*2) ∨
            (node_ncbi_tax_id nd = None ∧ (maxTaxid < z)%Z ∧
             ∀ t, t ∈ silvaTaxidMap.*2 → (t < z)%Z)) as Hcase.
  { intros n nd z Hn Hid. specialize (Hids n nd Hn). rewrite Hid in Hids.
    destruct Hids as [Hnc|[Hnc Hz]].
    - left. split; [done|]. destruct (Hext n nd z Hn Hnc) as (l & r & _ & Hget & _).
      by eapply dict_get_elem.
    - right. splits; [done|lia|]. intros t Ht. specialize (Hle t Ht). lia. }
  exists maxTaxid. splits; try done.
  intros Hone n1 n2 d1 d2 z H1 H2 Hi1 Hi2.
  destruct (Hcase n1 d1 z H1 Hi1) as [[Hn1 Hz1]|(Hn1 & Hz1 & _)],
           (Hcase n2 d2 z H2 Hi2) as [[Hn2 Hz2]|(Hn2 & Hz2 & _)].
  - destruct (Hext n1 d1 z H1 Hn1) as (l1 & r1 & Hr1 & Hg1 & Hl1).
    destruct (Hext n2 d2 z H2 Hn2) as (l2 & r2 & Hr2 & Hg2 & Hl2).
    destruct (proj2 Hsame n1 d1 H1) as (e1 & He1 & _).
    destruct (proj2 Hsame n2 d2 H2) as (e2 & He2 & _).
    apply (silva_lineage_inj h2 Hinv2 n1 n2 e1 e2 He1 He2).
    rewrite Hl1, Hl2. by apply (Hone l1 r1 l2 r2 z).
  - specialize (Hle z Hz1). lia.
  - specialize (Hle z Hz2). lia.
  - by apply (Huniq n1 n2 d1 d2 z).
Qed.

Lemma ex_table_one_taxon_per_id : ids_name_one_taxon ex_rankMap ex_taxids.
Proof.
  intros l1 r1 l2 r2 t H1 H2 Hg1 Hg2.
  repeat (apply elem_of_cons in H1 as [H1|H1]; [injection H1 as -> ->|]);
    [| | |by apply elem_of_nil in H1];
    (repeat (apply elem_of_cons in H2 as [H2|H2]; [injection H2 as -> ->|]);
     [| | |by apply elem_of_nil in H2]);
    vm_compute in Hg1, Hg2; congruence.
Defined.

Lemma silva_fallback_ids_witness :
  ∃ b, buildSilvaTree ex_rankMap ex_taxids ex_fasta = Ok b ∧
       py_max (ex_taxids.*2) = Ok 12%Z ∧
       (∀ n nd z, b_heap b !! n = Some nd → node_id nd = IdInt z →
          node_ncbi_tax_id nd = None → (12 < z)%Z) ∧
       (∀ n1 n2 d1 d2 z, b_heap b !! n1 = Some d1 → b_heap b !! n2 = Some d2 →
          node_id d1 = IdInt z → node_id d2 = IdInt z → n1 = n2).
Proof.
  eexists.
  assert (buildSilvaTree ex_rankMap ex_taxids ex_fasta = Ok _) as Hb
    by (vm_compute; reflexivity).
  split; [exact Hb|].
  destruct (silva_fallback_ids _ _ _ _ Hb) as (m & Hm & _ & _ & Hcase & Huniq).
  assert (m = 12%Z) as -> by (vm_compute in Hm; congruence).
  split; [exact Hm|]. split.
  - intros n nd z Hn Hid Hnc. destruct (Hcase n nd z Hn Hid) as [[? _]|(_ & ? & _)];
      [congruence|done].
  - exact (Huniq ex_table_one_taxon_per_id).
Defined.

(** C2, as stated, fails where it says that no id is on two nodes: the
    table may give one id to two taxa, and both nodes then carry it. *)
Lemma silva_table_id_on_two_nodes :
  ∃ b, buildSilvaTree ex_rankMap ex_taxids_twice ex_fasta = Ok b ∧
       node_id (obj (b_heap b) 1) = IdInt 5 ∧ node_id (obj (b_heap b) 3) = IdInt 5 ∧
       node_name (obj (b_heap b) 1) = "Bacteria" ∧
       node_name (obj (b_heap b) 3) = "Archaea".
Proof. eexists. split; [vm_compute; reflexivity|]. by vm_compute. Qed.

Lemma silva_row_rank tm h l r t : h = [] ∨ silva_inv h → dict_get tm l = Some t →
  ∃ h' node, silva_row tm h (l, r) = Ok h' ∧ (node < length h')%nat ∧
    lineage h' node = table_path l ∧
    node_rank (obj h' node) = Some (rankMapping_get r) ∧
    node_ncbi_tax_id (obj h' node) = Some t.
Proof.
  intros Hh Ht. unfold silva_row. rewrite Ht.
  destruct (addToTreeFromString (strip [";"; " "]%char l) h) as [h1 node] eqn:Hadd.
  destruct (addToTreeFromString_spec [table_path l] _ h
              (proj2 (list_elem_of_singleton _ _) eq_refl) Hh h1 node Hadd)
    as (Hinv1 & Hnode & Hlin & _).
  destruct (lookup_lt_is_Some_2 h1 node Hnode) as [nd1 Hnd1].
  eexists _, node. split; [done|].
  assert (set_attr (with_ncbi_tax_id (Some t))
            (set_attr (with_rank (Some (rankMapping_get r))) h1 node) node !! node
          = Some (with_ncbi_tax_id (Some t) (with_rank (Some (rankMapping_get r)) nd1)))
    as Hnd3.
  { rewrite !set_attr_lookup, !decide_True by done. by rewrite Hnd1. }
  splits.
  - by rewrite !set_attr_length.
  - unfold table_path. rewrite <- Hlin. symmetry. apply lineage_shape.
    by rewrite shape_with_ncbi, shape_with_rank.
  - by rewrite (obj_lookup _ _ _ Hnd3).
  - by rewrite (obj_lookup _ _ _ Hnd3).
Qed.

(** C3, as stated, fails: in the sample table "Bacteria" has the rank
    "superkingdom", and its line in the nodes dump carries the alias. *)
Lemma silva_superkingdom_not_restored :
  ∃ b nodes names tm,
    buildSilvaTree ex_rankMap ex_taxids ex_fasta = Ok b ∧
    write_outputs ex_vocabulary b = Ok (nodes, names, tm) ∧
    node_name (obj (b_heap b) 1) = "Bacteria" ∧
    nodes !! 1%nat = Some (nodes_line (IdInt 5) (IdInt 13) "major_clade") ∧
    nodes !! 1%nat ≠ Some (nodes_line (IdInt 5) (IdInt 13) "superkingdom").
Proof.
  eexists _, _, _, _. split; [vm_compute; reflexivity|].
  split; [vm_compute; reflexivity|]. by vm_compute.
Qed.

(** C4 (as amended).  The loop of [buildPR2Tree] always ends, and when the
    synthetic root then has a child the function returns the first one as
    the reported root, with the warning in the log exactly when there are
    more.  [buildSilvaTree] has no such step: what it reports, when it
    returns, is the synthetic root itself, the node without a parent that
    is nobody's child, and it logs nothing about the number of children. *)
Theorem reported_root :
  (∀ lines fastaout idStart,
     ∃ st, pr2_loop lines fastaout idStart = Ok st ∧
       ∀ c rest, node_children (obj (pr_heap st) 0) = c :: rest →
         buildPR2Tree lines fastaout idStart =
           Ok (mkBuilt c (taxMap st) (pr_heap st)
                 (if decide (rest = []) then []
                  else [Warn (root_warning (pr_heap st) (c :: rest))])
                 (outhandle st))) ∧
  (∀ rankMap silvaTaxidMap fastaLines b,
     buildSilvaTree rankMap silvaTaxidMap fastaLines = Ok b →
     b_root b = 0%nat ∧ node_parent (obj (b_heap b) 0) = None ∧
     (∀ p pd, b_heap b !! p = Some pd → 0%nat ∉ node_children pd) ∧
     b_log b = []).
Proof.
  split.
  - intros lines fastaout idStart.
    destruct (pr2_loop_inv lines fastaout idStart) as (st & Hloop & _).
    exists st. split; [done|]. intros c rest Hk.
    rewrite (buildPR2Tree_unfold _ _ _ _ Hloop), pr2_finish_spec, Hk.
    by destruct rest.
  - intros rankMap silvaTaxidMap fastaLines b Hb.
    destruct (buildSilvaTree_spec _ _ _ _ Hb)
      as (m & h2 & m' & _ & [Hwf2 _] & _ & [Hs _] & _ & Hroot & Hlog & _).
    assert (wf_heap (b_heap b)) as Hwf by (by eapply wf_heap_shape).
    destruct (wf_root _ Hwf) as (r & Hr & Hp).
    splits; try done.
    + by rewrite (obj_lookup _ _ _ Hr).
    + intros p pd Hpd Hin. destruct (wf_child _ Hwf p pd 0%nat Hpd Hin) as (cd & Hcd & Hcp).
      congruence.
Qed.

Lemma reported_root_witness :
  (∃ b, buildPR2Tree ex_pr2_lines false 0 = Ok b ∧ b_root b = 1%nat ∧ b_log b = []) ∧
  (∃ b, buildSilvaTree ex_rankMap ex_taxids ex_fasta = Ok b ∧ b_root b = 0%nat).
Proof.
  destruct reported_root as [Hpr2 Hsilva]. split.
  - destruct (Hpr2 ex_pr2_lines false 0%Z) as (st & Hloop & Hfin).
    assert (node_children (obj (pr_heap st) 0) = [1%nat]) as Hk.
    { vm_compute in Hloop. injection Hloop as <-. reflexivity. }
    eexists. split; [exact (Hfin _ _ Hk)|]. by split.
  - eexists.
    assert (buildSilvaTree ex_rankMap ex_taxids ex_fasta = Ok _) as Hb
      by (vm_compute; reflexivity).
    split; [exact Hb|]. apply (Hsilva _ _ _ _ Hb).
Defined.

(** C4, as stated, fails for the rank-table mode: on the sample the
    synthetic root has two children, and what is reported is neither of
    them but the root itself, without a warning. *)
Lemma silva_reports_synthetic_root :
  ∃ b, buildSilvaTree ex_rankMap ex_taxids ex_fasta = Ok b ∧
       node_parent (obj (b_heap b) 0) = None ∧
       node_children (obj (b_heap b) 0) = [1%nat; 3%nat] ∧
       b_root b = 0%nat ∧ (b_root b ∉ node_children (obj (b_heap b) 0)) ∧
       b_log b = [].
Proof.
  eexists. split; [vm_compute; reflexivity|]. simpl. splits; try done.
  intros Hin. apply elem_of_cons in Hin as [?|Hin]; [done|].
  apply elem_of_cons in Hin as [?|Hin]; [done|]. by apply elem_of_nil in Hin.
Qed.

(** ** writeDumpFiles *)

Section DumpProps.
Variable taxon_ranks : list string.
Implicit Types (h : heap) (n root : nat).

Lemma nodes_fmt_ok (i p : pyid) (r : string) :
  py_format nodes_fmt [AId i; AId p; AStr r] = Ok (nodes_line i p r).
Proof. reflexivity. Qed.

Lemma names_fmt_ok (i : pyid) (nm : string) :
  py_format names_fmt [AId i; AStr nm] = Ok (names_line i nm).
Proof. reflexivity. Qed.

Lemma taxmap_fmt_ok (k : string) (v : pyid) :
  py_format taxmap_fmt [AStr k; AId v] = Ok (taxmap_line k v).
Proof. reflexivity. Qed.

Lemma dump_node_spec h root n :
  dump_node taxon_ranks h root n =
    (pid ← dump_parent h root n;
     Ok (nodes_line (node_id (obj h n)) pid (dump_rank taxon_ranks (node_rank (obj h n))),
         names_line (node_id (obj h n)) (node_name (obj h n)))).
Proof.
  unfold dump_node. destruct (dump_parent h root n) as [pid|e]; [|done].
  cbn [mbind result_bind]. by rewrite nodes_fmt_ok, names_fmt_ok.
Qed.

(** The loop of the writer appends one line per visited node to each
    stream, as long as every parent can be read. *)
Lemma dump_fold h root (l : list nat) :
  ∀ acc ns ms,
    foldM (λ (acc : list string * list string) node,
             ls ← dump_node taxon_ranks h root node;
             Ok (acc.1 ++ [ls.1], acc.2 ++ [ls.2])) acc l = Ok (ns, ms) →
    ∃ ns' ms', ns = acc.1 ++ ns' ∧ ms = acc.2 ++ ms' ∧
      Forall2 (λ n ln, ∃ pid, dump_parent h root n = Ok pid ∧
                 ln = nodes_line (node_id (obj h n)) pid
                        (dump_rank taxon_ranks (node_rank (obj h n)))) l ns' ∧
      Forall2 (λ n ln, ln = names_line (node_id (obj h n)) (node_name (obj h n))) l ms'.
Proof.
  induction l as [|n l IH]; intros acc ns ms Hf.
  - simpl in Hf. injection Hf as ->. exists [], []. rewrite !app_nil_r.
    by splits.
  - cbn [foldM] in Hf. rewrite dump_node_spec in Hf.
    destruct (dump_parent h root n) as [pid|e] eqn:Hp; [|done].
    cbn [mbind result_bind fst snd] in Hf.
    destruct (IH _ _ _ Hf) as (ns' & ms' & -> & -> & Hn & Hm).
    eexists (_ :: ns'), (_ :: ms'). cbn [fst snd]. rewrite <- !app_assoc.
    splits; try done.
    + constructor; [|done]. by exists pid.
    + by constructor.
Qed.

Lemma dump_fold_ok h root (l : list nat) :
  (∀ n, n ∈ l → ∃ pid, dump_parent h root n = Ok pid) →
  ∀ acc, ∃ out,
    foldM (λ (acc : list string * list string) node,
             ls ← dump_node taxon_ranks h root node;
             Ok (acc.1 ++ [ls.1], acc.2 ++ [ls.2])) acc l = Ok out.
Proof.
  induction l as [|n l IH]; intros Hall acc; [by eexists|].
  cbn [foldM]. rewrite dump_node_spec.
  destruct (Hall n) as [pid ->]; [set_solver|]. cbn [mbind result_bind].
  apply IH. intros m Hm. apply Hall. set_solver.
Qed.

Lemma writeTaxMap_fold (tm : list (string * pyid)) : ∀ acc,
  foldM (λ (acc : list string) (kv : string * pyid),
           l ← py_format taxmap_fmt [AStr kv.1; AId kv.2]; Ok (acc ++ [l])) acc tm
  = Ok (acc ++ ((λ kv, taxmap_line kv.1 kv.2) <$> tm)).
Proof.
  induction tm as [|[k v] tm IH]; intros acc; simpl; [by rewrite app_nil_r|].
  rewrite IH. by rewrite <- app_assoc.
Qed.

Lemma writeTaxMap_spec (tm : list (string * pyid)) :
  writeTaxMap tm = Ok ((λ kv, taxmap_line kv.1 kv.2) <$> tm).
Proof. unfold writeTaxMap. by rewrite writeTaxMap_fold. Qed.
End DumpProps.

Section Traversal.
Implicit Types (h : heap) (n r : nat).

Lemma treeGenerator_fuel_elem h : wf_heap h →
  ∀ fuel r n, (r < length h)%nat → n ∈ treeGenerator_fuel fuel h r →
    (n = r ∨ ((r < n)%nat ∧ ∃ p pd, h !! p = Some pd ∧ n ∈ node_children pd ∧
                                     node_parent (obj h n) = Some p)) ∧
    (n < length h)%nat.
Proof.
  intros Hwf fuel. induction fuel as [|f IH]; intros r n Hr Hn; simpl in Hn.
  - by apply elem_of_nil in Hn.
  - apply elem_of_cons in Hn as [->|Hn]; [by split; [left|]|].
    apply list_elem_of_In, in_flat_map in Hn as (c & Hc & Hn).
    apply list_elem_of_In in Hc, Hn.
    destruct (lookup_lt_is_Some_2 h r Hr) as [rd Hrd].
    rewrite (obj_lookup _ _ _ Hrd) in Hc.
    destruct (wf_child _ Hwf r rd c Hrd Hc) as (cd & Hcd & Hcp).
    assert (r < c)%nat as Hrc.
    { destruct (decide (c = 0%nat)) as [->|Hc0].
      - destruct (wf_root _ Hwf) as (? & ? & ?). congruence.
      - destruct (wf_parent _ Hwf c cd Hcd Hc0) as (p & pd & Hp & Hlt & _).
        congruence. }
    destruct (IH c n (lookup_lt_Some _ _ _ Hcd) Hn) as [[->|[Hlt Hch]] Hlen].
    + split; [|done]. right. split; [done|]. exists r, rd.
      by rewrite (obj_lookup _ _ _ Hcd).
    + split; [|done]. right. split; [lia|done].
Qed.

Lemma below_le h : wf_heap h → ∀ r n, below h r n → (r ≤ n)%nat.
Proof.
  intros Hwf r n Hb. induction Hb as [r|r rd c n Hrd Hc Hb IH]; [done|].
  destruct (wf_child _ Hwf r rd c Hrd Hc) as (cd & Hcd & Hcp).
  destruct (decide (c = 0%nat)) as [->|Hc0].
  - destruct (wf_root _ Hwf) as (? & ? & ?). congruence.
  - destruct (wf_parent _ Hwf c cd Hcd Hc0) as (p & pd & Hp & Hlt & _).
    assert (p = r) by congruence. lia.
Qed.

(** The length of the arena is fuel enough to reach every node below. *)
Lemma treeGenerator_fuel_below h : wf_heap h →
  ∀ r n, below h r n → ∀ fuel, (n - r < fuel)%nat → n ∈ treeGenerator_fuel fuel h r.
Proof.
  intros Hwf r n Hb. induction Hb as [r|r rd c n Hrd Hc Hb IH]; intros fuel Hf.
  - destruct fuel as [|f]; [lia|]. simpl. set_solver.
  - destruct fuel as [|f]; [lia|]. simpl. apply elem_of_cons. right.
    apply list_elem_of_In, in_flat_map. exists c.
    rewrite (obj_lookup _ _ _ Hrd). split; [by apply list_elem_of_In|].
    apply list_elem_of_In, IH.
    pose proof (below_le h Hwf _ _ Hb) as Hle.
    destruct (wf_child _ Hwf r rd c Hrd Hc) as (cd & Hcd & Hcp).
    destruct (decide (c = 0%nat)) as [->|Hc0].
    + destruct (wf_root _ Hwf) as (? & ? & ?). congruence.
    + destruct (wf_parent _ Hwf c cd Hcd Hc0) as (p & pd & Hp & Hlt & _).
      assert (p = r) by congruence. lia.
Qed.

Lemma below_valid h : wf_heap h → ∀ r n, (r < length h)%nat → below h r n →
  (n < length h)%nat.
Proof.
  intros Hwf r n Hr Hb. induction Hb as [r|r rd c n Hrd Hc Hb IH]; [done|].
  apply IH. destruct (wf_child _ Hwf r rd c Hrd Hc) as (cd & Hcd & _).
  by eapply lookup_lt_Some.
Qed.

(** What the two builders return is a tree with the reported root in it. *)
Lemma built_by_wf b : built_by b →
  wf_heap (b_heap b) ∧ (b_root b < length (b_heap b))%nat.
Proof.
  intros [(lines & fo & idStart & Hb)|(rankMap & tm & fasta & Hb)].
  - destruct (pr2_loop_inv lines fo idStart) as (st & Hloop & Hinv & _).
    rewrite (buildPR2Tree_unfold _ _ _ _ Hloop), pr2_finish_spec in Hb.
    pose proof (pb_wf _ _ _ _ _ Hinv) as Hwf.
    destruct (wf_root _ Hwf) as (r & Hr & _).
    destruct (node_children (obj (pr_heap st) 0)) as [|c rest] eqn:Hk; [done|].
    assert (b_heap b = pr_heap st ∧ b_root b = c) as [-> ->].
    { destruct rest; by injection Hb as <-. }
    split; [done|]. rewrite (obj_lookup _ _ _ Hr) in Hk.
    destruct (wf_child _ Hwf 0%nat r c Hr) as (cd & Hcd & _); [rewrite Hk; set_solver|].
    by eapply lookup_lt_Some.
  - destruct (buildSilvaTree_spec _ _ _ _ Hb)
      as (m & h2 & m' & _ & [Hwf2 _] & _ & [Hs _] & _ & Hroot & _).
    assert (wf_heap (b_heap b)) as Hwf by (by eapply wf_heap_shape).
    split; [done|]. rewrite Hroot.
    destruct (wf_root _ Hwf) as (r & Hr & _). by eapply lookup_lt_Some.
Qed.
End Traversal.

(** C8.  The three outputs, byte for byte: when the files of a run are
    written, the nodes dump has, for each visited node in order, the line
    id TAB | TAB parent id TAB | TAB rank TAB NEWLINE; the names dump the
    line id TAB | TAB name TAB | TAB TAB | TAB scientific name TAB NEWLINE;
    and the record map, for each entry in order, record id TAB taxon id
    NEWLINE.  The record map is always written in full. *)
Theorem output_line_formats (taxon_ranks : list string) (b : built)
    (nodes names tm : list string) :
  write_outputs taxon_ranks b = Ok (nodes, names, tm) →
  Forall2 (λ n ln, ∃ pid, dump_parent (b_heap b) (b_root b) n = Ok pid ∧
             ln = py_str (node_id (obj (b_heap b) n)) +:+ TAB +:+ "|" +:+ TAB +:+
                  py_str pid +:+ TAB +:+ "|" +:+ TAB +:+
                  dump_rank taxon_ranks (node_rank (obj (b_heap b) n)) +:+ TAB +:+ NL)
          (treeGenerator (b_heap b) (b_root b)) nodes ∧
  Forall2 (λ n ln,
             ln = py_str (node_id (obj (b_heap b) n)) +:+ TAB +:+ "|" +:+ TAB +:+
                  node_name (obj (b_heap b) n) +:+ TAB +:+ "|" +:+ TAB +:+ TAB +:+
                  "|" +:+ TAB +:+ "scientific name" +:+ TAB +:+ NL)
          (treeGenerator (b_heap b) (b_root b)) names ∧
  Forall2 (λ (kv : string * pyid) ln, ln = kv.1 +:+ TAB +:+ py_str kv.2 +:+ NL)
          (b_taxmap b) tm ∧
  writeTaxMap (b_taxmap b) = Ok tm.
Proof.
  unfold write_outputs. intros Hw.
  apply bind_Ok_inv in Hw as ([ns ms] & Hd & Hw).
  apply bind_Ok_inv in Hw as (tm' & Ht & Hw). injection Hw as <- <- <-.
  unfold writeDumpFiles in Hd.
  destruct (dump_fold taxon_ranks _ _ _ _ _ _ Hd) as (ns' & ms' & -> & -> & Hn & Hm).
  splits; try done.
  rewrite writeTaxMap_spec in Ht. injection Ht as <-.
  apply Forall2_fmap_r, Forall_Forall2_diag, Forall_forall. done.
Qed.

Lemma output_line_formats_witness :
  ∃ b, buildPR2Tree ex_pr2_lines false 0 = Ok b ∧
       write_outputs ranks b =
         Ok ([nodes_line (IdInt 1) (IdInt 1) "superkingdom";
              nodes_line (IdInt 2) (IdInt 1) "kingdom";
              nodes_line (IdInt 3) (IdInt 2) "phylum";
              nodes_line (IdInt 4) (IdInt 2) "phylum"],
             [names_line (IdInt 1) "Eukaryota"; names_line (IdInt 2) "Fungi";
              names_line (IdInt 3) "Ascomycota"; names_line (IdInt 4) "Basidiomycota"],
             [taxmap_line "A.1.1" (IdInt 3); taxmap_line "B.1.1" (IdInt 4)]) ∧
       writeTaxMap (b_taxmap b) =
         Ok [taxmap_line "A.1.1" (IdInt 3); taxmap_line "B.1.1" (IdInt 4)].
Proof.
  eexists. split; [vm_compute; reflexivity|].
  match goal with |- ?w = Ok (?n, ?m, ?t) ∧ _ =>
    assert (w = Ok (n, m, t)) as Hw by (vm_compute; reflexivity) end.
  split; [exact Hw|].
  exact (proj2 (proj2 (proj2 (output_line_formats _ _ _ _ _ Hw)))).
Defined.

Lemma Forall2_impl_elem {X Y : Type} (P Q : X → Y → Prop) (l : list X) (k : list Y) :
  Forall2 P l k → (∀ x y, x ∈ l → P x y → Q x y) → Forall2 Q l k.
Proof.
  intros HF. induction HF as [|x y l k Hxy HF IH]; intros Himp; constructor.
  - apply Himp; [apply list_elem_of_here|done].
  - apply IH. intros x' y' Hx'. apply Himp. by apply list_elem_of_further.
Qed.

Lemma treeGenerator_children_later (h : heap) (fuel r n : nat) : wf_heap h →
  (r < length h)%nat →
  n ∈ flat_map (treeGenerator_fuel fuel h) (node_children (obj h r)) → (r < n)%nat.
Proof.
  intros Hwf Hr Hn.
  apply list_elem_of_In, in_flat_map in Hn as (c & Hc & Hn).
  apply list_elem_of_In in Hc, Hn.
  destruct (lookup_lt_is_Some_2 h r Hr) as [rd Hrd].
  rewrite (obj_lookup _ _ _ Hrd) in Hc.
  destruct (wf_child _ Hwf r rd c Hrd Hc) as (cd & Hcd & Hcp).
  assert (r < c)%nat as Hrc.
  { destruct (decide (c = 0%nat)) as [->|Hc0].
    - destruct (wf_root _ Hwf) as (? & ? & ?). congruence.
    - destruct (wf_parent _ Hwf c cd Hcd Hc0) as (p & pd & Hp & Hlt & _).
      congruence. }
  destruct (treeGenerator_fuel_elem h Hwf fuel c n (lookup_lt_Some _ _ _ Hcd) Hn)
    as [[->|[Hlt _]] _]; lia.
Qed.

(** C7.  The parent column of the nodes dump, for what either builder
    returned: the writer succeeds; the reported root is the first node
    visited and is not visited again; every node below it is visited; the
    line of the reported root carries the root's own id as parent id; and
    the line of any other node carries the id of the node that lists it
    among its children, which is the node its parent link points to. *)
Theorem dump_parent_column (taxon_ranks : list string) (b : built) :
  built_by b →
  ∃ nodes names rest,
    writeDumpFiles taxon_ranks (b_heap b) (b_root b) = Ok (nodes, names) ∧
    treeGenerator (b_heap b) (b_root b) = b_root b :: rest ∧ (b_root b ∉ rest) ∧
    (∀ n, below (b_heap b) (b_root b) n → n ∈ b_root b :: rest) ∧
    Forall2 (λ n ln,
               let nd := obj (b_heap b) n in
               let nrank := dump_rank taxon_ranks (node_rank nd) in
               if decide (n = b_root b)
               then ln = nodes_line (node_id nd) (node_id nd) nrank
               else ∃ p pd, b_heap b !! p = Some pd ∧ n ∈ node_children pd ∧
                            node_parent nd = Some p ∧
                            ln = nodes_line (node_id nd) (node_id pd) nrank)
            (b_root b :: rest) nodes.
Proof.
  intros Hby. destruct (built_by_wf b Hby) as [Hwf Hroot].
  set (h := b_heap b) in *. set (root := b_root b) in *.
  assert (∃ rest, treeGenerator h root = root :: rest ∧
            ∀ n, n ∈ rest → (root < n)%nat) as (rest & Htg & Hrest).
  { unfold treeGenerator. destruct (length h) as [|f] eqn:Hl; [lia|].
    eexists. split; [reflexivity|]. intros n Hn.
    apply (treeGenerator_children_later h f root n Hwf); [lia|done]. }
  assert (∀ n, n ∈ root :: rest →
            n = root ∨ (n ≠ root ∧ ∃ p pd, h !! p = Some pd ∧ n ∈ node_children pd ∧
                                           node_parent (obj h n) = Some p)) as Hvis.
  { intros n Hn. rewrite <- Htg in Hn.
    destruct (treeGenerator_fuel_elem h Hwf _ root n Hroot Hn) as [[->|[Hlt Hp]] _];
      [by left|]. right. split; [lia|done]. }
  assert (∀ n, n ∈ root :: rest → ∃ pid, dump_parent h root n = Ok pid) as Hok.
  { intros n Hn. unfold dump_parent. destruct (Hvis n Hn) as [->|(Hne & p & pd & _ & _ & Hp)].
    - rewrite decide_True by done. by eexists.
    - rewrite decide_False by done. rewrite Hp. by eexists. }
  destruct (dump_fold_ok taxon_ranks h root (root :: rest) Hok ([], [])) as ([ns ms] & Hf).
  destruct (dump_fold taxon_ranks h root _ _ _ _ Hf) as (ns' & ms' & Hns & Hms & Hn & _).
  simpl in Hns, Hms. subst ns' ms'.
  exists ns, ms, rest. splits.
  - unfold writeDumpFiles. fold h root. by rewrite Htg.
  - done.
  - intros Hin. specialize (Hrest _ Hin). lia.
  - intros n Hb. rewrite <- Htg. apply treeGenerator_fuel_below; [done|done|].
    pose proof (below_valid h Hwf root n Hroot Hb). lia.
  - apply (Forall2_impl_elem _ _ _ _ Hn). intros n ln Hin (pid & Hpid & ->).
    cbn zeta. unfold dump_parent in Hpid. revert Hpid.
    destruct (Hvis n Hin) as [Heq|(Hne & p & pd & Hpd & Hc & Hp)];
      destruct (decide (n = root)) as [?|?]; try done; intros Hpid.
    + by injection Hpid as <-.
    + rewrite Hp in Hpid. injection Hpid as <-.
      exists p, pd. by rewrite (obj_lookup _ _ _ Hpd).
Qed.

Lemma dump_parent_column_witness :
  ∃ b nodes names,
    buildPR2Tree ex_pr2_lines false 0 = Ok b ∧
    writeDumpFiles ranks (b_heap b) (b_root b) = Ok (nodes, names) ∧
    nodes !! 0%nat = Some (nodes_line (IdInt 1) (IdInt 1) "superkingdom").
Proof.
  eexists.
  assert (buildPR2Tree ex_pr2_lines false 0 = Ok _) as Hb by (vm_compute; reflexivity).
  destruct (dump_parent_column ranks _ (or_introl (ex_intro _ _ (ex_intro _ _
              (ex_intro _ _ Hb))))) as (nodes & names & rest & Hw & _ & _ & _ & Hl).
  exists nodes, names. split; [exact Hb|]. split; [exact Hw|].
  inversion Hl as [|n ln l k Hhead Htail]; subst. simpl in Hhead.
  rewrite Hhead. reflexivity.
Defined.

(** ** Nodes and prefixes *)

Section Prefixes.
Implicit Types (h : heap) (st : pr2_state) (p q : list string).

Lemma pr2_tree_below A h : pr2_tree A h → nodes_below A h.
Proof.
  intros Ht n nd Hn Hn0. destruct (Ht n nd Hn Hn0) as (p & i & HpA & Hi & Hl & _).
  rewrite Hl. split.
  - destruct p; simpl in *; [lia|done].
  - exists p. split; [done|apply prefix_take].
Qed.

(** With the index as a witness, a lineage names one node of a PR2 tree. *)
Lemma pr2_lineage_inj idStart A st : pr2_inv idStart A st → pr2_tree A (pr_heap st) →
  ∀ n1 n2 d1 d2, pr_heap st !! n1 = Some d1 → pr_heap st !! n2 = Some d2 →
    lineage (pr_heap st) n1 = lineage (pr_heap st) n2 → n1 = n2.
Proof.
  intros Hb Ht n1 n2 d1 d2 H1 H2 Hl. pose proof (pb_wf _ _ _ _ _ Hb) as Hwf.
  destruct (decide (n1 = 0%nat)) as [->|Hn1], (decide (n2 = 0%nat)) as [->|Hn2];
    try done.
  - rewrite lineage_root in Hl by done. symmetry in Hl.
    by apply (lineage_nonroot _ n2 d2 Hwf H2 Hn2) in Hl.
  - rewrite (lineage_root (pr_heap st)) in Hl by done.
    by apply (lineage_nonroot _ n1 d1 Hwf H1 Hn1) in Hl.
  - destruct (Ht n1 d1 H1 Hn1) as (p1 & i1 & _ & Hi1 & Hl1 & Hr1).
    destruct (Ht n2 d2 H2 Hn2) as (p2 & i2 & _ & Hi2 & Hl2 & Hr2).
    assert (i1 = i2) as ->.
    { apply (f_equal length) in Hl1, Hl2. rewrite length_take in Hl1, Hl2.
      rewrite Hl in Hl1. lia. }
    destruct (wf_parent _ Hwf n1 d1 H1 Hn1) as (q1 & ? & Hq1 & _).
    destruct (wf_parent _ Hwf n2 d2 H2 Hn2) as (q2 & ? & Hq2 & _).
    rewrite (lineage_step _ n1 d1 q1 Hwf H1 Hq1) in Hl.
    rewrite (lineage_step _ n2 d2 q2 Hwf H2 Hq2) in Hl.
    apply app_inj_tail in Hl as [_ Hnm].
    destruct (pb_nodes _ _ _ _ _ Hb n1 d1 H1 Hn1) as (r1 & Hrk1 & Hidx1).
    destruct (pb_nodes _ _ _ _ _ Hb n2 d2 H2 Hn2) as (r2 & Hrk2 & Hidx2).
    assert (r1 = r2) as -> by congruence.
    rewrite Hnm in Hidx1. congruence.
Qed.

(** In a tree whose lineages name one node each, a node for a path gives
    one node for each non-empty prefix of the path. *)
Lemma prefix_node h P :
  wf_heap h →
  (∀ n1 n2 d1 d2, h !! n1 = Some d1 → h !! n2 = Some d2 →
     lineage h n1 = lineage h n2 → n1 = n2) →
  (∀ p, p ∈ P → ∃ n, (n < length h)%nat ∧ lineage h n = p) →
  ∀ q, is_prefix_of_some P q →
    ∃ n nd, h !! n = Some nd ∧ n ≠ 0%nat ∧ lineage h n = q ∧
      ∀ m md, h !! m = Some md → lineage h m = q → m = n.
Proof.
  intros Hwf Hinj Hnodes q (Hq & p & HpP & [k ->]).
  destruct (Hnodes _ HpP) as (n & Hn & Hl).
  destruct (lookup_lt_is_Some_2 h n Hn) as [nd Hnd].
  destruct (lineage_prefix_closed h Hwf n nd (length q) Hnd) as (m & md & Hm & Hlm).
  { rewrite Hl, length_app. lia. }
  rewrite Hl, take_app_length in Hlm.
  exists m, md. splits; try done.
  - intros ->. rewrite lineage_root in Hlm by done. congruence.
  - intros m' md' Hm' Hl'. apply (Hinj m' m md' md); congruence.
Qed.

Lemma pr2_keys_paths lines r x :
  (∃ p, p ∈ ladder_paths lines ∧ (r, x) ∈ zip ranks p) →
  ∃ p, p ∈ pr2_paths lines ∧ (r, x) ∈ zip ranks p.
Proof.
  intros (p & Hp & Hrx). unfold ladder_paths in Hp.
  apply list_elem_of_fmap in Hp as (p' & -> & Hp').
  exists p'. split; [done|]. by rewrite (zip_with_take_length pair ranks p').
Qed.

(** Nodes and prefixes after a run of the PR2 loop. *)
Lemma pr2_nodes_and_prefixes lines fo idStart :
  ∃ st, pr2_loop lines fo idStart = Ok st ∧
    (∀ n nd, pr_heap st !! n = Some nd → n ≠ 0%nat →
       ∃ r, node_rank nd = Some r ∧
            taxaByNameAndRank st !! (r, node_name nd) = Some n) ∧
    (∀ r x, is_Some (taxaByNameAndRank st !! (r, x)) ↔
            ∃ p, p ∈ pr2_paths lines ∧ (r, x) ∈ zip ranks p) ∧
    (∀ r x n, taxaByNameAndRank st !! (r, x) = Some n →
       n ≠ 0%nat ∧ ∃ nd, pr_heap st !! n = Some nd ∧ node_rank nd = Some r ∧
                          node_name nd = x) ∧
    (hierarchical (ladder_paths lines) →
     nodes_below (ladder_paths lines) (pr_heap st) ∧
     (∀ q, is_prefix_of_some (ladder_paths lines) q →
        ∃ n nd, pr_heap st !! n = Some nd ∧ n ≠ 0%nat ∧ lineage (pr_heap st) n = q ∧
          ∀ m md, pr_heap st !! m = Some md → lineage (pr_heap st) m = q → m = n) ∧
     (∀ p, p ∈ pr2_paths lines →
        ∃ n, pr2_insert st p = (st, n) ∧
             lineage (pr_heap st) n = take (length ranks) p)).
Proof.
  destruct (pr2_loop_inv lines fo idStart) as (st & Hloop & Hb & Hcov & Htree).
  exists st. splits; try done.
  - by apply (pb_nodes _ _ _ _ _ Hb).
  - intros r x. split.
    + intros [n Hn]. apply pr2_keys_paths. by apply (pb_keys _ _ _ _ _ Hb r x n).
    + intros (p & Hp & Hrx). by apply (Hcov p Hp).
  - by apply (pb_index _ _ _ _ _ Hb).
  - intros HA. destruct (Htree HA) as [Ht Hnodes]. splits.
    + by apply pr2_tree_below.
    + apply prefix_node; [apply (pb_wf _ _ _ _ _ Hb)| |done].
      by apply (pr2_lineage_inj idStart (ladder_paths lines) st).
    + intros p Hp.
      destruct (pr2_insert_covered st 0 (zip ranks p) (Hcov p Hp)) as (n & Hins).
      fold (pr2_insert st p) in Hins. exists n. split; [done|].
      assert (take (length ranks) p ∈ ladder_paths lines) as HpA.
      { unfold ladder_paths. by apply list_elem_of_fmap_2. }
      by destruct (pr2_insert_inv idStart _ st p HpA Hb st n Hins)
        as (_ & _ & _ & _ & Hfin); destruct (Hfin HA Ht).
Qed.

Lemma nodes_below_mono P P' h : (∀ p, p ∈ P → p ∈ P') →
  nodes_below P h → nodes_below P' h.
Proof.
  intros Hsub Hb n nd Hn Hn0. destruct (Hb n nd Hn Hn0) as (Hq & p & Hp & Hpre).
  split; [done|]. exists p. split; [by apply Hsub|done].
Qed.

Lemma silva_insert_all_snoc ss s :
  silva_insert_all (ss ++ [s]) = (addToTreeFromString s (silva_insert_all ss)).1.
Proof. unfold silva_insert_all. by rewrite foldl_snoc. Qed.

(** The tree after a sequence of insertions. *)
Lemma silva_insert_all_spec ss :
  let h := silva_insert_all ss in
  (h = [] ∨ silva_inv h) ∧ (ss ≠ [] → silva_inv h) ∧
  nodes_below (silva_path <$> ss) h ∧
  (∀ p, p ∈ silva_path <$> ss → ∃ n, (n < length h)%nat ∧ lineage h n = p).
Proof.
  induction ss as [|s ss IH] using rev_ind.
  - unfold silva_insert_all. simpl. splits.
    + by left.
    + done.
    + intros n nd Hn. by rewrite lookup_nil in Hn.
    + intros p Hp. by apply elem_of_nil in Hp.
  - cbn zeta in *. rewrite silva_insert_all_snoc, fmap_app.
    destruct IH as (Hh & _ & Hbelow & Hnodes).
    destruct (addToTreeFromString s (silva_insert_all ss)) as [h' n'] eqn:Hadd.
    destruct (addToTreeFromString_spec ((silva_path <$> ss) ++ [silva_path s]) s _
                ltac:(apply elem_of_app; right; apply list_elem_of_here) Hh h' n' Hadd)
      as (Hinv' & Hn' & Hl' & [Hlen Hg] & _ & Hb').
    simpl. splits; try done.
    + by right.
    + apply Hb'. eapply nodes_below_mono; [|done].
      intros p Hp. apply elem_of_app. by left.
    + intros p Hp. apply elem_of_app in Hp as [Hp|Hp].
      * destruct (Hnodes p Hp) as (n & Hn & Hl). exists n.
        split; [lia|]. by rewrite Hg.
      * apply list_elem_of_singleton in Hp. subst p. by exists n'.
Qed.

(** Nodes and prefixes after a sequence of Silva insertions. *)
Lemma silva_nodes_and_prefixes ss :
  let h := silva_insert_all ss in
  nodes_below (silva_path <$> ss) h ∧
  (∀ q, is_prefix_of_some (silva_path <$> ss) q →
     ∃ n nd, h !! n = Some nd ∧ n ≠ 0%nat ∧ lineage h n = q ∧
       ∀ m md, h !! m = Some md → lineage h m = q → m = n) ∧
  (∀ s h1 n1, addToTreeFromString s h = (h1, n1) →
     lineage h1 n1 = silva_path s ∧ heap_grows h h1 ∧
     ∀ ss', lineage (foldl (λ h s, (addToTreeFromString s h).1) h1 ss') n1
            = silva_path s).
Proof.
  cbn zeta. destruct (silva_insert_all_spec ss) as (Hh & Hne & Hbelow & Hnodes).
  cbn zeta in *. splits; try done.
  - intros q Hq. destruct ss as [|s0 ss0].
    { destruct Hq as (_ & p & Hp & _). by apply elem_of_nil in Hp. }
    destruct (Hne ltac:(done)) as [Hwf Hsib].
    apply (prefix_node _ (silva_path <$> s0 :: ss0)); try done.
    by apply silva_lineage_inj.
  - intros s h1 n1 Hadd.
    destruct (addToTreeFromString_spec [silva_path s] s _
                (proj2 (list_elem_of_singleton _ _) eq_refl) Hh h1 n1 Hadd)
      as (Hinv1 & Hn1 & Hl1 & Hg1 & _).
    splits; try done.
    intros ss'. clear Hadd Hg1. revert h1 Hinv1 Hn1 Hl1.
    induction ss' as [|s' ss' IH]; intros h1 Hinv1 Hn1 Hl1; [done|].
    cbn [foldl]. destruct (addToTreeFromString s' h1) as [h2 n2] eqn:Hadd2.
    destruct (addToTreeFromString_spec [silva_path s'] s' _
                (proj2 (list_elem_of_singleton _ _) eq_refl) (or_intror Hinv1) h2 n2 Hadd2)
      as (Hinv2 & _ & _ & [Hlen2 Hg2] & _).
    simpl. apply (IH h2 Hinv2); [lia|]. by rewrite Hg2.
Qed.
End Prefixes.

(** C1 (as amended).  The step of [buildPR2Tree] looks the name up in the
    index of the whole run for the rank of its position, not among the
    children of the current node: a hit moves to the indexed node wherever
    it hangs, a miss creates a node as the last child of the current node.
    After all lines the nodes other than the root correspond one to one to
    the (rank, name) pairs of the inserted paths; and when no name stands at
    one rank under two different ancestor prefixes, they correspond one to
    one to the distinct non-empty prefixes of the paths, cut at the eight
    ranks, and looking a path up again returns, with nothing changed, the
    node whose path from the root is that lineage, cut at the eight ranks.
    The insertion of the rank-table mode looks the name up among the
    children of the current node, descends into the child when there is one
    and creates it otherwise; after any sequence of insertions the nodes
    other than the root correspond one to one to the distinct non-empty
    prefixes of the inserted paths, and the path from the root to the node
    an insertion returns is the inserted lineage, then and ever after. *)
Theorem nodes_are_prefixes :
  (∀ st last r x n, taxaByNameAndRank st !! (r, x) = Some n →
     pr2_place (st, last) (r, x) = (st, n)) ∧
  (∀ st last r x, taxaByNameAndRank st !! (r, x) = None →
     (last < length (pr_heap st))%nat →
     ∃ st', pr2_place (st, last) (r, x) = (st', length (pr_heap st)) ∧
            pr_heap st' = graft (pr_heap st) last (pr2_fresh st last r x) ∧
            taxaByNameAndRank st' = <[(r, x) := length (pr_heap st)]> (taxaByNameAndRank st)) ∧
  (∀ lines fastaout idStart,
     ∃ st, pr2_loop lines fastaout idStart = Ok st ∧
       (∀ n nd, pr_heap st !! n = Some nd → n ≠ 0%nat →
          ∃ r, node_rank nd = Some r ∧
               taxaByNameAndRank st !! (r, node_name nd) = Some n) ∧
       (∀ r x, is_Some (taxaByNameAndRank st !! (r, x)) ↔
               ∃ p, p ∈ pr2_paths lines ∧ (r, x) ∈ zip ranks p) ∧
       (∀ r x n, taxaByNameAndRank st !! (r, x) = Some n →
          n ≠ 0%nat ∧ ∃ nd, pr_heap st !! n = Some nd ∧ node_rank nd = Some r ∧
                             node_name nd = x) ∧
       (hierarchical (ladder_paths lines) →
        nodes_below (ladder_paths lines) (pr_heap st) ∧
        (∀ q, is_prefix_of_some (ladder_paths lines) q →
           ∃ n nd, pr_heap st !! n = Some nd ∧ n ≠ 0%nat ∧
             lineage (pr_heap st) n = q ∧
             ∀ m md, pr_heap st !! m = Some md → lineage (pr_heap st) m = q → m = n) ∧
        (∀ p, p ∈ pr2_paths lines →
           ∃ n, pr2_insert st p = (st, n) ∧
                lineage (pr_heap st) n = take (length ranks) p))) ∧
  (∀ h cur nm c, find_child h cur nm = Some c →
     silva_descend (h, cur) nm = (h, c) ∧ c ∈ node_children (obj h cur) ∧
     node_name (obj h c) = nm) ∧
  (∀ h cur nm, find_child h cur nm = None → (cur < length h)%nat →
     (∀ c, c ∈ node_children (obj h cur) → node_name (obj h c) ≠ nm) ∧
     silva_descend (h, cur) nm = (graft h cur (silva_fresh nm), length h)) ∧
  (∀ ss,
     let h := silva_insert_all ss in
     nodes_below (silva_path <$> ss) h ∧
     (∀ q, is_prefix_of_some (silva_path <$> ss) q →
        ∃ n nd, h !! n = Some nd ∧ n ≠ 0%nat ∧ lineage h n = q ∧
          ∀ m md, h !! m = Some md → lineage h m = q → m = n) ∧
     (∀ s h1 n1, addToTreeFromString s h = (h1, n1) →
        lineage h1 n1 = silva_path s ∧ heap_grows h h1 ∧
        ∀ ss', lineage (foldl (λ h s, (addToTreeFromString s h).1) h1 ss') n1
               = silva_path s)).
Proof.
  splits.
  - apply pr2_place_found.
  - intros st last r x Hnone Hlast. eexists.
    split; [by apply pr2_place_new|]. done.
  - apply pr2_nodes_and_prefixes.
  - intros h cur nm c Hf. destruct (find_child_Some _ _ _ _ Hf) as [Hc Hnm].
    splits; try done. unfold silva_descend. by rewrite Hf.
  - intros h cur nm Hf Hcur. split; [|by apply silva_descend_new].
    intros c Hc. by apply (find_child_None h cur nm c).
  - apply silva_nodes_and_prefixes.
Qed.

Lemma ex_pr2_lines_hierarchical : hierarchical (ladder_paths ex_pr2_lines).
Proof.
  intros p q i x Hp Hq Hpi Hqi.
  change (ladder_paths ex_pr2_lines)
    with [["Eukaryota"; "Fungi"; "Ascomycota"]; ["Eukaryota"; "Fungi"; "Basidiomycota"]]
    in Hp, Hq.
  apply elem_of_cons in Hp as [->|Hp]; [|apply list_elem_of_singleton in Hp as ->];
    (apply elem_of_cons in Hq as [->|Hq]; [|apply list_elem_of_singleton in Hq as ->]);
    destruct i as [|[|[|i]]]; simplify_eq/=; done.
Defined.

Lemma nodes_are_prefixes_witness :
  ∃ st n, pr2_loop ex_pr2_lines false 0 = Ok st ∧
          pr2_insert st ["Eukaryota"; "Fungi"; "Basidiomycota"] = (st, n) ∧
          lineage (pr_heap st) n = ["Eukaryota"; "Fungi"; "Basidiomycota"].
Proof.
  destruct nodes_are_prefixes as (_ & _ & Hpr2 & _).
  destruct (Hpr2 ex_pr2_lines false 0%Z) as (st & Hloop & _ & _ & _ & Hh).
  destruct (Hh ex_pr2_lines_hierarchical) as (_ & _ & Hret).
  destruct (Hret ["Eukaryota"; "Fungi"; "Basidiomycota"]) as (n & Hins & Hl).
  { apply list_elem_of_further, list_elem_of_here. }
  exists st, n. splits; [exact Hloop|exact Hins|exact Hl].
Defined.

(** C1, as stated, fails for [buildPR2Tree].  The two sample lineages
    E|X|Z and E|Y|Z have five distinct non-empty prefixes; the tree gets
    four nodes below the root; the walk for the second lineage ends on the
    node of the first, whose path is E, X, Z; and the step for Z under Y
    lands on a node that is not a child of Y (Y has none). *)
Lemma pr2_same_name_other_parent :
  ∃ st, pr2_loop ex_pr2_clash false 0 = Ok st ∧
    lineage (pr_heap st) <$> seq 0 (length (pr_heap st))
      = [[]; ["E"]; ["E"; "X"]; ["E"; "X"; "Z"]; ["E"; "Y"]] ∧
    pr2_insert st ["E"; "Y"; "Z"] = (st, 3%nat) ∧
    lineage (pr_heap st) 3 ≠ ["E"; "Y"; "Z"] ∧
    taxMap st = [("a", IdInt 3); ("b", IdInt 3)] ∧
    node_name (obj (pr_heap st) 4) = "Y" ∧ node_children (obj (pr_heap st) 4) = [] ∧
    pr2_place (st, 4%nat) ("phylum", "Z") = (st, 3%nat).
Proof.
  eexists. split; [vm_compute; reflexivity|].
  splits; try (by vm_compute).
Qed.

(** ** More on the loop of buildPR2Tree *)

(** An invariant of the walk along a path, position by position. *)
Lemma pr2_walk_ind idStart A (R : nat → pr2_state → nat → Prop) (p : list string) :
  take (length ranks) p ∈ A →
  (∀ i st last r x st' n',
     pr2_inv idStart A st → (last < length (pr_heap st))%nat → R i st last →
     ranks !! i = Some r → p !! i = Some x →
     pr2_place (st, last) (r, x) = (st', n') → R (S i) st' n') →
  ∀ st st' n', pr2_inv idStart A st → R 0%nat st 0%nat →
    pr2_insert st p = (st', n') →
    R (length (zip ranks p)) st' n' ∧ pr2_inv idStart A st' ∧
    (n' < length (pr_heap st'))%nat.
Proof.
  intros HpA Hstep st st' n' Hb HR Hins. rewrite pr2_insert_ladder in Hins.
  rewrite (zip_with_take_length pair ranks p).
  set (q := take (length ranks) p) in *.
  assert (length q ≤ length ranks)%nat as Hlen.
  { unfold q. rewrite length_take. lia. }
  assert (∀ i x, q !! i = Some x → p !! i = Some x) as Hqp.
  { intros i x Hq. unfold q in Hq. apply lookup_take_Some in Hq. by destruct Hq. }
  assert (0 < length (pr_heap st))%nat as H0.
  { destruct (pb_root _ _ _ _ _ Hb) as (r & Hr & _). by eapply lookup_lt_Some. }
  assert (length (zip ranks q) = length q) as Hz.
  { rewrite length_zip_with. lia. }
  rewrite Hz.
  assert (∀ k i st last, length q = (i + k)%nat → pr2_inv idStart A st →
            (last < length (pr_heap st))%nat → R i st last →
            foldl pr2_place (st, last) (zip (drop i ranks) (drop i q)) = (st', n') →
            R (length q) st' n' ∧ pr2_inv idStart A st' ∧
            (n' < length (pr_heap st'))%nat) as Haux.
  { clear st Hb HR Hins H0. intros k. induction k as [|k IH]; intros i st last Hik Hb Hl HR Hf.
    - rewrite (drop_ge q) in Hf by lia. rewrite zip_with_nil_r in Hf.
      simpl in Hf. injection Hf as <- <-. replace (length q) with i by lia. done.
    - destruct (lookup_lt_is_Some_2 q i) as [x Hx]; [lia|].
      destruct (lookup_lt_is_Some_2 ranks i) as [r Hr]; [lia|].
      rewrite (drop_S _ _ _ Hx), (drop_S _ _ _ Hr) in Hf.
      cbn [zip_with foldl] in Hf.
      destruct (pr2_place (st, last) (r, x)) as [st1 n1] eqn:Hplace.
      destruct (pr2_basic_place idStart A st last r x q Hb Hl HpA
                  (zip_lookup_elem q i r x Hr Hx) st1 n1 Hplace) as (Hb1 & Hn1 & _).
      apply (IH (S i) st1 n1); try done; [lia|].
      apply (Hstep i st last r x st1 n1); try done. by apply Hqp. }
  by apply (Haux (length q) 0%nat st 0%nat).
Qed.

Lemma pr2_insert_frame st p st1 n1 : pr2_insert st p = (st1, n1) →
  taxMap st1 = taxMap st ∧ outhandle st1 = outhandle st.
Proof.
  unfold pr2_insert. generalize 0%nat. generalize (zip ranks p). clear p.
  intros l. revert st. induction l as [|rx l IH]; intros st n Hf.
  - simpl in Hf. by injection Hf as <- <-.
  - cbn [foldl] in Hf. destruct (pr2_place (st, n) rx) as [st2 n2] eqn:Hp.
    destruct (pr2_place_frame (st, n) rx) as [H1 H2]. rewrite Hp in H1, H2.
    simpl in H1, H2. destruct (IH _ _ Hf) as [-> ->]. done.
Qed.

(** What a line of the fasta does to the state. *)
Lemma pr2_line_step fo st line :
  ∃ st', pr2_line fo 0 st line = Ok st' ∧
    if is_header line then
      ∃ st1 n1, pr2_insert st (header_names line) = (st1, n1) ∧
        pr_heap st' = pr_heap st1 ∧ taxaByNameAndRank st' = taxaByNameAndRank st1 ∧
        nextId st' = nextId st1 ∧
        taxMap st' = dict_set (taxMap st) (header_hitid line)
                              (node_id (obj (pr_heap st1) n1)) ∧
        outhandle st' = outhandle st ++ (if fo then [rewritten_header line] else [])
    else
      pr_heap st' = pr_heap st ∧ taxaByNameAndRank st' = taxaByNameAndRank st ∧
      nextId st' = nextId st ∧ taxMap st' = taxMap st ∧
      outhandle st' = outhandle st ++ (if fo then [line] else []).
Proof.
  destruct (is_header line) eqn:Hh.
  - destruct (pr2_line_header fo st line Hh)
      as (hitid & st1 & n1 & out & Hsplit & Hins & _).
    assert (header_hitid line = hitid) as Hid.
    { unfold header_hitid. by rewrite Hsplit. }
    destruct (pr2_insert_frame _ _ _ _ Hins) as [Htm Hout].
    unfold pr2_line. rewrite Hh, Hsplit.
    change (foldl pr2_place (st, 0%nat) (zip ranks (header_names line)))
      with (pr2_insert st (header_names line)).
    rewrite Hins. cbn [pr_heap taxaByNameAndRank prTree taxMap nextId outhandle].
    destruct fo.
    + rewrite header_fmt_ok. cbn [mbind result_bind].
      eexists. split; [reflexivity|].
      exists st1, n1. cbn [pr_heap taxaByNameAndRank prTree taxMap nextId outhandle].
      rewrite Htm, Hout. unfold rewritten_header. rewrite Hid. by splits.
    + eexists. split; [reflexivity|].
      exists st1, n1. cbn [pr_heap taxaByNameAndRank prTree taxMap nextId outhandle].
      rewrite Htm, Hout, app_nil_r, Hid. by splits.
  - unfold pr2_line. rewrite Hh. destruct fo; eexists; (split; [reflexivity|]);
      cbn [pr_heap taxaByNameAndRank prTree taxMap nextId outhandle];
      rewrite ?app_nil_r; by splits.
Qed.

(** An invariant of the loop that sees the arena, the index and the
    counter only. *)
Lemma pr2_lines_ind idStart A fo (J : pr2_state → Prop) (lines : list string) :
  (∀ p, p ∈ ladder_paths lines → p ∈ A) →
  (∀ st st', pr_heap st' = pr_heap st →
     taxaByNameAndRank st' = taxaByNameAndRank st → nextId st' = nextId st →
     J st → J st') →
  (∀ st p st' n', take (length ranks) p ∈ A → pr2_inv idStart A st → J st →
     pr2_insert st p = (st', n') → J st') →
  ∀ st st', pr2_inv idStart A st → J st → foldM (pr2_line fo 0) st lines = Ok st' →
    J st' ∧ pr2_inv idStart A st'.
Proof.
  intros HA Hframe Hins. induction lines as [|line lines IH]; intros st st' Hb HJ Hf.
  - simpl in Hf. by injection Hf as <-.
  - cbn [foldM] in Hf. rewrite ladder_paths_cons in HA.
    destruct (pr2_line_step fo st line) as (st2 & Hline & Hstep).
    rewrite Hline in Hf. cbn [mbind result_bind] in Hf.
    destruct (is_header line) eqn:Hh.
    + destruct Hstep as (st1 & n1 & Hi & Hh2 & Hx2 & Hn2 & _).
      assert (take (length ranks) (header_names line) ∈ A) as HpA.
      { apply HA. apply list_elem_of_here. }
      destruct (pr2_insert_inv idStart A st _ HpA Hb st1 n1 Hi) as (Hb1 & _).
      assert (∀ p, p ∈ ladder_paths lines → p ∈ A) as HA'.
      { intros p Hp. apply HA. by apply list_elem_of_further. }
      apply (IH HA' st2 st'); try done.
      * unfold pr2_inv. by rewrite Hh2, Hx2, Hn2.
      * apply (Hframe st1); try done. by apply (Hins st (header_names line) st1 n1).
    + destruct Hstep as (Hh2 & Hx2 & Hn2 & _).
      apply (IH HA st2 st'); try done.
      * unfold pr2_inv. by rewrite Hh2, Hx2, Hn2.
      * by apply (Hframe st).
Qed.

Lemma heap_persists_refl h : heap_persists h h.
Proof. intros n nd Hn. exists nd. by splits. Qed.

Lemma heap_persists_trans h1 h2 h3 :
  heap_persists h1 h2 → heap_persists h2 h3 → heap_persists h1 h3.
Proof.
  intros H12 H23 n nd Hn.
  destruct (H12 n nd Hn) as (nd2 & Hn2 & Hi & Hnm & Hr & Hp & Hk).
  destruct (H23 n nd2 Hn2) as (nd3 & Hn3 & Hi' & Hnm' & Hr' & Hp' & Hk').
  exists nd3. splits; try congruence. by etrans.
Qed.

Lemma heap_persists_graft h last nd : heap_persists h (graft h last nd).
Proof.
  intros n od Hn.
  destruct (graft_lookup_old_2 h last nd n od Hn)
    as (nd' & Hn' & Hnm & Hp & Hi & Hr & _ & Hk).
  exists nd'. splits; try done. rewrite Hk. case_decide; [by apply prefix_app_r|done].
Qed.

Lemma pr2_place_persists st last rx st' n' : (last < length (pr_heap st))%nat →
  pr2_place (st, last) rx = (st', n') → heap_persists (pr_heap st) (pr_heap st').
Proof.
  intros Hlast Hplace. destruct rx as [r x].
  destruct (taxaByNameAndRank st !! (r, x)) as [n|] eqn:Hidx.
  - rewrite (pr2_place_found _ _ _ _ _ Hidx) in Hplace. injection Hplace as <- <-.
    apply heap_persists_refl.
  - rewrite pr2_place_new in Hplace by done. injection Hplace as <- <-.
    apply heap_persists_graft.
Qed.

Lemma pr2_insert_persists idStart A st p st' n' :
  take (length ranks) p ∈ A → pr2_inv idStart A st →
  pr2_insert st p = (st', n') → heap_persists (pr_heap st) (pr_heap st').
Proof.
  intros HpA Hb Hins.
  destruct (pr2_walk_ind idStart A
              (λ _ st1 _, heap_persists (pr_heap st) (pr_heap st1)) p HpA)
    with (st := st) (st' := st') (n' := n') as (HR & _); try done.
  - intros i st1 last r x st2 n2 Hb1 Hl HR _ _ Hplace.
    eapply heap_persists_trans; [done|]. by eapply pr2_place_persists.
  - apply heap_persists_refl.
Qed.

Lemma pr2_lines_persist idStart A fo lines st st' :
  (∀ p, p ∈ ladder_paths lines → p ∈ A) → pr2_inv idStart A st →
  foldM (pr2_line fo 0) st lines = Ok st' →
  heap_persists (pr_heap st) (pr_heap st') ∧ pr2_inv idStart A st'.
Proof.
  intros HA Hb Hf.
  apply (pr2_lines_ind idStart A fo
           (λ st1, heap_persists (pr_heap st) (pr_heap st1)) lines HA) with (st := st);
    try done.
  - intros st1 st2 Hh _ _ HJ. by rewrite Hh.
  - intros st1 p st2 n2 HpA Hb1 HJ Hins.
    eapply heap_persists_trans; [done|]. by eapply pr2_insert_persists.
  - apply heap_persists_refl.
Qed.

(** *** Ranks and depths *)

Lemma pr2_place_rank_depth idStart A st last r x i st' n' :
  pr2_inv idStart A st → (last < length (pr_heap st))%nat →
  rank_is_depth (pr_heap st) → length (lineage (pr_heap st) last) = i →
  ranks !! i = Some r → pr2_place (st, last) (r, x) = (st', n') →
  rank_is_depth (pr_heap st') ∧ length (lineage (pr_heap st') n') = S i.
Proof.
  intros Hb Hlast Hd Hl Hr Hplace. pose proof (pb_wf _ _ _ _ _ Hb) as Hwf.
  destruct (taxaByNameAndRank st !! (r, x)) as [n|] eqn:Hidx.
  - rewrite (pr2_place_found _ _ _ _ _ Hidx) in Hplace. injection Hplace as <- <-.
    split; [done|].
    destruct (pb_index _ _ _ _ _ Hb r x n Hidx) as (Hn0 & nd & Hnd & Hrk & _).
    destruct (Hd n nd Hnd Hn0) as (i' & Hl' & Hrk' & _).
    assert (i' = i) as ->; [|done].
    eapply NoDup_lookup; [apply ranks_NoDup| |done]. congruence.
  - rewrite pr2_place_new in Hplace by done. injection Hplace as <- <-. simpl.
    set (h := pr_heap st) in *. set (nd0 := pr2_fresh st last r x).
    assert (length (lineage (graft h last nd0) (length h)) = S i) as Hnew.
    { rewrite lineage_graft_new by done. rewrite length_app. simpl. lia. }
    split; [|done]. intros n nd Hn Hn0.
    destruct (decide (n = length h)) as [->|Hne].
    + rewrite graft_lookup_new in Hn. injection Hn as <-. simpl.
      exists i. splits; try done. exact (lookup_lt_Some ranks i r Hr).
    + destruct (graft_lookup_old _ _ _ _ _ Hn Hne) as (od & Hod & _ & _ & _ & Hrk & _).
      destruct (Hd n od Hod Hn0) as (i' & Hl' & Hrk' & Hi').
      exists i'. splits; try done; [|congruence].
      rewrite lineage_graft_old; try done. by eapply lookup_lt_Some.
Qed.

Lemma pr2_insert_rank_depth idStart A st p st' n' :
  take (length ranks) p ∈ A → pr2_inv idStart A st → rank_is_depth (pr_heap st) →
  pr2_insert st p = (st', n') → rank_is_depth (pr_heap st').
Proof.
  intros HpA Hb Hd Hins.
  destruct (pr2_walk_ind idStart A
              (λ i st1 last, rank_is_depth (pr_heap st1) ∧
                             length (lineage (pr_heap st1) last) = i) p HpA)
    with (st := st) (st' := st') (n' := n') as ([HR _] & _); try done.
  - intros i st1 last r x st2 n2 Hb1 Hl [Hd1 Hl1] Hr _ Hplace.
    by eapply pr2_place_rank_depth.
  - split; [done|]. by rewrite lineage_root by apply (pb_wf _ _ _ _ _ Hb).
Qed.

(** *** The first node *)

Lemma pr2_paths_app l1 l2 : pr2_paths (l1 ++ l2) = pr2_paths l1 ++ pr2_paths l2.
Proof. unfold pr2_paths. by rewrite filter_app, fmap_app. Qed.

Lemma ladder_paths_app l1 l2 : ladder_paths (l1 ++ l2) = ladder_paths l1 ++ ladder_paths l2.
Proof. unfold ladder_paths. by rewrite pr2_paths_app, fmap_app. Qed.

Lemma pr2_paths_no_names lines :
  (∀ line, line ∈ lines → is_header line = true → header_names line = []) →
  concat (pr2_paths lines) = [].
Proof.
  induction lines as [|l lines IH]; intros Hall; [done|].
  rewrite pr2_paths_cons. destruct (is_header l) eqn:Hh.
  - simpl. rewrite (Hall l) by (done || apply list_elem_of_here). simpl.
    apply IH. intros line Hin. apply Hall. by apply list_elem_of_further.
  - apply IH. intros line Hin. apply Hall. by apply list_elem_of_further.
Qed.

(** The lines up to the first header that has a lineage name. *)
Lemma first_has_names lines :
  (∃ line, line ∈ lines ∧ has_names line) →
  ∃ pre line0 post, lines = pre ++ line0 :: post ∧ has_names line0 ∧
    ∀ line, line ∈ pre → is_header line = true → header_names line = [].
Proof.
  induction lines as [|l lines IH]; intros (line & Hin & Hn).
  - by apply elem_of_nil in Hin.
  - destruct (decide (is_header l = true ∧ header_names l ≠ [])) as [Hl|Hl].
    + exists [], l, lines. splits; try done. intros ? Hx. by apply elem_of_nil in Hx.
    + apply elem_of_cons in Hin as [->|Hin]; [done|].
      destruct IH as (pre & line0 & post & -> & Hn0 & Hpre); [by exists line|].
      exists (l :: pre), line0, post. splits; try done.
      intros x Hx Hh. apply elem_of_cons in Hx as [->|Hx]; [|by apply Hpre].
      destruct (decide (header_names l = [])) as [?|Hne]; [done|].
      by destruct Hl.
Qed.

Lemma first_placed_grows x0 st st' : first_placed x0 st → pr2_grows st st' →
  heap_persists (pr_heap st) (pr_heap st') → first_placed x0 st'.
Proof.
  intros [Hi (nd0 & H0 & Hk)] [Hg _] Hp. split; [by apply Hg|].
  destruct (Hp 0%nat nd0 H0) as (nd' & H0' & _ & _ & _ & _ & [k Hpre]).
  exists nd'. split; [done|]. rewrite Hpre. destruct (node_children nd0); [done|]. done.
Qed.

Lemma pr2_first_insert idStart A st x0 rest st' n' :
  take (length ranks) (x0 :: rest) ∈ A → pr2_inv idStart A st →
  length (pr_heap st) = 1%nat → pr2_insert st (x0 :: rest) = (st', n') →
  first_placed x0 st'.
Proof.
  intros HpA Hb Hlen Hins.
  destruct (pr2_walk_ind idStart A
              (λ i st1 _, (i = 0%nat ∧ length (pr_heap st1) = 1%nat) ∨
                          ((0 < i)%nat ∧ first_placed x0 st1)) (x0 :: rest) HpA)
    with (st := st) (st' := st') (n' := n') as ([[Hz _]|[_ HR]] & _); try done.
  - intros i st1 last r x st2 n2 Hb1 Hl HR Hr Hx Hplace. right. split; [lia|].
    destruct HR as [[-> Hlen1]|[_ HR]].
    + simpl in Hr, Hx. injection Hr as <-. injection Hx as <-.
      assert (taxaByNameAndRank st1 !! ("domain", x0) = None) as Hnone.
      { destruct (taxaByNameAndRank st1 !! ("domain", x0)) as [n|] eqn:Hidx; [|done].
        destruct (pb_index _ _ _ _ _ Hb1 _ _ n Hidx) as (Hn0 & nd & Hnd & _).
        apply lookup_lt_Some in Hnd. lia. }
      rewrite pr2_place_new in Hplace by done. injection Hplace as <- <-. simpl.
      rewrite Hlen1. split; [apply lookup_insert_eq|].
      assert (last = 0%nat) as -> by lia.
      destruct (pb_root _ _ _ _ _ Hb1) as (r0 & Hr0 & _).
      eexists. split; [by apply graft_lookup_last|]. simpl.
      destruct (node_children r0) as [|c cs] eqn:Hk; [by rewrite Hlen1|].
      destruct (wf_child _ (pb_wf _ _ _ _ _ Hb1) 0%nat r0 c Hr0) as (cd & Hcd & Hcp).
      { rewrite Hk. apply list_elem_of_here. }
      pose proof (lookup_lt_Some _ _ _ Hcd) as Hclt.
      destruct (decide (c = 0%nat)) as [->|Hc0]; [|lia].
      destruct (wf_root _ (pb_wf _ _ _ _ _ Hb1)) as (? & ? & ?). congruence.
    + eapply first_placed_grows; [done| |].
      * by eapply pr2_grows_place.
      * by eapply pr2_place_persists.
  - by left.
Qed.

Lemma pr2_no_names_or_some (lines : list string) :
  (∃ line, line ∈ lines ∧ has_names line) ∨
  (∀ line, line ∈ lines → is_header line = true → header_names line = []).
Proof.
  destruct (decide (Exists has_names lines)) as [He|Hn].
  - left. by apply Exists_exists in He.
  - right. intros line Hin Hh. destruct (decide (header_names line = [])) as [?|Hne]; [done|].
    destruct Hn. apply Exists_exists. by exists line.
Qed.

(** The state after a fasta in which some header has a lineage name. *)
Lemma pr2_loop_first_placed lines fo idStart pre line0 post x0 rest :
  lines = pre ++ line0 :: post → is_header line0 = true →
  header_names line0 = x0 :: rest →
  (∀ line, line ∈ pre → is_header line = true → header_names line = []) →
  ∃ st, pr2_loop lines fo idStart = Ok st ∧
        pr2_inv idStart (ladder_paths lines) st ∧ first_placed x0 st ∧
        first_taxon lines = Some x0.
Proof.
  intros -> Hh0 Hn0 Hpre. set (A := ladder_paths (pre ++ line0 :: post)).
  assert (∀ p, p ∈ ladder_paths pre → p ∈ A) as HApre.
  { intros p Hp. unfold A. rewrite ladder_paths_app. apply elem_of_app. by left. }
  assert (take (length ranks) (header_names line0) ∈ A) as HA0.
  { unfold A. rewrite ladder_paths_app, ladder_paths_cons, Hh0.
    apply elem_of_app. right. apply list_elem_of_here. }
  assert (∀ p, p ∈ ladder_paths post → p ∈ A) as HApost.
  { intros p Hp. unfold A. rewrite ladder_paths_app, ladder_paths_cons, Hh0.
    apply elem_of_app. right. by apply list_elem_of_further. }
  rewrite pr2_loop_unfold, foldM_app.
  destruct (pr2_lines_no_names fo pre Hpre (pr2_init idStart).1) as (sta & Hfa & Hha).
  rewrite Hfa. cbn [mbind result_bind foldM].
  destruct (pr2_lines_persist idStart A fo pre _ sta HApre (pr2_init_inv idStart A) Hfa)
    as [_ Hba].
  destruct (pr2_line_step fo sta line0) as (stc & Hline & Hstep).
  rewrite Hh0 in Hstep. destruct Hstep as (st1 & n1 & Hins & Hh1 & Hx1 & Hnx1 & _).
  rewrite Hline. cbn [mbind result_bind].
  rewrite Hn0 in Hins, HA0.
  pose proof (pr2_first_insert idStart A sta x0 rest st1 n1 HA0 Hba
                ltac:(by rewrite Hha) Hins) as Hfp1.
  destruct (pr2_insert_inv idStart A sta _ HA0 Hba st1 n1 Hins) as (Hb1 & _).
  assert (pr2_inv idStart A stc) as Hbc.
  { unfold pr2_inv. by rewrite Hh1, Hx1, Hnx1. }
  assert (first_placed x0 stc) as Hfpc.
  { unfold first_placed. by rewrite Hh1, Hx1. }
  destruct (pr2_lines_inv idStart A fo post HApost stc Hbc)
    as (st & Hf & Hb & Hg & _).
  destruct (pr2_lines_persist idStart A fo post stc st HApost Hbc Hf) as [Hp _].
  exists st. splits; try done.
  - by eapply first_placed_grows.
  - unfold first_taxon. rewrite pr2_paths_app, concat_app, pr2_paths_no_names by done.
    rewrite pr2_paths_cons, Hh0, Hn0. done.
Qed.

(** The two ways a call of [buildPR2Tree] ends. *)
Lemma pr2_build_cases (lines : list string) (fastaout : bool) (idStart : Z) :
  ((∃ line, line ∈ lines ∧ has_names line) ∧
   ∃ b, buildPR2Tree lines fastaout idStart = Ok b) ∨
  ((∀ line, line ∈ lines → is_header line = true → header_names line = []) ∧
   buildPR2Tree lines fastaout idStart = Raise IndexError).
Proof.
  destruct (pr2_no_names_or_some lines) as [Hsome|Hnone].
  - left. split; [done|].
    destruct (first_has_names lines Hsome) as (pre & line0 & post & Hl & [Hh0 Hn0] & Hpre).
    destruct (header_names line0) as [|x0 rest] eqn:Hnames; [done|].
    destruct (pr2_loop_first_placed lines fastaout idStart pre line0 post x0 rest
                Hl Hh0 Hnames Hpre) as (st & Hloop & Hb & [_ (nd0 & H0 & Hk)] & _).
    rewrite (buildPR2Tree_unfold _ _ _ _ Hloop), pr2_finish_spec.
    rewrite (obj_lookup _ _ _ H0).
    destruct (node_children nd0) as [|c [|c' cs]]; [done| |]; by eexists.
  - right. split; [done|].
    destruct (pr2_lines_no_names fastaout lines Hnone (pr2_init idStart).1)
      as (st & Hf & Hh).
    rewrite <- pr2_loop_unfold in Hf.
    by rewrite (buildPR2Tree_unfold _ _ _ _ Hf), pr2_finish_spec, Hh.
Qed.

(** X1.  [buildPR2Tree] returns exactly when some header line of the fasta
    carries a lineage name; the only exception it raises is IndexError. *)
Theorem pr2_returns_iff_some_name (lines : list string) (fastaout : bool) (idStart : Z) :
  ((∃ b, buildPR2Tree lines fastaout idStart = Ok b) ↔
   ∃ line, line ∈ lines ∧ has_names line) ∧
  (∀ e, buildPR2Tree lines fastaout idStart = Raise e → e = IndexError).
Proof.
  destruct (pr2_build_cases lines fastaout idStart) as [[Hsome [b Hb]]|[Hnone Hraise]].
  - rewrite Hb. split; [|done]. split; [done|]. intros _. by exists b.
  - rewrite Hraise. split; [|by intros e [= <-]]. split; [by intros [b ?]|].
    intros (line & Hin & Hh' & Hn). by destruct Hn, (Hnone line).
Qed.

(** X2.  What [buildPR2Tree] reports as root is always the node created
    first: it stands at position 1, has the id [idStart + 1], the rank
    "domain", the synthetic root as parent, and the first lineage name of
    the fasta as name. *)
Theorem pr2_reported_root_is_first_node (lines : list string) (fastaout : bool)
    (idStart : Z) (b : built) :
  buildPR2Tree lines fastaout idStart = Ok b →
  b_root b = 1%nat ∧
  ∃ nd, b_heap b !! 1%nat = Some nd ∧ node_id nd = IdInt (idStart + 1) ∧
        node_rank nd = Some "domain" ∧ node_parent nd = Some 0%nat ∧
        first_taxon lines = Some (node_name nd).
Proof.
  intros Hbuild.
  destruct (pr2_no_names_or_some lines) as [Hsome|Hnone].
  - destruct (first_has_names lines Hsome) as (pre & line0 & post & Hl & [Hh0 Hn0] & Hpre).
    destruct (header_names line0) as [|x0 rest] eqn:Hnames; [done|].
    destruct (pr2_loop_first_placed lines fastaout idStart pre line0 post x0 rest
                Hl Hh0 Hnames Hpre) as (st & Hloop & Hb & [Hidx (nd0 & H0 & Hk)] & Hft).
    rewrite (buildPR2Tree_unfold _ _ _ _ Hloop), pr2_finish_spec in Hbuild.
    rewrite (obj_lookup _ _ _ H0) in Hbuild.
    assert (b_root b = 1%nat ∧ b_heap b = pr_heap st) as [-> ->].
    { destruct (node_children nd0) as [|c [|c' cs]]; [done| |];
        simpl in Hk; injection Hk as ->; by injection Hbuild as <-. }
    split; [done|].
    destruct (pb_index _ _ _ _ _ Hb _ _ _ Hidx) as (_ & nd & Hnd & Hrk & Hnm).
    exists nd. splits; try done.
    + by rewrite (pb_ids _ _ _ _ _ Hb 1%nat nd Hnd).
    + destruct (wf_parent _ (pb_wf _ _ _ _ _ Hb) 1%nat nd Hnd) as (p & pd & Hp & Hlt & _);
        [done|]. rewrite Hp. f_equal. lia.
    + by rewrite Hnm.
  - destruct (pr2_lines_no_names fastaout lines Hnone (pr2_init idStart).1)
      as (st & Hf & Hh).
    rewrite <- pr2_loop_unfold in Hf.
    rewrite (buildPR2Tree_unfold _ _ _ _ Hf), pr2_finish_spec, Hh in Hbuild. done.
Qed.

Lemma pr2_reported_root_is_first_node_witness :
  ∃ b, buildPR2Tree ex_pr2_lines false 100 = Ok b ∧ b_root b = 1%nat ∧
       node_id (obj (b_heap b) 1) = IdInt 101 ∧
       first_taxon ex_pr2_lines = Some "Eukaryota".
Proof.
  eexists.
  assert (buildPR2Tree ex_pr2_lines false 100 = Ok _) as Hb by (vm_compute; reflexivity).
  destruct (pr2_reported_root_is_first_node _ _ _ _ Hb) as (Hr & nd & Hnd & Hid & _).
  splits; [exact Hb|exact Hr| |reflexivity].
  rewrite (obj_lookup _ _ _ Hnd). exact Hid.
Defined.

(** X3.  In the tree of [buildPR2Tree] the rank of a node is the ladder
    rank of its depth, whatever the lineages are: a node at depth i+1 has
    the rank number i of the ladder, no node is deeper than the eight
    ranks, and the nodes of rank "domain" are the children of the root. *)
Theorem pr2_rank_is_depth (lines : list string) (fastaout : bool) (idStart : Z) :
  ∃ st, pr2_loop lines fastaout idStart = Ok st ∧
    ∀ n nd, pr_heap st !! n = Some nd → n ≠ 0%nat →
      (∃ i, length (lineage (pr_heap st) n) = S i ∧ node_rank nd = ranks !! i ∧
            (i < length ranks)%nat) ∧
      (length (lineage (pr_heap st) n) ≤ length ranks)%nat ∧
      (node_rank nd = Some "domain" ↔ node_parent nd = Some 0%nat).
Proof.
  destruct (pr2_loop_inv lines fastaout idStart) as (st & Hloop & Hb & _).
  exists st. split; [done|].
  assert (rank_is_depth (pr_heap st)) as Hd.
  { rewrite pr2_loop_unfold in Hloop.
    apply (pr2_lines_ind idStart (ladder_paths lines) fastaout
             (λ st1, rank_is_depth (pr_heap st1)) lines (λ p H, H))
      with (st := (pr2_init idStart).1); try done.
    - intros st1 st2 Hh _ _ HJ. by rewrite Hh.
    - intros st1 p st2 n2 HpA Hb1 HJ Hins. by eapply pr2_insert_rank_depth.
    - apply pr2_init_inv.
    - intros [|n] nd Hn Hn0; [done|]. simpl in Hn. by rewrite lookup_nil in Hn. }
  intros n nd Hn Hn0. destruct (Hd n nd Hn Hn0) as (i & Hl & Hrk & Hi).
  pose proof (pb_wf _ _ _ _ _ Hb) as Hwf.
  splits.
  - by exists i.
  - lia.
  - destruct (wf_parent _ Hwf n nd Hn Hn0) as (p & pd & Hp & Hlt & Hpd & _).
    rewrite (lineage_step _ n nd p Hwf Hn Hp), length_app in Hl. simpl in Hl.
    rewrite Hrk, Hp. split.
    + intros Hdom. assert (i = 0%nat) as ->.
      { eapply NoDup_lookup; [apply ranks_NoDup|done|done]. }
      destruct (decide (p = 0%nat)) as [->|Hp0]; [done|].
      pose proof (lineage_nonroot _ p pd Hwf Hpd Hp0) as Hne.
      destruct (lineage (pr_heap st) p); [done|simpl in Hl; lia].
    + intros [= ->]. rewrite lineage_root in Hl by done. simpl in Hl.
      by replace i with 0%nat by lia.
Qed.

(** ** Insertion-ordered dictionaries *)

Section DictFacts.
Context {K V : Type} `{EqDecision K}.
Implicit Types (d : list (K * V)) (k : K) (v : V).

Lemma dict_set_new d k v : k ∉ d.*1 → dict_set d k v = d ++ [(k, v)].
Proof.
  induction d as [|[k' v'] d IH]; intros Hk; simpl; [done|].
  destruct (decide (k' = k)) as [->|Hne]; [destruct Hk; simpl; apply list_elem_of_here|].
  rewrite IH; [done|]. intros Hin. apply Hk. simpl. by apply list_elem_of_further.
Qed.

Lemma dict_set_keys_old d k v : k ∈ d.*1 → (dict_set d k v).*1 = d.*1.
Proof.
  induction d as [|[k' v'] d IH]; intros Hk; simpl; [by apply elem_of_nil in Hk|].
  destruct (decide (k' = k)) as [->|Hne]; [done|]. simpl. f_equal. apply IH.
  simpl in Hk. apply elem_of_cons in Hk. by destruct Hk as [->|].
Qed.

Lemma dict_set_keys d k v :
  (dict_set d k v).*1 = if decide (k ∈ d.*1) then d.*1 else d.*1 ++ [k].
Proof.
  destruct (decide (k ∈ d.*1)) as [Hin|Hout].
  - by apply dict_set_keys_old.
  - rewrite dict_set_new by done. by rewrite fmap_app.
Qed.

Lemma dict_set_NoDup d k v : NoDup d.*1 → NoDup (dict_set d k v).*1.
Proof.
  intros Hnd. rewrite dict_set_keys. destruct (decide (k ∈ d.*1)); [done|].
  apply NoDup_app. splits; [done| |apply NoDup_singleton].
  intros x Hx Hx'. apply list_elem_of_singleton in Hx'. by subst.
Qed.

Lemma dict_get_set d k v k' :
  dict_get (dict_set d k v) k' = if decide (k = k') then Some v else dict_get d k'.
Proof.
  induction d as [|[k1 v1] d IH]; simpl.
  - by destruct (decide (k = k')).
  - destruct (decide (k1 = k)) as [->|Hne]; simpl.
    + by destruct (decide (k = k')).
    + destruct (decide (k1 = k')) as [->|Hne'].
      * by destruct (decide (k = k')) as [->|].
      * done.
Qed.

Lemma dict_set_elem d k v k' v' :
  (k', v') ∈ dict_set d k v → (k', v') = (k, v) ∨ (k', v') ∈ d.
Proof.
  induction d as [|[k1 v1] d IH]; simpl; intros Hin.
  - apply list_elem_of_singleton in Hin. by left.
  - destruct (decide (k1 = k)) as [->|Hne]; apply elem_of_cons in Hin;
      destruct Hin as [Heq|Hin]; try by left.
    + right. by apply list_elem_of_further.
    + right. rewrite Heq. apply list_elem_of_here.
    + destruct (IH Hin) as [?|?]; [by left|right]. by apply list_elem_of_further.
Qed.

Context {X : Type} (f : X → K) (g : X → V).

Lemma dict_fill_snoc d l x :
  dict_fill f g d (l ++ [x]) = dict_set (dict_fill f g d l) (f x) (g x).
Proof. unfold dict_fill. by rewrite foldl_app. Qed.

Lemma dict_fill_keys d l k :
  k ∈ (dict_fill f g d l).*1 ↔ k ∈ d.*1 ∨ k ∈ f <$> l.
Proof.
  induction l as [|x l IH] using rev_ind.
  - simpl. rewrite elem_of_nil. tauto.
  - rewrite dict_fill_snoc, dict_set_keys, fmap_app, elem_of_app. simpl.
    rewrite list_elem_of_singleton.
    destruct (decide (f x ∈ (dict_fill f g d l).*1)) as [Hin|Hout].
    + rewrite IH. split; [tauto|]. intros [?|[?| ->]]; [tauto|tauto|by apply IH].
    + rewrite elem_of_app, list_elem_of_singleton, IH. tauto.
Qed.

Lemma dict_fill_NoDup d l : NoDup d.*1 → NoDup (dict_fill f g d l).*1.
Proof.
  intros Hd. induction l as [|x l IH] using rev_ind; [done|].
  rewrite dict_fill_snoc. by apply dict_set_NoDup.
Qed.

Lemma dict_fill_distinct d l :
  NoDup (d.*1 ++ (f <$> l)) → dict_fill f g d l = d ++ ((λ x, (f x, g x)) <$> l).
Proof.
  induction l as [|x l IH] using rev_ind; intros Hnd.
  - simpl. by rewrite app_nil_r.
  - rewrite fmap_app, app_assoc in Hnd. apply NoDup_app in Hnd.
    destruct Hnd as (Hnd & Hdis & _).
    rewrite dict_fill_snoc, IH by done. rewrite dict_set_new.
    + by rewrite fmap_app, app_assoc.
    + intros Hin. apply (Hdis (f x)); [|simpl; apply list_elem_of_here].
      rewrite fmap_app in Hin. rewrite <- list_fmap_compose in Hin. done.
Qed.

Lemma dict_fill_last d l1 x l2 :
  f x ∉ f <$> l2 → dict_get (dict_fill f g d (l1 ++ x :: l2)) (f x) = Some (g x).
Proof.
  induction l2 as [|y l2 IH] using rev_ind; intros Hout.
  - rewrite dict_fill_snoc, dict_get_set. by rewrite decide_True.
  - rewrite fmap_app in Hout. simpl in Hout.
    replace (l1 ++ x :: l2 ++ [y]) with ((l1 ++ x :: l2) ++ [y])
      by (by rewrite <- app_assoc).
    rewrite dict_fill_snoc, dict_get_set. rewrite decide_False.
    + apply IH. intros Hin. apply Hout. apply elem_of_app. by left.
    + intros Heq. apply Hout. apply elem_of_app. right. rewrite Heq.
      apply list_elem_of_here.
Qed.

Lemma dict_fill_elem d l k v :
  (k, v) ∈ dict_fill f g d l → (k, v) ∈ d ∨ ∃ x, x ∈ l ∧ k = f x ∧ v = g x.
Proof.
  induction l as [|x l IH] using rev_ind; intros Hin; [by left|].
  rewrite dict_fill_snoc in Hin. apply dict_set_elem in Hin.
  destruct Hin as [Heq|Hin]; [injection Heq as -> ->|].
  - right. exists x. split; [|done]. apply elem_of_app. right. apply list_elem_of_here.
  - destruct (IH Hin) as [?|(y & Hy & ? & ?)]; [by left|right].
    exists y. split; [|done]. apply elem_of_app. by left.
Qed.

End DictFacts.

(** ** The record map and the rewritten fasta of buildPR2Tree *)

(** The walk along a header ends on the root when the header has no name,
    and otherwise on the node the index holds for its last pair. *)
Lemma pr2_insert_end idStart A st p st' n' :
  take (length ranks) p ∈ A → pr2_inv idStart A st → pr2_insert st p = (st', n') →
  match last (zip ranks p) with
  | None => n' = 0%nat
  | Some rx => taxaByNameAndRank st' !! rx = Some n'
  end.
Proof.
  intros HpA Hb Hins.
  destruct (pr2_walk_ind idStart A
              (λ i st1 n, match i with
                          | O => n = 0%nat
                          | S j => ∃ rx, zip ranks p !! j = Some rx ∧
                                         taxaByNameAndRank st1 !! rx = Some n
                          end) p HpA)
    with (st := st) (st' := st') (n' := n') as (HR & _); try done.
  - intros i st1 last r x st2 n2 Hb1 Hl _ Hr Hx Hplace. exists (r, x). split.
    + apply lookup_zip_with_Some. by exists r, x.
    + destruct (taxaByNameAndRank st1 !! (r, x)) as [n|] eqn:Hidx.
      * rewrite (pr2_place_found _ _ _ _ _ Hidx) in Hplace. by injection Hplace as <- <-.
      * rewrite pr2_place_new in Hplace by done. injection Hplace as <- <-.
        simpl. apply lookup_insert_eq.
  - clear Hins HpA. revert HR. generalize (zip ranks p). intros l HR.
    rewrite last_lookup. destruct (length l) as [|j] eqn:Hlen.
    + apply length_zero_iff_nil in Hlen. by rewrite Hlen.
    + cbn [pred]. destruct HR as (rx & -> & Hrx). done.
Qed.

(** The id of the node a header was mapped to is found again by walking
    the header in any later state. *)
Lemma pr2_taxid_stable idStart A st line st1 n1 stf :
  take (length ranks) (header_names line) ∈ A → pr2_inv idStart A st →
  pr2_insert st (header_names line) = (st1, n1) →
  pr2_inv idStart A stf → pr2_grows st1 stf →
  pr2_taxid stf line = node_id (obj (pr_heap st1) n1).
Proof.
  intros HpA Hb Hins Hbf Hg. unfold pr2_taxid.
  destruct (pr2_insert stf (header_names line)) as [st2 n2] eqn:Hins2. simpl.
  pose proof (pr2_insert_end _ _ _ _ _ _ HpA Hb Hins) as He1.
  pose proof (pr2_insert_end _ _ _ _ _ _ HpA Hbf Hins2) as He2.
  destruct (pr2_insert_inv idStart A st _ HpA Hb st1 n1 Hins) as (Hb1 & _).
  destruct (pr2_insert_inv idStart A stf _ HpA Hbf st2 n2 Hins2) as (_ & _ & Hg2 & _).
  destruct (last (zip ranks (header_names line))) as [[r x]|].
  - assert (n2 = n1) as ->.
    { apply Hg in He1. apply Hg2 in He1. congruence. }
    destruct (pb_index _ _ _ _ _ Hb1 _ _ _ He1) as (Hn0 & nd & Hnd & _).
    destruct (pb_index _ _ _ _ _ Hbf _ _ _ (proj1 Hg _ _ He1)) as (_ & ndf & Hndf & _).
    rewrite (obj_lookup _ _ _ Hnd), (obj_lookup _ _ _ Hndf).
    rewrite (pb_ids _ _ _ _ _ Hb1 _ _ Hnd Hn0), (pb_ids _ _ _ _ _ Hbf _ _ Hndf Hn0). done.
  - subst. destruct (pb_root _ _ _ _ _ Hb1) as (r1 & Hr1 & Hid1).
    destruct (pb_root _ _ _ _ _ Hbf) as (rf & Hrf & Hid).
    by rewrite (obj_lookup _ _ _ Hr1), (obj_lookup _ _ _ Hrf), Hid1, Hid.
Qed.

Lemma pr2_filter_cons (line : string) lines :
  filter (λ l, is_header l = true) (line :: lines) =
    if is_header line then line :: filter (λ l, is_header l = true) lines
    else filter (λ l, is_header l = true) lines.
Proof.
  rewrite filter_cons. destruct (is_header line); by destruct (decide _).
Qed.

Lemma pr2_lines_taxmap idStart A fo lines :
  (∀ p, p ∈ ladder_paths lines → p ∈ A) →
  ∀ st0 st stf, pr2_inv idStart A st0 → foldM (pr2_line fo 0) st0 lines = Ok st →
    pr2_inv idStart A stf → pr2_grows st stf →
    taxMap st = dict_fill header_hitid (pr2_taxid stf) (taxMap st0)
                  (filter (λ l, is_header l = true) lines).
Proof.
  induction lines as [|line lines IH]; intros HA st0 st stf Hb Hf Hbf Hg.
  - simpl in Hf. by injection Hf as <-.
  - cbn [foldM] in Hf. rewrite ladder_paths_cons in HA. rewrite pr2_filter_cons.
    destruct (pr2_line_step fo st0 line) as (st2 & Hline & Hstep).
    rewrite Hline in Hf. cbn [mbind result_bind] in Hf.
    destruct (is_header line) eqn:Hh.
    + destruct Hstep as (st1 & n1 & Hi & Hh2 & Hx2 & Hn2 & Htm & _).
      assert (take (length ranks) (header_names line) ∈ A) as HpA.
      { apply HA. apply list_elem_of_here. }
      assert (∀ p, p ∈ ladder_paths lines → p ∈ A) as HA'.
      { intros p Hp. apply HA. by apply list_elem_of_further. }
      destruct (pr2_insert_inv idStart A st0 _ HpA Hb st1 n1 Hi) as (Hb1 & _).
      assert (pr2_inv idStart A st2) as Hb2.
      { unfold pr2_inv. by rewrite Hh2, Hx2, Hn2. }
      destruct (pr2_lines_inv idStart A fo lines HA' st2 Hb2) as (st' & Hf' & _ & Hg2 & _).
      rewrite Hf in Hf'. injection Hf' as <-.
      rewrite (IH HA' st2 st stf Hb2 Hf Hbf Hg). unfold dict_fill at 2. cbn [foldl].
      fold (dict_fill header_hitid (pr2_taxid stf)
              (dict_set (taxMap st0) (header_hitid line) (pr2_taxid stf line))
              (filter (λ l, is_header l = true) lines)).
      rewrite Htm. f_equal. f_equal. symmetry.
      apply (pr2_taxid_stable idStart A st0 line st1 n1 stf); try done.
      apply (pr2_grows_trans _ st); [|done].
      destruct Hg2 as [Hgi Hgh]. split; [by rewrite <- Hx2|by rewrite <- Hh2].
    + destruct Hstep as (Hh2 & Hx2 & Hn2 & Htm & _).
      rewrite (IH HA st2 st stf); try done; [by rewrite Htm|].
      unfold pr2_inv. by rewrite Hh2, Hx2, Hn2.
Qed.

Lemma pr2_lines_out fo lines : ∀ st0 st, foldM (pr2_line fo 0) st0 lines = Ok st →
  outhandle st = outhandle st0 ++ (if fo then fasta_rewrite <$> lines else []).
Proof.
  induction lines as [|line lines IH]; intros st0 st Hf.
  - simpl in Hf. injection Hf as <-. destruct fo; by rewrite app_nil_r.
  - cbn [foldM] in Hf.
    destruct (pr2_line_step fo st0 line) as (st2 & Hline & Hstep).
    rewrite Hline in Hf. cbn [mbind result_bind] in Hf.
    rewrite (IH st2 st Hf), fmap_cons. unfold fasta_rewrite at 2.
    destruct (is_header line) eqn:Hh.
    + destruct Hstep as (st1 & n1 & _ & _ & _ & _ & _ & ->).
      destruct fo; [by rewrite <- app_assoc|by rewrite !app_nil_r].
    + destruct Hstep as (_ & _ & _ & _ & ->).
      destruct fo; [by rewrite <- app_assoc|by rewrite !app_nil_r].
Qed.

Lemma is_header_rewritten line : is_header (fasta_rewrite line) = is_header line.
Proof.
  unfold fasta_rewrite. destruct (is_header line) eqn:Hh; [|done]. done.
Qed.

Lemma pr2_build_fastaout lines fo idStart b : buildPR2Tree lines fo idStart = Ok b →
  b_fastaout b = if fo then fasta_rewrite <$> lines else [].
Proof.
  intros Hb. destruct (pr2_loop_inv lines fo idStart) as (st & Hloop & _).
  pose proof Hloop as Hf. rewrite pr2_loop_unfold in Hf.
  apply pr2_lines_out in Hf. simpl in Hf.
  rewrite (buildPR2Tree_unfold _ _ _ _ Hloop), pr2_finish_spec in Hb.
  destruct (node_children (obj (pr_heap st) 0)) as [|c [|c' cs]]; [done| |];
    injection Hb as <-; by rewrite <- Hf.
Qed.

(** X4.  With an output name given, the fasta [buildPR2Tree] writes has
    one line for each line read, in order: a header line becomes ">", the
    record id, a blank, the names joined by ";" and a newline, while every
    other line is copied unchanged, so that headers stay headers and
    sequence lines stay where they are; without a name nothing is written.
    The lines are written even if the function goes on to raise. *)
Theorem pr2_fastaout_content (lines : list string) (fastaout : bool) (idStart : Z) :
  ∃ st, pr2_loop lines fastaout idStart = Ok st ∧
    outhandle st = (if fastaout then fasta_rewrite <$> lines else []) ∧
    (fastaout = true → length (outhandle st) = length lines ∧
       ∀ i line, lines !! i = Some line →
         ∃ out, outhandle st !! i = Some out ∧ is_header out = is_header line ∧
                (is_header line = false → out = line) ∧
                (is_header line = true →
                   out = ">" +:+ header_hitid line +:+ " " +:+
                         join ";" (header_names line) +:+ NL)) ∧
    ∀ b, buildPR2Tree lines fastaout idStart = Ok b → b_fastaout b = outhandle st.
Proof.
  destruct (pr2_loop_inv lines fastaout idStart) as (st & Hloop & _).
  exists st. split; [done|].
  assert (outhandle st = if fastaout then fasta_rewrite <$> lines else []) as Hout.
  { pose proof Hloop as Hf. rewrite pr2_loop_unfold in Hf.
    by rewrite (pr2_lines_out _ _ _ _ Hf). }
  splits; [done| |].
  - intros ->. rewrite Hout. split; [by rewrite length_fmap|].
    intros i line Hi. exists (fasta_rewrite line). splits.
    + by rewrite list_lookup_fmap, Hi.
    + apply is_header_rewritten.
    + intros Hh. unfold fasta_rewrite. by rewrite Hh.
    + intros Hh. unfold fasta_rewrite. by rewrite Hh.
  - intros b Hb. rewrite (buildPR2Tree_unfold _ _ _ _ Hloop), pr2_finish_spec in Hb.
    destruct (node_children (obj (pr_heap st) 0)) as [|c [|c' cs]]; [done| |];
      by injection Hb as <-.
Qed.

(** X5.  The record map of [buildPR2Tree] is the dictionary obtained by
    setting, in file order, the record id of each header line to the id of
    the node at which the walk along the names of that header ends in the
    final tree; a walk that ends in the final tree creates nothing.  So a
    record id that occurs on several headers keeps the place of its first
    header and the taxon of its last one, and record ids that are all
    distinct give one entry per header, in file order. *)
Theorem pr2_taxmap_content (lines : list string) (fastaout : bool) (idStart : Z) :
  ∃ st, pr2_loop lines fastaout idStart = Ok st ∧
    let headers := filter (λ l, is_header l = true) lines in
    taxMap st = dict_fill header_hitid (pr2_taxid st) [] headers ∧
    (∀ line, line ∈ headers → (pr2_insert st (header_names line)).1 = st) ∧
    NoDup (taxMap st).*1 ∧
    (∀ k, k ∈ (taxMap st).*1 ↔ k ∈ pr2_hitids lines) ∧
    (∀ l1 line l2, headers = l1 ++ line :: l2 →
       header_hitid line ∉ header_hitid <$> l2 →
       dict_get (taxMap st) (header_hitid line) = Some (pr2_taxid st line)) ∧
    (NoDup (pr2_hitids lines) →
       taxMap st = (λ line, (header_hitid line, pr2_taxid st line)) <$> headers).
Proof.
  destruct (pr2_loop_inv lines fastaout idStart) as (st & Hloop & Hb & Hcov & _).
  exists st. split; [done|]. intros headers.
  assert (taxMap st = dict_fill header_hitid (pr2_taxid st) [] headers) as Htm.
  { pose proof Hloop as Hf. rewrite pr2_loop_unfold in Hf.
    apply (pr2_lines_taxmap idStart (ladder_paths lines) fastaout lines (λ p H, H)
             (pr2_init idStart).1 st st); try done. apply pr2_init_inv. }
  splits; [done| | | | |].
  - intros line Hin.
    destruct (pr2_insert_covered st 0%nat (zip ranks (header_names line))) as [n Hn].
    + apply Hcov. unfold pr2_paths. apply list_elem_of_fmap. by exists line.
    + unfold pr2_insert. by rewrite Hn.
  - rewrite Htm. apply dict_fill_NoDup. apply NoDup_nil_2.
  - intros k. rewrite Htm, dict_fill_keys. simpl. rewrite elem_of_nil. unfold pr2_hitids.
    fold headers. tauto.
  - intros l1 line l2 Hl Hout. rewrite Htm, Hl. by apply dict_fill_last.
  - intros Hnd. rewrite Htm. by rewrite dict_fill_distinct.
Qed.

(** ** The nodes the writer visits *)

Section Visited.
Implicit Types (h : heap) (n r : nat).

Lemma child_later h p pd c : wf_heap h → h !! p = Some pd → c ∈ node_children pd →
  (p < c)%nat ∧ ∃ cd, h !! c = Some cd ∧ node_parent cd = Some p.
Proof.
  intros Hwf Hp Hc. destruct (wf_child _ Hwf p pd c Hp Hc) as (cd & Hcd & Hcp).
  split; [|by exists cd].
  destruct (decide (c = 0%nat)) as [->|Hc0].
  - destruct (wf_root _ Hwf) as (? & ? & ?). congruence.
  - destruct (wf_parent _ Hwf c cd Hcd Hc0) as (q & qd & Hq & Hlt & _).
    assert (q = p) by congruence. lia.
Qed.

Lemma below_snoc h r p pd n : below h r p → h !! p = Some pd → n ∈ node_children pd →
  below h r n.
Proof.
  intros Hb. induction Hb as [r|r rd c m Hrd Hc Hb IH]; intros Hp Hn.
  - eapply below_step; [done|done|constructor].
  - eapply below_step; [done|done|]. by apply IH.
Qed.

(** Below [r] are [r] and the nodes whose parent is below [r]. *)
Lemma below_parent h r n : wf_heap h → below h r n →
  n = r ∨ ∃ nd p, h !! n = Some nd ∧ node_parent nd = Some p ∧ below h r p.
Proof.
  intros Hwf Hb. induction Hb as [r|r rd c n Hrd Hc Hb IH]; [by left|].
  right. destruct IH as [->|(nd & p & Hn & Hp & Hbp)].
  - destruct (child_later h r rd c Hwf Hrd Hc) as (_ & cd & Hcd & Hcp).
    exists cd, r. splits; [done|done|constructor].
  - exists nd, p. splits; [done|done|]. by eapply below_step.
Qed.

Lemma below_root h n : wf_heap h → (n < length h)%nat → below h 0 n.
Proof.
  intros Hwf. induction n as [n IH] using lt_wf_ind. intros Hn.
  destruct (decide (n = 0%nat)) as [->|Hn0]; [constructor|].
  destruct (lookup_lt_is_Some_2 h n Hn) as [nd Hnd].
  destruct (wf_parent _ Hwf n nd Hnd Hn0) as (p & pd & Hp & Hlt & Hpd & Hc).
  apply (below_snoc h 0 p pd n); [|done|done]. apply IH; [done|].
  by eapply lookup_lt_Some.
Qed.

(** Two nodes above a third are one above the other. *)
Lemma below_chain h a b x : wf_heap h → below h a x → below h b x →
  below h a b ∨ below h b a.
Proof.
  intros Hwf. revert a b. induction x as [x IH] using lt_wf_ind. intros a b Ha Hb.
  destruct (below_parent h a x Hwf Ha) as [->|(nd & p & Hx & Hp & Hap)]; [by right|].
  destruct (below_parent h b x Hwf Hb) as [->|(nd' & p' & Hx' & Hp' & Hbp)]; [by left|].
  assert (p' = p) as -> by congruence.
  apply (IH p); [|done|done].
  destruct (decide (x = 0%nat)) as [->|Hx0].
  - destruct (wf_root _ Hwf) as (? & ? & ?). congruence.
  - destruct (wf_parent _ Hwf x nd Hx Hx0) as (q & qd & Hq & Hlt & _).
    assert (q = p) by congruence. lia.
Qed.

(** Two children of one node have nothing below them in common. *)
Lemma below_siblings h p pd c1 c2 x : wf_heap h → h !! p = Some pd →
  c1 ∈ node_children pd → c2 ∈ node_children pd →
  below h c1 x → below h c2 x → c1 = c2.
Proof.
  intros Hwf Hp Hc1 Hc2 H1 H2.
  destruct (child_later h p pd c1 Hwf Hp Hc1) as (Hlt1 & cd1 & Hcd1 & Hcp1).
  destruct (child_later h p pd c2 Hwf Hp Hc2) as (Hlt2 & cd2 & Hcd2 & Hcp2).
  assert (∀ a b ad bd, h !! a = Some ad → h !! b = Some bd → (p < a)%nat →
            node_parent bd = Some p → below h a b → a = b) as Haux.
  { intros a b ad bd Had Hbd Hpa Hbp Hab.
    destruct (below_parent h a b Hwf Hab) as [->|(nd & q & Hb & Hq & Haq)]; [done|].
    assert (q = p) as -> by congruence.
    pose proof (below_le h Hwf _ _ Haq). lia. }
  destruct (below_chain h c1 c2 x Hwf H1 H2) as [H|H].
  - by apply (Haux c1 c2 cd1 cd2).
  - symmetry. by apply (Haux c2 c1 cd2 cd1).
Qed.

Lemma flat_map_bind {X Y : Type} (f : X → list Y) (l : list X) : flat_map f l = l ≫= f.
Proof. induction l as [|x l IH]; [done|]. simpl. by rewrite IH. Qed.

Lemma treeGenerator_fuel_sound h : wf_heap h →
  ∀ fuel r n, (r < length h)%nat → n ∈ treeGenerator_fuel fuel h r → below h r n.
Proof.
  intros Hwf fuel. induction fuel as [|f IH]; intros r n Hr Hn; simpl in Hn.
  - by apply elem_of_nil in Hn.
  - apply elem_of_cons in Hn as [->|Hn]; [constructor|].
    rewrite flat_map_bind in Hn. apply list_elem_of_bind in Hn as (c & Hn & Hc).
    destruct (lookup_lt_is_Some_2 h r Hr) as [rd Hrd].
    rewrite (obj_lookup _ _ _ Hrd) in Hc.
    destruct (child_later h r rd c Hwf Hrd Hc) as (_ & cd & Hcd & _).
    eapply below_step; [done|done|]. apply IH; [|done]. by eapply lookup_lt_Some.
Qed.

Lemma treeGenerator_fuel_NoDup h : wf_heap h →
  ∀ fuel r, (r < length h)%nat → NoDup (treeGenerator_fuel fuel h r).
Proof.
  intros Hwf fuel. induction fuel as [|f IH]; intros r Hr; simpl; [apply NoDup_nil_2|].
  destruct (lookup_lt_is_Some_2 h r Hr) as [rd Hrd].
  apply NoDup_cons. split.
  - intros Hin. pose proof (treeGenerator_children_later h f r r Hwf Hr Hin). lia.
  - rewrite flat_map_bind, (obj_lookup _ _ _ Hrd). apply NoDup_bind.
    + intros c1 c2 x Hc1 Hc2 H1 H2.
      destruct (child_later h r rd c1 Hwf Hrd Hc1) as (_ & cd1 & Hcd1 & _).
      destruct (child_later h r rd c2 Hwf Hrd Hc2) as (_ & cd2 & Hcd2 & _).
      apply (below_siblings h r rd c1 c2 x Hwf Hrd Hc1 Hc2).
      * apply (treeGenerator_fuel_sound h Hwf f); [by eapply lookup_lt_Some|done].
      * apply (treeGenerator_fuel_sound h Hwf f); [by eapply lookup_lt_Some|done].
    + intros c Hc. destruct (child_later h r rd c Hwf Hrd Hc) as (_ & cd & Hcd & _).
      apply IH. by eapply lookup_lt_Some.
    + by apply (wf_nodup _ Hwf r rd).
Qed.

(** The traversal from a node lists the nodes below it, each once. *)
Lemma treeGenerator_exact h r : wf_heap h → (r < length h)%nat →
  NoDup (treeGenerator h r) ∧ ∀ n, n ∈ treeGenerator h r ↔ below h r n.
Proof.
  intros Hwf Hr. split; [by apply treeGenerator_fuel_NoDup|]. intros n. split.
  - by apply treeGenerator_fuel_sound.
  - intros Hb. apply treeGenerator_fuel_below; [done|done|].
    pose proof (below_valid h Hwf r n Hr Hb). lia.
Qed.

End Visited.

Lemma below_child h r n : below h r n →
  n = r ∨ ∃ rd c, h !! r = Some rd ∧ c ∈ node_children rd ∧ below h c n.
Proof. intros Hb. destruct Hb as [r|r rd c n Hrd Hc Hb]; [by left|right]. by exists rd, c. Qed.

(** The writer succeeds on a tree and writes one line per visited node. *)
Lemma writeDumpFiles_lines (taxon_ranks : list string) h root : wf_heap h → (root < length h)%nat →
  ∃ nodes names, writeDumpFiles taxon_ranks h root = Ok (nodes, names) ∧
    Forall2 (λ n ln, ∃ pid, dump_parent h root n = Ok pid ∧
               ln = nodes_line (node_id (obj h n)) pid
                      (dump_rank taxon_ranks (node_rank (obj h n))))
            (treeGenerator h root) nodes ∧
    Forall2 (λ n ln, ln = names_line (node_id (obj h n)) (node_name (obj h n)))
            (treeGenerator h root) names.
Proof.
  intros Hwf Hroot.
  assert (∀ n, n ∈ treeGenerator h root → ∃ pid, dump_parent h root n = Ok pid) as Hok.
  { intros n Hn. unfold dump_parent.
    destruct (decide (n = root)) as [->|Hne]; [by eexists|].
    destruct (treeGenerator_fuel_elem h Hwf _ root n Hroot Hn)
      as [[->|(_ & p & pd & _ & _ & ->)] _]; [done|by eexists]. }
  destruct (dump_fold_ok taxon_ranks h root _ Hok ([], [])) as ([ns ms] & Hf).
  destruct (dump_fold taxon_ranks h root _ _ _ _ Hf) as (ns' & ms' & Hns & Hms & Hn & Hm).
  simpl in Hns, Hms. subst ns' ms'. by exists ns, ms.
Qed.

(** X6.  On what either builder returned, [writeDumpFiles] visits exactly
    the nodes that are the reported root or below it, each of them once,
    and writes for the node visited i-th the i-th line of the nodes file
    and the i-th line of the names file: both files have one line per such
    node and no other line. *)
Theorem dump_one_line_per_node (taxon_ranks : list string) (b : built) :
  built_by b →
  ∃ nodes names,
    writeDumpFiles taxon_ranks (b_heap b) (b_root b) = Ok (nodes, names) ∧
    let visited := treeGenerator (b_heap b) (b_root b) in
    NoDup visited ∧
    (∀ n, n ∈ visited ↔ below (b_heap b) (b_root b) n) ∧
    length nodes = length visited ∧ length names = length visited ∧
    ∀ i n, visited !! i = Some n →
      let nd := obj (b_heap b) n in
      names !! i = Some (names_line (node_id nd) (node_name nd)) ∧
      ∃ pid, nodes !! i =
               Some (nodes_line (node_id nd) pid (dump_rank taxon_ranks (node_rank nd))).
Proof.
  intros Hby. destruct (built_by_wf b Hby) as [Hwf Hroot].
  destruct (writeDumpFiles_lines taxon_ranks _ _ Hwf Hroot) as (nodes & names & Hw & Hn & Hm).
  destruct (treeGenerator_exact _ _ Hwf Hroot) as [Hnd Hex].
  exists nodes, names. split; [done|]. cbn zeta. splits; try done.
  - symmetry. by eapply Forall2_length.
  - symmetry. by eapply Forall2_length.
  - intros i n Hi. split.
    + destruct (Forall2_lookup_l _ _ _ _ _ Hm Hi) as (ln & Hln & ->). done.
    + destruct (Forall2_lookup_l _ _ _ _ _ Hn Hi) as (ln & Hln & pid & _ & ->).
      by exists pid.
Qed.

Lemma dump_one_line_per_node_witness :
  ∃ b nodes names,
    buildPR2Tree ex_pr2_lines false 0 = Ok b ∧
    writeDumpFiles ex_vocabulary (b_heap b) (b_root b) = Ok (nodes, names) ∧
    length nodes = 4%nat ∧ length names = 4%nat.
Proof.
  eexists.
  assert (buildPR2Tree ex_pr2_lines false 0 = Ok _) as Hb by (vm_compute; reflexivity).
  destruct (dump_one_line_per_node ex_vocabulary _ (or_introl (ex_intro _ _ (ex_intro _ _
              (ex_intro _ _ Hb))))) as (nodes & names & Hw & _ & _ & Hn & Hm & _).
  exists nodes, names. split; [exact Hb|]. split; [exact Hw|].
  split; [exact Hn|exact Hm].
Defined.

(** X7.  What the dump of a [buildPR2Tree] result covers.  The synthetic
    root is never visited and no visited node has the id "root", which is
    the value the record map gives to a header without names; the visited
    nodes have pairwise different ids.  If no warning was logged, every
    node other than the synthetic root is visited.  If the warning was
    logged, the second child of the synthetic root is a node that is not
    visited. *)
Theorem pr2_dump_coverage (lines : list string) (fastaout : bool) (idStart : Z)
    (b : built) :
  buildPR2Tree lines fastaout idStart = Ok b →
  let h := b_heap b in
  let visited := treeGenerator h (b_root b) in
  (0%nat ∉ visited) ∧
  (∀ n, n ∈ visited → node_id (obj h n) = IdInt (idStart + Z.of_nat n)) ∧
  NoDup ((λ n, node_id (obj h n)) <$> visited) ∧
  (b_log b = [] →
     ∀ n, (0 < n < length h)%nat → n ∈ visited) ∧
  (b_log b ≠ [] →
     ∃ n nd, h !! n = Some nd ∧ node_parent nd = Some 0%nat ∧ n ∉ visited).
Proof.
  intros Hbuild. cbn zeta.
  destruct (pr2_loop_inv lines fastaout idStart) as (st & Hloop & Hinv & _).
  rewrite (buildPR2Tree_unfold _ _ _ _ Hloop), pr2_finish_spec in Hbuild.
  pose proof (pb_wf _ _ _ _ _ Hinv) as Hwf.
  destruct (wf_root _ Hwf) as (r & Hr & Hrp).
  rewrite (obj_lookup _ _ _ Hr) in Hbuild.
  destruct (node_children r) as [|c rest] eqn:Hk; [done|].
  assert (b_heap b = pr_heap st ∧ b_root b = c ∧
          (b_log b = [] ↔ rest = [])) as (-> & -> & Hlog).
  { destruct rest; injection Hbuild as <-; by splits. }
  clear Hbuild. set (h := pr_heap st) in *.
  destruct (child_later h 0 r c Hwf Hr) as (Hc0 & cd & Hcd & Hcp);
    [rewrite Hk; apply list_elem_of_here|].
  pose proof (lookup_lt_Some _ _ _ Hcd) as Hclt.
  destruct (treeGenerator_exact h c Hwf Hclt) as [Hnd Hex].
  assert (∀ n, n ∈ treeGenerator h c → (0 < n < length h)%nat) as Hpos.
  { intros n Hn. apply Hex in Hn. pose proof (below_le h Hwf _ _ Hn).
    pose proof (below_valid h Hwf _ _ Hclt Hn). lia. }
  assert (∀ n, n ∈ treeGenerator h c →
            node_id (obj h n) = IdInt (idStart + Z.of_nat n)) as Hids.
  { intros n Hn. destruct (Hpos n Hn) as [Hn0 Hlt].
    destruct (lookup_lt_is_Some_2 h n Hlt) as [nd Hn'].
    rewrite (obj_lookup _ _ _ Hn'). apply (pb_ids _ _ _ _ _ Hinv n nd Hn'). lia. }
  splits.
  - intros H0. apply Hpos in H0. lia.
  - done.
  - apply NoDup_fmap_2_strong; [|done]. intros n1 n2 H1 H2 Heq.
    rewrite (Hids n1 H1), (Hids n2 H2) in Heq. injection Heq as Heq. lia.
  - intros Hnil n [Hn0 Hlt]. apply Hlog in Hnil. subst rest. apply Hex.
    destruct (below_child h 0 n (below_root h n Hwf Hlt))
      as [->|(rd & c' & Hrd & Hc' & Hb)]; [lia|].
    assert (rd = r) as Heq by congruence. rewrite Heq, Hk in Hc'.
    apply list_elem_of_singleton in Hc'. by subst.
  - intros Hwarn. destruct rest as [|c' rest]; [by destruct Hwarn; apply Hlog|].
    destruct (child_later h 0 r c' Hwf Hr) as (_ & cd' & Hcd' & Hcp');
      [rewrite Hk; apply list_elem_of_further, list_elem_of_here|].
    exists c', cd'. splits; [done|done|]. intros Hin. apply Hex in Hin.
    assert (c = c') as <-.
    { apply (below_siblings h 0 r c c' c' Hwf Hr); [| |done|constructor];
        rewrite Hk; [apply list_elem_of_here|apply list_elem_of_further, list_elem_of_here]. }
    pose proof (wf_nodup _ Hwf 0%nat r Hr) as Hnk. rewrite Hk in Hnk.
    apply NoDup_cons in Hnk as [Hnk _]. apply Hnk, list_elem_of_here.
Qed.

Lemma pr2_dump_coverage_witness :
  ∃ b, buildPR2Tree ex_pr2_lines false 0 = Ok b ∧
       ∀ n, (0 < n < length (b_heap b))%nat → n ∈ treeGenerator (b_heap b) (b_root b).
Proof.
  eexists.
  assert (buildPR2Tree ex_pr2_lines false 0 = Ok _) as Hb by (vm_compute; reflexivity).
  destruct (pr2_dump_coverage _ _ _ _ Hb) as (_ & _ & _ & Hall & _).
  split; [exact Hb|]. apply Hall. reflexivity.
Defined.

(** X8.  [buildSilvaTree] reports the synthetic root, so the dump of its
    result visits every node of the tree, the synthetic root first: the
    nodes file and the names file have as many lines as the tree has
    nodes. *)
Theorem silva_dump_covers_all (taxon_ranks : list string)
    (rankMap : list (string * string)) (silvaTaxidMap : list (string * Z))
    (fastaLines : list string) (b : built) :
  buildSilvaTree rankMap silvaTaxidMap fastaLines = Ok b →
  ∃ nodes names,
    writeDumpFiles taxon_ranks (b_heap b) (b_root b) = Ok (nodes, names) ∧
    (∀ n, (n < length (b_heap b))%nat → n ∈ treeGenerator (b_heap b) (b_root b)) ∧
    head (treeGenerator (b_heap b) (b_root b)) = Some 0%nat ∧
    length nodes = length (b_heap b) ∧ length names = length (b_heap b).
Proof.
  intros Hbuild.
  assert (built_by b) as Hby by (right; by exists rankMap, silvaTaxidMap, fastaLines).
  destruct (built_by_wf b Hby) as [Hwf Hroot].
  destruct (buildSilvaTree_spec _ _ _ _ Hbuild)
    as (m0 & h2 & m' & _ & _ & _ & _ & _ & Hr & _).
  rewrite Hr in *.
  destruct (writeDumpFiles_lines taxon_ranks _ _ Hwf Hroot) as (nodes & names & Hw & Hn & Hm).
  destruct (treeGenerator_exact _ _ Hwf Hroot) as [Hnd Hex].
  assert (length (treeGenerator (b_heap b) 0) = length (b_heap b)) as Hlen.
  { rewrite <- (length_seq (length (b_heap b)) 0). apply Permutation_length.
    apply NoDup_Permutation; [done|apply NoDup_seq|]. intros n.
    rewrite Hex, elem_of_seq. split.
    - intros Hb. pose proof (below_valid _ Hwf _ _ Hroot Hb). lia.
    - intros [_ Hlt]. by apply below_root. }
  exists nodes, names. splits; try done.
  - intros n Hlt. apply Hex. by apply below_root.
  - unfold treeGenerator. by destruct (length (b_heap b)); [lia|].
  - rewrite <- Hlen. symmetry. by eapply Forall2_length.
  - rewrite <- Hlen. symmetry. by eapply Forall2_length.
Qed.

Lemma silva_dump_covers_all_witness :
  ∃ b nodes names,
    buildSilvaTree ex_rankMap ex_taxids ex_fasta = Ok b ∧
    writeDumpFiles ex_vocabulary (b_heap b) (b_root b) = Ok (nodes, names) ∧
    length nodes = 6%nat.
Proof.
  eexists.
  assert (buildSilvaTree ex_rankMap ex_taxids ex_fasta = Ok _) as Hb
    by (vm_compute; reflexivity).
  destruct (silva_dump_covers_all ex_vocabulary _ _ _ _ Hb)
    as (nodes & names & Hw & _ & _ & Hn & _).
  exists nodes, names. split; [exact Hb|]. split; [exact Hw|exact Hn].
Defined.

(** ** Stripping and splitting *)

Section Strings.
Variable cs : list ascii.
Implicit Types (s t p w r : string) (c : ascii).

Lemma append_cons c s t : String c s +:+ t = String c (s +:+ t).
Proof. reflexivity. Qed.

Lemma append_nil_l t : "" +:+ t = t.
Proof. reflexivity. Qed.

Lemma append_assoc s t r : (s +:+ t) +:+ r = s +:+ t +:+ r.
Proof.
  induction s as [|c s IH]; [done|]. rewrite !append_cons. by rewrite IH.
Qed.

Lemma append_inv_l s t r : s +:+ t = s +:+ r → t = r.
Proof.
  induction s as [|c s IH]; [done|]. rewrite !append_cons. intros [= H]. by apply IH.
Qed.

Lemma lstrip_all_in p s : all_in cs p = true → lstrip cs (p +:+ s) = lstrip cs s.
Proof.
  induction p as [|c p IH]; [done|]. cbn [all_in]. intros [Hc Hp]%andb_prop.
  rewrite append_cons. cbn [lstrip]. rewrite Hc. by apply IH.
Qed.

Lemma lstrip_cons c s : mem_ascii c cs = false → lstrip cs (String c s) = String c s.
Proof. intros Hc. cbn [lstrip]. by rewrite Hc. Qed.

Lemma lstrip_decomp s :
  ∃ p, all_in cs p = true ∧ s = p +:+ lstrip cs s ∧
       match lstrip cs s with String c _ => mem_ascii c cs = false | _ => True end.
Proof.
  induction s as [|c s (p & Hp & Hs & Hh)]; [by exists ""|].
  cbn [lstrip]. destruct (mem_ascii c cs) eqn:Hc.
  - exists (String c p). cbn [all_in]. rewrite Hc, Hp, append_cons. by rewrite <- Hs.
  - exists "". by splits.
Qed.

Lemma rstrip_cons c s : mem_ascii c cs = false →
  rstrip cs (String c s) = String c (rstrip cs s).
Proof. intros Hc. cbn [rstrip]. destruct (rstrip cs s); by rewrite ?Hc. Qed.

Lemma rstrip_cons_nonempty c s : rstrip cs s ≠ "" →
  rstrip cs (String c s) = String c (rstrip cs s).
Proof. intros Hne. cbn [rstrip]. by destruct (rstrip cs s). Qed.

Lemma rstrip_all_in p : all_in cs p = true → rstrip cs p = "".
Proof.
  induction p as [|c p IH]; [done|]. cbn [all_in rstrip]. intros [Hc Hp]%andb_prop.
  by rewrite (IH Hp), Hc.
Qed.

Lemma rstrip_app_nonempty s t : rstrip cs t ≠ "" →
  rstrip cs (s +:+ t) = s +:+ rstrip cs t.
Proof.
  intros Hne. induction s as [|c s IH]; [done|].
  rewrite !append_cons, rstrip_cons_nonempty; [by rewrite IH|].
  rewrite IH. by destruct s.
Qed.

Lemma rstrip_app_all_in s p : all_in cs p = true → rstrip cs (s +:+ p) = rstrip cs s.
Proof.
  intros Hp. induction s as [|c s IH]; [by apply rstrip_all_in|].
  rewrite append_cons. cbn [rstrip]. by rewrite IH.
Qed.

Lemma rstrip_decomp s : ∃ p, all_in cs p = true ∧ s = rstrip cs s +:+ p.
Proof.
  induction s as [|c s (p & Hp & Hs)]; [by exists ""|].
  cbn [rstrip]. destruct (rstrip cs s) as [|d r] eqn:Hr.
  - destruct (mem_ascii c cs) eqn:Hc.
    + exists (String c p). cbn [all_in]. rewrite Hc, Hp. split; [done|].
      by rewrite Hs at 1.
    + exists p. split; [done|]. rewrite append_cons. by rewrite Hs at 1.
  - exists p. split; [done|]. rewrite append_cons. by rewrite Hs at 1.
Qed.

Lemma rstrip_idem s : rstrip cs (rstrip cs s) = rstrip cs s.
Proof.
  induction s as [|c s IH]; [done|]. cbn [rstrip].
  destruct (rstrip cs s) as [|d r] eqn:Hr.
  - destruct (mem_ascii c cs) eqn:Hc; [done|]. cbn [rstrip]. by rewrite Hc.
  - rewrite rstrip_cons_nonempty; [by rewrite IH|]. by rewrite IH.
Qed.

(** Stripping on the right keeps a string stripped on the left. *)
Lemma lstrip_rstrip s : lstrip cs s = s → lstrip cs (rstrip cs s) = rstrip cs s.
Proof.
  destruct s as [|c s]; [done|]. cbn [lstrip]. destruct (mem_ascii c cs) eqn:Hc.
  - intros Heq. destruct (lstrip_decomp s) as (p & _ & Hs & _).
    assert (String.length (lstrip cs s) ≤ String.length s)%nat as Hlen.
    { rewrite Hs at 2. clear. induction p as [|d p IH]; [done|].
      rewrite append_cons. simpl. lia. }
    rewrite Heq in Hlen. simpl in Hlen. lia.
  - intros _. rewrite rstrip_cons by done. by apply lstrip_cons.
Qed.

Lemma break_at_decomp s w r : break_at cs s = (w, r) →
  s = w +:+ r ∧ none_in cs w = true ∧
  match r with String c _ => mem_ascii c cs = true | _ => True end.
Proof.
  revert w r. induction s as [|c s IH]; intros w r Hb.
  - simpl in Hb. by injection Hb as <- <-.
  - cbn [break_at] in Hb. destruct (mem_ascii c cs) eqn:Hc.
    + injection Hb as <- <-. by splits.
    + destruct (break_at cs s) as [w' r'] eqn:Hb'. injection Hb as <- <-.
      destruct (IH w' r' eq_refl) as (-> & Hw & Hr). cbn [none_in]. by rewrite Hc, Hw.
Qed.

Lemma break_at_app w r : none_in cs w = true →
  match r with String c _ => mem_ascii c cs = true | _ => True end →
  break_at cs (w +:+ r) = (w, r).
Proof.
  intros Hw Hr. induction w as [|c w IH].
  - rewrite append_nil_l. destruct r as [|c r]; [done|]. cbn [break_at]. by rewrite Hr.
  - cbn [none_in] in Hw. apply andb_prop in Hw as [Hc Hw].
    rewrite append_cons. cbn [break_at]. apply negb_true_iff in Hc. rewrite Hc.
    by rewrite (IH Hw).
Qed.

End Strings.

(** ** getOrgsFromSilvaFasta *)

Lemma getOrgs_cons line lines :
  getOrgsFromSilvaFasta (line :: lines) =
    if is_header line then
      match header_record line with
      | Some rec => (rec :: (getOrgsFromSilvaFasta lines).1, (getOrgsFromSilvaFasta lines).2)
      | None => ([], Some ValueError)
      end
    else getOrgsFromSilvaFasta lines.
Proof.
  cbn [getOrgsFromSilvaFasta]. unfold header_record.
  destruct (is_header line); [|done].
  destruct (split_ws_1 (strip whitespace (drop_first line))) as [|r [|d [|x xs]]]; try done.
  by destruct (getOrgsFromSilvaFasta lines).
Qed.

(** The generator yields the records of the headers up to the first one
    that does not unpack. *)
Lemma getOrgs_split lines :
  ∃ good bad, filter (λ l, is_header l = true) lines = good ++ bad ∧
    Forall2 (λ line rec, header_record line = Some rec) good
            (getOrgsFromSilvaFasta lines).1 ∧
    match (getOrgsFromSilvaFasta lines).2 with
    | None => bad = []
    | Some e => e = ValueError ∧
                ∃ line, head bad = Some line ∧ header_record line = None
    end.
Proof.
  induction lines as [|line lines (good & bad & Hf & Hg & Hb)].
  - exists [], []. by splits.
  - rewrite getOrgs_cons, pr2_filter_cons. destruct (is_header line) eqn:Hh.
    + destruct (header_record line) as [rec|] eqn:Hrec.
      * exists (line :: good), bad. cbn [fst snd]. splits; [by rewrite Hf| |done].
        by constructor.
      * exists [], (line :: filter (λ l, is_header l = true) lines). cbn [fst snd].
        splits; [done|by apply Forall2_nil|done|by exists line].
    + by exists good, bad.
Qed.

Lemma getOrgs_raises lines :
  (getOrgsFromSilvaFasta lines).2 = None ∨
  (getOrgsFromSilvaFasta lines).2 = Some ValueError.
Proof.
  destruct (getOrgs_split lines) as (good & bad & _ & _ & Hb).
  destruct (getOrgsFromSilvaFasta lines).2 as [e|]; [right|by left].
  by destruct Hb as [-> _].
Qed.

Lemma getOrgs_returns lines :
  (getOrgsFromSilvaFasta lines).2 = None ↔
  ∀ line, line ∈ lines → is_header line = true → is_Some (header_record line).
Proof.
  destruct (getOrgs_split lines) as (good & bad & Hf & Hg & Hb). split.
  - intros Hnone line Hin Hh. rewrite Hnone in Hb. subst bad. rewrite app_nil_r in Hf.
    assert (line ∈ good) as Hgood.
    { rewrite <- Hf. by apply list_elem_of_filter. }
    apply list_elem_of_lookup in Hgood as [i Hi].
    destruct (Forall2_lookup_l _ _ _ _ _ Hg Hi) as (rec & _ & ->). by eexists.
  - intros Hall. destruct (getOrgsFromSilvaFasta lines).2 as [e|]; [|done].
    destruct Hb as (_ & line & Hhead & Hnone).
    assert (line ∈ filter (λ l, is_header l = true) lines) as Hin.
    { rewrite Hf. apply elem_of_app. right. destruct bad; [done|].
      injection Hhead as ->. apply list_elem_of_here. }
    apply list_elem_of_filter in Hin as [Hh Hin].
    destruct (Hall line Hin Hh) as [rec Hrec]. congruence.
Qed.

(** X9.  [getOrgsFromSilvaFasta] looks at the header lines only.  Up to
    the first header that does not unpack into a record id and a
    description it yields one pair per header, in order; at that header it
    ends with ValueError, the only exception it raises; it ends normally
    exactly when every header unpacks, with as many pairs as there are
    headers. *)
Theorem getOrgs_yields (lines : list string) :
  let headers := filter (λ l, is_header l = true) lines in
  let recs := (getOrgsFromSilvaFasta lines).1 in
  let exn := (getOrgsFromSilvaFasta lines).2 in
  getOrgsFromSilvaFasta headers = (recs, exn) ∧
  Forall2 (λ line rec, header_record line = Some rec) (take (length recs) headers) recs ∧
  (exn = None ∨ exn = Some ValueError) ∧
  (exn = None ↔ ∀ line, line ∈ headers → is_Some (header_record line)) ∧
  (exn = None → length recs = length headers) ∧
  (exn ≠ None → ∃ line, headers !! length recs = Some line ∧ header_record line = None).
Proof.
  cbn zeta. destruct (getOrgs_split lines) as (good & bad & Hf & Hg & Hb).
  pose proof (Forall2_length _ _ _ Hg) as Hlen.
  splits.
  - clear. induction lines as [|line lines IH]; [done|].
    rewrite pr2_filter_cons. rewrite (getOrgs_cons line lines).
    destruct (is_header line) eqn:Hh; [|done].
    rewrite getOrgs_cons, Hh, IH. by destruct (header_record line).
  - rewrite Hf, <- Hlen, take_app_length. done.
  - apply getOrgs_raises.
  - rewrite getOrgs_returns. split.
    + intros Hall line [Hh Hin]%list_elem_of_filter. by apply Hall.
    + intros Hall line Hin Hh. apply Hall. by apply list_elem_of_filter.
  - intros Hnone. rewrite Hnone in Hb. subst bad. by rewrite Hf, app_nil_r.
  - intros Hsome. destruct (getOrgsFromSilvaFasta lines).2 as [e|]; [|done].
    destruct Hb as (_ & line & Hhead & Hnone). exists line. split; [|done].
    rewrite Hf, <- Hlen, lookup_app_r by lia. rewrite Nat.sub_diag.
    by destruct bad.
Qed.

(** The header lines that unpack, and what they unpack to. *)
Lemma header_record_build pad1 read sep desc pad2 :
  all_in whitespace pad1 = true → none_in whitespace read = true → read ≠ "" →
  all_in whitespace sep = true → sep ≠ "" →
  lstrip whitespace desc = desc → rstrip whitespace desc = desc → desc ≠ "" →
  all_in whitespace pad2 = true →
  header_record (">" +:+ pad1 +:+ read +:+ sep +:+ desc +:+ pad2) = Some (read, desc).
Proof.
  intros Hp1 Hread Hrne Hsep Hsne Hld Hrd Hdne Hp2. unfold header_record.
  change (drop_first (">" +:+ pad1 +:+ read +:+ sep +:+ desc +:+ pad2))
    with (pad1 +:+ read +:+ sep +:+ desc +:+ pad2).
  assert (lstrip whitespace (read +:+ sep +:+ desc) = read +:+ sep +:+ desc) as Hl0.
  { destruct read as [|c read]; [done|]. cbn [none_in] in Hread.
    apply andb_prop in Hread as [Hc _]. apply negb_true_iff in Hc.
    rewrite append_cons. by apply lstrip_cons. }
  assert (strip whitespace (pad1 +:+ read +:+ sep +:+ desc +:+ pad2)
          = read +:+ sep +:+ desc) as ->.
  { unfold strip. rewrite lstrip_all_in by done.
    replace (read +:+ sep +:+ desc +:+ pad2) with ((read +:+ sep +:+ desc) +:+ pad2)
      by (by rewrite !append_assoc).
    destruct read as [|c read]; [done|]. cbn [none_in] in Hread.
    apply andb_prop in Hread as [Hc _]. apply negb_true_iff in Hc.
    rewrite !append_cons, lstrip_cons by done. rewrite <- !append_cons.
    rewrite rstrip_app_all_in by done.
    assert (rstrip whitespace (sep +:+ desc) = sep +:+ desc) as Hsd.
    { rewrite rstrip_app_nonempty; by rewrite Hrd. }
    rewrite rstrip_app_nonempty; rewrite Hsd; [done|]. by destruct sep. }
  unfold split_ws_1. rewrite Hl0.
  destruct (read +:+ sep +:+ desc) as [|c0 s0] eqn:Hs0; [by destruct read|].
  rewrite <- Hs0. rewrite break_at_app; [|done|].
  - rewrite lstrip_all_in, Hld by done. by destruct desc.
  - destruct sep as [|c sep]; [done|]. cbn [all_in] in Hsep.
    apply andb_prop in Hsep as [Hc _]. by rewrite append_cons.
Qed.

Lemma header_record_shape line read desc :
  header_record line = Some (read, desc) →
  none_in whitespace read = true ∧ read ≠ "" ∧
  lstrip whitespace desc = desc ∧ rstrip whitespace desc = desc ∧ desc ≠ "" ∧
  ∃ pad1 sep pad2,
    all_in whitespace pad1 = true ∧ all_in whitespace sep = true ∧ sep ≠ "" ∧
    all_in whitespace pad2 = true ∧
    drop_first line = pad1 +:+ read +:+ sep +:+ desc +:+ pad2.
Proof.
  unfold header_record, split_ws_1, strip. set (x := drop_first line).
  destruct (lstrip_decomp whitespace x) as (pad1 & Hp1 & Hx & Hhx).
  destruct (rstrip_decomp whitespace (lstrip whitespace x)) as (pad2 & Hp2 & Hx2).
  set (s0 := rstrip whitespace (lstrip whitespace x)) in *.
  assert (lstrip whitespace s0 = s0) as Hl0.
  { apply lstrip_rstrip. destruct (lstrip whitespace x) as [|c t]; [done|].
    by apply lstrip_cons. }
  rewrite Hl0. destruct s0 as [|c0 t0] eqn:Hs0; [done|]. rewrite <- Hs0 in *.
  destruct (break_at whitespace s0) as [w r] eqn:Hbr.
  destruct (break_at_decomp whitespace s0 w r Hbr) as (Hwr & Hw & Hr).
  destruct (lstrip_decomp whitespace r) as (sep & Hsep & Hrd & Hhd).
  destruct (lstrip whitespace r) as [|d r'] eqn:Hr'; [done|].
  intros [= -> <-].
  assert (read ≠ "") as Hrne.
  { intros ->. rewrite append_nil_l in Hwr. rewrite <- Hwr in Hr. rewrite Hs0 in Hr, Hl0.
    cbn [lstrip] in Hl0. rewrite Hr in Hl0.
    destruct (lstrip_decomp whitespace t0) as (p & _ & Ht0 & _).
    assert (String.length (lstrip whitespace t0) ≤ String.length t0)%nat as Hlen.
    { rewrite Ht0 at 2. clear. induction p as [|e p IH]; [done|].
      rewrite append_cons. simpl. lia. }
    rewrite Hl0 in Hlen. simpl in Hlen. lia. }
  assert (sep ≠ "") as Hsne.
  { intros ->. rewrite append_nil_l in Hrd. rewrite Hrd in Hr. by rewrite Hr in Hhd. }
  assert (rstrip whitespace (String d r') = String d r') as Hrs.
  { pose proof (rstrip_idem whitespace (lstrip whitespace x)) as Hid. fold s0 in Hid.
    rewrite Hwr, Hrd in Hid.
    rewrite <- (append_assoc read sep (String d r')) in Hid.
    rewrite rstrip_app_nonempty in Hid.
    - by apply append_inv_l in Hid.
    - by rewrite rstrip_cons. }
  splits; try done.
  - by apply lstrip_cons.
  - exists pad1, sep, pad2. splits; try done.
    rewrite Hx at 1. rewrite Hx2. fold s0. rewrite Hwr, Hrd.
    by rewrite !append_assoc.
Qed.

(** X10.  The header lines [getOrgsFromSilvaFasta] accepts are those
    that, after the ">", consist of optional white space, a record id
    without white space, a run of white space, a description that neither
    starts nor ends with white space, and optional white space up to the
    end of the line; the pair yielded for such a line is that record id
    and that description, inner white space of the description included.
    Every other header line raises ValueError. *)
Theorem header_record_roundtrip (line read desc : string) :
  is_header line = true →
  (getOrgsFromSilvaFasta [line] = ([(read, desc)], None) ↔
   none_in whitespace read = true ∧ read ≠ "" ∧
   lstrip whitespace desc = desc ∧ rstrip whitespace desc = desc ∧ desc ≠ "" ∧
   ∃ pad1 sep pad2,
     all_in whitespace pad1 = true ∧ all_in whitespace sep = true ∧ sep ≠ "" ∧
     all_in whitespace pad2 = true ∧
     line = ">" +:+ pad1 +:+ read +:+ sep +:+ desc +:+ pad2) ∧
  (header_record line = None → getOrgsFromSilvaFasta [line] = ([], Some ValueError)).
Proof.
  intros Hh. rewrite getOrgs_cons, Hh. split; [split|].
  - destruct (header_record line) as [[r d]|] eqn:Hrec; [|done].
    cbn [getOrgsFromSilvaFasta fst snd]. intros [= -> ->].
    destruct (header_record_shape line read desc Hrec)
      as (H1 & H2 & H3 & H4 & H5 & pad1 & sep & pad2 & Hp1 & Hs & Hsn & Hp2 & Hline).
    splits; try done. exists pad1, sep, pad2. splits; try done.
    destruct line as [|c line]; [done|]. simpl in Hline. rewrite <- Hline.
    unfold is_header in Hh. destruct c as [[] [] [] [] [] [] [] []]; try done.
  - intros (H1 & H2 & H3 & H4 & H5 & pad1 & sep & pad2 & Hp1 & Hs & Hsn & Hp2 & ->).
    by rewrite header_record_build.
  - by intros ->.
Qed.

Lemma header_record_roundtrip_witness :
  getOrgsFromSilvaFasta [">s1 Bacteria;Proteobacteria;Escherichia coli" +:+ NL]
  = ([("s1", "Bacteria;Proteobacteria;Escherichia coli")], None).
Proof.
  apply (header_record_roundtrip _ "s1" "Bacteria;Proteobacteria;Escherichia coli");
    [reflexivity|].
  splits; try reflexivity; try discriminate.
  exists "", " ", NL. splits; try reflexivity. discriminate.
Defined.

(** ** The outcomes of buildSilvaTree *)

Lemma silva_attrs_nil rankMap tm : silva_attrs rankMap tm [].
Proof. intros n nd Hn. by rewrite lookup_nil in Hn. Qed.

Lemma silva_row_missing tm h l r : dict_get tm l = None →
  silva_row tm h (l, r) = Raise KeyError.
Proof.
  intros Hnone. unfold silva_row.
  destruct (addToTreeFromString (strip [";"; " "]%char l) h) as [h1 node].
  by rewrite Hnone.
Qed.

(** The loop over the table returns when every lineage has an id, and
    raises KeyError otherwise. *)
Lemma silva_rows_outcome rankMap tm rows :
  (∀ row, row ∈ rows → row ∈ rankMap) →
  ∀ h, h = [] ∨ silva_inv h → silva_attrs rankMap tm h →
    ((∀ l r, (l, r) ∈ rows → is_Some (dict_get tm l)) ∧
     ∃ h', foldM (silva_row tm) h rows = Ok h') ∨
    ((∃ l r, (l, r) ∈ rows ∧ dict_get tm l = None) ∧
     foldM (silva_row tm) h rows = Raise KeyError).
Proof.
  induction rows as [|[l r] rows IH]; intros Hsub h Hh Ha.
  - left. split; [|by eexists]. intros l r Hin. by apply elem_of_nil in Hin.
  - cbn [foldM]. destruct (dict_get tm l) as [t|] eqn:Ht.
    + destruct (silva_row_spec rankMap tm h l r) as (h1 & node & Hrow & Hinv1 & Ha1 & _);
        [apply Hsub, list_elem_of_here|by eexists|done|done|].
      rewrite Hrow. cbn [mbind result_bind].
      destruct (IH (λ row H, Hsub row (list_elem_of_further _ _ _ H)) h1
                  (or_intror Hinv1) Ha1) as [[Hall Hok]|[(l' & r' & Hin & Hnone) Hraise]].
      * left. split; [|done]. intros l' r' [[= -> ->]|Hin]%elem_of_cons; [by eexists|].
        by apply (Hall l' r').
      * right. split; [|done]. exists l', r'. split; [|done]. by apply list_elem_of_further.
    + right. rewrite (silva_row_missing _ _ _ _ Ht). split; [|done].
      exists l, r. split; [apply list_elem_of_here|done].
Qed.

(** What the loop over the records maintains: every entry of the record
    map points to the node that ends the lineage of a record with that
    id, and every record has an entry. *)
Lemma silva_records_map recs : ∀ seen h taxmap h' taxmap',
  h = [] ∨ silva_inv h →
  (∀ k n, (k, n) ∈ taxmap → (n < length h)%nat ∧
     ∃ desc, (k, desc) ∈ seen ∧ lineage h n = silva_path desc) →
  (∀ k desc, (k, desc) ∈ seen → k ∈ taxmap.*1) → NoDup taxmap.*1 →
  foldl silva_record (h, taxmap) recs = (h', taxmap') →
  (recs ≠ [] → silva_inv h') ∧
  (∀ k n, (k, n) ∈ taxmap' → (n < length h')%nat ∧
     ∃ desc, (k, desc) ∈ seen ++ recs ∧ lineage h' n = silva_path desc) ∧
  (∀ k desc, (k, desc) ∈ seen ++ recs → k ∈ taxmap'.*1) ∧ NoDup taxmap'.*1.
Proof.
  induction recs as [|[hitid lin] recs IH]; intros seen h taxmap h' taxmap' Hh Hmap Hkeys Hnd Hf.
  - simpl in Hf. injection Hf as <- <-. rewrite app_nil_r. by splits.
  - cbn [foldl] in Hf. unfold silva_record at 2 in Hf.
    destruct (addToTreeFromString lin h) as [h1 node] eqn:Hadd.
    destruct (addToTreeFromString_spec [silva_path lin] _ h
                (proj2 (list_elem_of_singleton _ _) eq_refl) Hh h1 node Hadd)
      as (Hinv1 & Hnode & Hlin & [Hlen Hg] & _).
    destruct (IH (seen ++ [(hitid, lin)]) h1 (dict_set taxmap hitid node) h' taxmap'
                (or_intror Hinv1)) as (Hinv' & Hmap' & Hkeys' & Hnd'); try done.
    + intros k n Hin. apply dict_set_elem in Hin as [[= -> ->]|Hin].
      * split; [done|]. exists lin. split; [|done]. apply elem_of_app. right.
        apply list_elem_of_here.
      * destruct (Hmap k n Hin) as (Hn & desc & Hseen & Hl). split; [lia|].
        exists desc. split; [apply elem_of_app; by left|]. by rewrite Hg.
    + intros k desc [Hin|Hin]%elem_of_app.
      * rewrite dict_set_keys. destruct (decide (hitid ∈ taxmap.*1)); [by eapply Hkeys|].
        apply elem_of_app. left. by eapply Hkeys.
      * apply list_elem_of_singleton in Hin. injection Hin as -> ->.
        rewrite dict_set_keys. destruct (decide (hitid ∈ taxmap.*1)); [done|].
        apply elem_of_app. right. apply list_elem_of_here.
    + by apply dict_set_NoDup.
    + rewrite <- app_assoc in Hmap', Hkeys'. splits; try done. intros _.
      destruct recs as [|rec recs]; [|by apply Hinv'].
      simpl in Hf. by injection Hf as <- <-.
Qed.

Lemma obj_set_attr (f : TaxNode → TaxNode) h n k nd : h !! k = Some nd →
  obj (set_attr f h n) k = if decide (n = k) then f nd else nd.
Proof.
  intros Hk. apply obj_lookup. rewrite set_attr_lookup.
  destruct (decide (n = k)) as [->|Hne]; [by rewrite Hk|done].
Qed.

(** The pass over the tree leaves an integer id on every node it visits,
    and on every node that had one. *)
Lemma silva_fix_ids_int ns : ∀ h m h' m',
  foldl silva_fix_id (h, m) ns = (h', m') →
  length h' = length h ∧
  ∀ n, (n < length h)%nat → n ∈ ns ∨ isinstance_int (node_id (obj h n)) = true →
    isinstance_int (node_id (obj h' n)) = true.
Proof.
  induction ns as [|k ns IH]; intros h m h' m' Hf.
  - simpl in Hf. injection Hf as <- <-. split; [done|].
    intros n _ [Hin|Hint]; [by apply elem_of_nil in Hin|done].
  - cbn [foldl] in Hf. destruct (silva_fix_id (h, m) k) as [h1 m1] eqn:Hstep.
    destruct (IH _ _ _ _ Hf) as [Hlen Hint'].
    assert (length h1 = length h ∧
            (∀ n, (n < length h)%nat →
               n = k ∨ isinstance_int (node_id (obj h n)) = true →
               isinstance_int (node_id (obj h1 n)) = true)) as [Hlen1 Hint1].
    { unfold silva_fix_id in Hstep.
      destruct (isinstance_int (node_id (obj h k))) eqn:Hk.
      - injection Hstep as <- <-. split; [done|]. by intros n _ [->|?].
      - assert (∃ i, h1 = set_attr (with_id (IdInt i)) h k) as [i ->].
        { destruct (node_ncbi_tax_id (obj h k)); injection Hstep as <- _; by eexists. }
        split; [apply set_attr_length|]. intros n Hn Hor.
        destruct (lookup_lt_is_Some_2 h n Hn) as [nd Hnd].
        rewrite (obj_set_attr _ _ _ _ _ Hnd). destruct (decide (k = n)) as [->|Hne]; [done|].
        destruct Hor as [->|Hint]; [done|]. by rewrite (obj_lookup _ _ _ Hnd) in Hint. }
    split; [lia|]. intros n Hn Hor. apply Hint'; [lia|].
    destruct Hor as [[->|Hin]%elem_of_cons|Hint].
    + right. apply Hint1; [done|by left].
    + by left.
    + right. apply Hint1; [done|by right].
Qed.

(** X11.  What a call of [buildSilvaTree] ends in is decided by its
    inputs, in this order: an empty id table makes [max] raise ValueError;
    a lineage of the rank table without an id raises KeyError; a header
    line that does not unpack raises ValueError; with no table row and no
    header line the tree table is empty and [next] raises StopIteration;
    in every other case the function returns. *)
Theorem silva_outcome (rankMap : list (string * string))
    (silvaTaxidMap : list (string * Z)) (fastaLines : list string) :
  let keys_ok := ∀ l r, (l, r) ∈ rankMap → is_Some (dict_get silvaTaxidMap l) in
  let headers_ok := ∀ line, line ∈ fastaLines → is_header line = true →
                      is_Some (header_record line) in
  match buildSilvaTree rankMap silvaTaxidMap fastaLines with
  | Ok _ => silvaTaxidMap ≠ [] ∧ keys_ok ∧ headers_ok ∧
            (rankMap ≠ [] ∨ ∃ line, line ∈ fastaLines ∧ is_header line = true)
  | Raise ValueError => silvaTaxidMap = [] ∨ (keys_ok ∧ ¬ headers_ok)
  | Raise KeyError => silvaTaxidMap ≠ [] ∧ ¬ keys_ok
  | Raise StopIteration =>
      silvaTaxidMap ≠ [] ∧ rankMap = [] ∧
      ∀ line, line ∈ fastaLines → is_header line = false
  | Raise _ => False
  end.
Proof.
  cbn zeta. unfold buildSilvaTree.
  destruct silvaTaxidMap as [|kv tm']; [by left|]. set (tm := kv :: tm').
  change (py_max (tm.*2)) with (Ok (foldl Z.max kv.2 (tm'.*2))).
  cbn [mbind result_bind].
  destruct (silva_rows_outcome rankMap tm rankMap (λ row H, H) [] (or_introl eq_refl)
              (silva_attrs_nil _ _)) as [[Hall [h1 Hrows]]|[(l & r & Hin & Hnone) Hraise]].
  2:{ rewrite Hraise. cbn [mbind result_bind]. split; [done|]. intros Hall.
      destruct (Hall l r Hin) as [t Ht]. congruence. }
  rewrite Hrows. cbn [mbind result_bind].
  destruct (silva_rows_spec rankMap tm rankMap (λ row H, H) [] h1 (or_introl eq_refl)
              (silva_attrs_nil _ _) Hrows) as (Hh1 & Ha1 & Hne1).
  pose proof (getOrgs_returns fastaLines) as Hret.
  pose proof (getOrgs_raises fastaLines) as Hexn.
  destruct (getOrgs_split fastaLines) as (good & bad & Hfil & Hgood & Hbad).
  destruct (getOrgsFromSilvaFasta fastaLines) as [recs exn] eqn:Hrecs.
  cbn [fst snd] in *.
  destruct (foldl silva_record (h1, []) recs) as [h2 taxmap] eqn:Hfold.
  destruct exn as [e|].
  { destruct Hexn as [?|[= ->]]; [done|]. right. split; [done|].
    intros Hok. by apply Hret in Hok. }
  subst bad. rewrite app_nil_r in Hfil.
  pose proof (proj1 Hret eq_refl) as Hok.
  destruct (silva_records_map recs [] h1 [] h2 taxmap Hh1) as (Hinv2 & _);
    [by intros k n Hin; apply elem_of_nil in Hin
    |by intros k d Hin; apply elem_of_nil in Hin|apply NoDup_nil_2|done|].
  destruct h2 as [|nd0 h2'].
  - assert (recs = []) as ->.
    { destruct recs as [|rec recs]; [done|].
      destruct (Hinv2 ltac:(done)) as [Hwf _]. by destruct (wf_root _ Hwf) as (? & ? & _). }
    simpl in Hfold. injection Hfold as -> _.
    assert (rankMap = []) as ->.
    { destruct rankMap; [done|]. by destruct Hne1. }
    splits; [done|done|]. intros line Hin.
    destruct (is_header line) eqn:Hh; [|done].
    assert (good = []) as -> by (by apply Forall2_nil_inv_r in Hgood).
    assert (line ∈ filter (λ l, is_header l = true) fastaLines) as Hin'
      by (by apply list_elem_of_filter).
    rewrite Hfil in Hin'. by apply elem_of_nil in Hin'.
  - destruct (foldl silva_fix_id _ _) as [h3 m']. splits; [done|done|done|].
    destruct rankMap as [|row rankMap]; [right|by left].
    destruct recs as [|rec recs].
    + simpl in Hfold. injection Hfold as Hh _. rewrite Hh in Hrows. by simpl in Hrows.
    + apply Forall2_cons_inv_r in Hgood as (line & good' & _ & _ & ->).
      exists line.
      assert (line ∈ filter (λ l, is_header l = true) fastaLines) as Hin'.
      { rewrite Hfil. apply list_elem_of_here. }
      apply list_elem_of_filter in Hin' as [Hh Hin']. done.
Qed.

(** X12.  After a call of [buildSilvaTree] that returns, every node of
    the tree has an integer id; the record map has one entry for each
    record id yielded from the fasta, and the value of an entry is the
    integer id of the node whose path from the root is the description of
    a record with that id, split at ";". *)
Theorem silva_ids_are_int (rankMap : list (string * string))
    (silvaTaxidMap : list (string * Z)) (fastaLines : list string) (b : built) :
  buildSilvaTree rankMap silvaTaxidMap fastaLines = Ok b →
  (∀ n nd, b_heap b !! n = Some nd → ∃ z, node_id nd = IdInt z) ∧
  NoDup (b_taxmap b).*1 ∧
  (∀ hitid, hitid ∈ (b_taxmap b).*1 ↔ hitid ∈ (getOrgsFromSilvaFasta fastaLines).1.*1) ∧
  (∀ hitid v, (hitid, v) ∈ b_taxmap b →
     ∃ desc n nd z, (hitid, desc) ∈ (getOrgsFromSilvaFasta fastaLines).1 ∧
       b_heap b !! n = Some nd ∧ lineage (b_heap b) n = silva_path desc ∧
       node_id nd = IdInt z ∧ v = IdInt z).
Proof.
  unfold buildSilvaTree. intros Hb.
  apply bind_Ok_inv in Hb as (maxTaxid & Hmax & Hb).
  apply bind_Ok_inv in Hb as (h1 & Hrows & Hb).
  destruct (getOrgsFromSilvaFasta fastaLines) as [recs exn] eqn:Hrecs.
  destruct (foldl silva_record (h1, []) recs) as [h2 taxmap] eqn:Hfold.
  destruct exn as [e|]; [done|].
  destruct h2 as [|nd0 h2']; [done|]. set (h2 := nd0 :: h2') in *.
  destruct (silva_rows_spec rankMap silvaTaxidMap rankMap (λ row H, H) [] h1
              (or_introl eq_refl) (silva_attrs_nil _ _) Hrows) as (Hh1 & Ha1 & _).
  destruct (silva_records_spec rankMap silvaTaxidMap recs h1 [] h2 taxmap Hh1 Ha1 Hfold)
    as [[Hnil|Hinv2] Ha2]; [done|].
  destruct (silva_records_map recs [] h1 [] h2 taxmap Hh1) as (_ & Hmap & Hkeys & Hnd);
    [by intros k n Hin; apply elem_of_nil in Hin
    |by intros k d Hin; apply elem_of_nil in Hin|apply NoDup_nil_2|done|].
  rewrite app_nil_l in Hmap, Hkeys.
  rewrite (getRootNode_root h2 (proj1 Hinv2)) in Hb.
  destruct (foldl silva_fix_id (h2, maxTaxid) (treeGenerator h2 0)) as [h3 m'] eqn:Hfix.
  injection Hb as <-. cbn [b_heap b_taxmap fst snd].
  destruct (silva_fix_ids_spec maxTaxid _ maxTaxid h2 h3 m'
              (fix_inv_start rankMap silvaTaxidMap maxTaxid h2 Ha2) Hfix) as [_ Hsame].
  destruct (silva_fix_ids_int _ _ _ _ _ Hfix) as [Hlen Hint].
  assert (0 < length h2)%nat as H0 by (simpl; lia).
  assert (∀ n nd, h3 !! n = Some nd → ∃ z, node_id nd = IdInt z) as Hall.
  { intros n nd Hn. pose proof (lookup_lt_Some _ _ _ Hn) as Hlt. rewrite Hlen in Hlt.
    specialize (Hint n Hlt). rewrite (obj_lookup _ _ _ Hn) in Hint.
    destruct (node_id nd) as [z| |] eqn:Hid; [by exists z| |]; exfalso;
      (assert (false = true) as Habs; [apply Hint|done]); left;
      apply (treeGenerator_exact h2 0 (proj1 Hinv2) H0); by apply below_root, Hlt;
      apply (proj1 Hinv2). }
  assert (((λ '(hitid, node), (hitid, node_id (obj h3 node))) <$> taxmap).*1 = taxmap.*1)
    as Hk1.
  { rewrite <- list_fmap_compose. apply list_fmap_ext. by intros i [k n] _. }
  splits.
  - done.
  - by rewrite Hk1.
  - intros hitid. rewrite Hk1. split.
    + intros [[k n] [-> Hin]]%list_elem_of_fmap.
      destruct (Hmap k n Hin) as (_ & desc & Hd & _).
      apply list_elem_of_fmap. by exists (k, desc).
    + intros [[k desc] [-> Hin]]%list_elem_of_fmap. by apply (Hkeys k desc).
  - intros hitid v [[k n] [[= -> ->] Hin]]%list_elem_of_fmap.
    destruct (Hmap k n Hin) as (Hn & desc & Hd & Hl).
    rewrite <- Hlen in Hn. destruct (lookup_lt_is_Some_2 h3 n Hn) as [nd Hn3].
    destruct (Hall n nd Hn3) as [z Hz].
    exists desc, n, nd, z. splits; try done.
    + by rewrite (same_tree_lineage _ _ _ Hsame).
    + by rewrite (obj_lookup _ _ _ Hn3).
Qed.

Lemma silva_ids_are_int_witness :
  ∃ b, buildSilvaTree ex_rankMap ex_taxids ex_fasta = Ok b ∧
       ∀ n nd, b_heap b !! n = Some nd → ∃ z, node_id nd = IdInt z.
Proof.
  eexists.
  assert (buildSilvaTree ex_rankMap ex_taxids ex_fasta = Ok _) as Hb
    by (vm_compute; reflexivity).
  split; [exact Hb|]. exact (proj1 (silva_ids_are_int _ _ _ _ Hb)).
Defined.

(** ** main *)

(** The writers do not raise on what a builder returned. *)
Lemma write_outputs_ok (taxon_ranks : list string) (b : built) : built_by b →
  ∃ nodes names,
    writeDumpFiles taxon_ranks (b_heap b) (b_root b) = Ok (nodes, names) ∧
    write_outputs taxon_ranks b =
      Ok (nodes, names, (λ kv, taxmap_line kv.1 kv.2) <$> b_taxmap b).
Proof.
  intros Hby. destruct (built_by_wf b Hby) as [Hwf Hroot].
  destruct (writeDumpFiles_lines taxon_ranks _ _ Hwf Hroot) as (nodes & names & Hw & _).
  exists nodes, names. split; [done|]. unfold write_outputs.
  by rewrite Hw, writeTaxMap_spec.
Qed.

Lemma main_build_built_by a b : main_build a = inr (Ok b) → built_by b.
Proof.
  unfold main_build. destruct (dbType a).
  - destruct (taxfile a) as [[rankMap tm]|]; [|done]. intros [= Hb].
    right. by exists rankMap, tm, (silva_fasta a).
  - intros [= Hb]. left. by exists (silva_fasta a), (truthy (fastaout a)), (idStart a).
Qed.

(** X13.  How [main] ends.  It leaves through [parser.error] exactly in
    Silva mode without a tax file, before any input is looked at.  An
    exception ends it exactly when the builder of the chosen mode raised
    it: the writers never raise on what a builder returned.  Otherwise it
    opens for writing, after what the builder itself wrote, the nodes dump
    and the names dump of the reported root, with the lines of
    [writeDumpFiles], and last the record map, with one line per entry.
    In Silva mode these three are the only handles opened for writing,
    whatever [--fastaout] says; in PR2 mode the handle on [--fastaout]
    precedes them when the option is a non-empty name. *)
Theorem main_outcome (taxon_ranks : list string) (sep : string) (a : arguments) :
  let nodesFile := path_join sep (output_dir a) "nodes.dmp" in
  let namesFile := path_join sep (output_dir a) "names.dmp" in
  let taxFile := path_join sep (output_dir a) (output_map a) in
  match main taxon_ranks sep a with
  | ParserError _ => dbType a = DbSilva ∧ taxfile a = None
  | Uncaught e => main_build a = inr (Raise e)
  | Finished written log =>
      ∃ b nodes names pre,
        main_build a = inr (Ok b) ∧ log = b_log b ∧
        writeDumpFiles taxon_ranks (b_heap b) (b_root b) = Ok (nodes, names) ∧
        written = pre ++ [(nodesFile, nodes); (namesFile, names);
                          (taxFile, (λ kv, taxmap_line kv.1 kv.2) <$> b_taxmap b)] ∧
        (dbType a = DbSilva → pre = []) ∧
        (dbType a = DbPR2 →
           pre = match fastaout a with
                 | Some p => if bool_decide (p ≠ "") then [(p, b_fastaout b)] else []
                 | None => []
                 end)
  end.
Proof.
  cbn zeta. unfold main. destruct (main_build a) as [msg|[b|e]] eqn:Hbuild; [| |done].
  - unfold main_build in Hbuild. destruct (dbType a); [|done].
    by destruct (taxfile a) as [[? ?]|].
  - destruct (write_outputs_ok taxon_ranks b (main_build_built_by a b Hbuild))
      as (nodes & names & Hw & ->).
    exists b, nodes, names, (fastaout_written a (b_fastaout b)).
    unfold main_written, fastaout_written. splits; try done.
    + by intros ->.
    + intros ->. by destruct (fastaout a).
Qed.

(** X14.  [main] in PR2 mode.  The tax file is not looked at.  If some
    header line of the fasta carries a lineage name the run finishes, with
    at most the one warning about the children of the root; the handles it
    opened for writing are, when [--fastaout] is a non-empty name, first
    the one on that name, through which the fasta with its headers
    rewritten was written, and then the two dumps and the record map.  If
    no header line carries a name the run ends in an uncaught
    IndexError. *)
Theorem main_pr2 (taxon_ranks : list string) (sep : string) (a : arguments) :
  dbType a = DbPR2 →
  let nodesFile := path_join sep (output_dir a) "nodes.dmp" in
  let namesFile := path_join sep (output_dir a) "names.dmp" in
  let taxFile := path_join sep (output_dir a) (output_map a) in
  if decide (Exists has_names (silva_fasta a)) then
    ∃ nodes names tm log,
      main taxon_ranks sep a =
        Finished (match fastaout a with
                  | Some p => if bool_decide (p ≠ "")
                              then [(p, fasta_rewrite <$> silva_fasta a)] else []
                  | None => []
                  end ++ [(nodesFile, nodes); (namesFile, names); (taxFile, tm)]) log ∧
      (length log ≤ 1)%nat
  else main taxon_ranks sep a = Uncaught IndexError.
Proof.
  intros Hdb. cbn zeta. unfold main.
  assert (main_build a =
            inr (buildPR2Tree (silva_fasta a) (truthy (fastaout a)) (idStart a))) as Hmb.
  { unfold main_build. by rewrite Hdb. }
  destruct (pr2_build_cases (silva_fasta a) (truthy (fastaout a)) (idStart a))
    as [[Hsome [b Hb]]|[Hnone Hraise]].
  - rewrite decide_True by (by apply Exists_exists).
    rewrite Hb in Hmb. rewrite Hmb.
    destruct (write_outputs_ok taxon_ranks b (main_build_built_by a b Hmb))
      as (nodes & names & Hw & ->).
    eexists nodes, names, _, _. split.
    + unfold main_written, fastaout_written.
      rewrite (pr2_build_fastaout _ _ _ _ Hb), Hdb.
      destruct (fastaout a) as [p|]; [|done]. cbn [truthy].
      by destruct (bool_decide (p ≠ "")).
    + destruct (pr2_loop_inv (silva_fasta a) (truthy (fastaout a)) (idStart a))
        as (st & Hloop & _).
      rewrite (buildPR2Tree_unfold _ _ _ _ Hloop), pr2_finish_spec in Hb.
      destruct (node_children (obj (pr_heap st) 0)) as [|c [|c' cs]]; [done| |];
        injection Hb as <-; simpl; lia.
  - rewrite decide_False.
    + rewrite Hraise in Hmb. by rewrite Hmb.
    + intros (line & Hin & Hh & Hn)%Exists_exists. by destruct Hn, (Hnone line).
Qed.

Lemma main_pr2_witness :
  ∃ rest log, main ex_vocabulary "/" ex_arguments =
    Finished (("out.fasta", fasta_rewrite <$> ex_pr2_lines) :: rest) log.
Proof.
  pose proof (main_pr2 ex_vocabulary "/" ex_arguments eq_refl) as H.
  cbn zeta in H. rewrite decide_True in H.
  - destruct H as (nodes & names & tm & log & Hm & _).
    eexists _, log. exact Hm.
  - apply Exists_cons. left. split; [reflexivity|]. vm_compute. discriminate.
Defined.

(** ** The rank column of a Silva run *)

Lemma table_row_snoc rows l r p :
  table_row (rows ++ [(l, r)]) p =
    if decide (table_path l = p) then Some (l, r) else table_row rows p.
Proof.
  unfold table_row. rewrite filter_app, filter_cons, filter_nil. cbn [fst].
  destruct (decide (table_path l = p)); [by rewrite last_snoc|by rewrite app_nil_r].
Qed.

Lemma table_row_Some rows p row : table_row rows p = Some row →
  row ∈ rows ∧ table_path row.1 = p.
Proof.
  unfold table_row. intros Hl.
  assert (row ∈ filter (λ row, table_path row.1 = p) rows) as Hin.
  { rewrite last_lookup in Hl. by eapply list_elem_of_lookup_2. }
  apply list_elem_of_filter in Hin. by destruct Hin.
Qed.

Lemma table_rank_None rows p :
  (∀ l r, (l, r) ∈ rows → table_path l ≠ p) → table_rank rows p = None.
Proof.
  intros Hno. unfold table_rank. destruct (table_row rows p) as [[l r]|] eqn:Hrow; [|done].
  apply table_row_Some in Hrow as [Hin Hp]. by destruct (Hno l r Hin).
Qed.

(** An insertion keeps the ranks: the nodes it creates have no rank, and
    no row read so far names their path. *)
Lemma rank_inv_add rows s h h1 node : h = [] ∨ silva_inv h → rank_inv rows h →
  addToTreeFromString s h = (h1, node) →
  silva_inv h1 ∧ rank_inv rows h1 ∧ (node < length h1)%nat ∧
  lineage h1 node = silva_path s.
Proof.
  intros Hh [Hrk Hrows] Hadd.
  destruct (addToTreeFromString_spec [silva_path s] _ h
              (proj2 (list_elem_of_singleton _ _) eq_refl) Hh h1 node Hadd)
    as (Hinv1 & Hnode & Hlin & [Hlen Hg] & Hk & _).
  splits; try done. split.
  - intros n nd1 Hn. destruct (Hk n nd1 Hn) as [(nd & Hnd & _ & Hr & _)|(Hnone & _ & Hr & _)].
    + rewrite Hr, (Hrk n nd Hnd). rewrite Hg; [done|]. by eapply lookup_lt_Some.
    + rewrite Hr. symmetry. apply table_rank_None. intros l r Hin Hp.
      destruct (Hrows l r Hin) as (m & Hm & Hlm).
      destruct (lookup_lt_is_Some_2 h1 m ltac:(lia)) as [md Hmd].
      assert (m = n) as ->.
      { apply (silva_lineage_inj h1 Hinv1 m n md nd1 Hmd Hn). rewrite Hg by done. congruence. }
      apply lookup_ge_None in Hnone. lia.
  - intros l r Hin. destruct (Hrows l r Hin) as (m & Hm & Hlm).
    exists m. split; [lia|]. by rewrite Hg.
Qed.

(** A row of the table leaves its rank, renamed, on the node of its path. *)
Lemma rank_inv_row rows tm h l r h' : h = [] ∨ silva_inv h → rank_inv rows h →
  silva_row tm h (l, r) = Ok h' → silva_inv h' ∧ rank_inv (rows ++ [(l, r)]) h'.
Proof.
  intros Hh Hinv Hrow. unfold silva_row in Hrow.
  destruct (addToTreeFromString (strip [";"; " "]%char l) h) as [h1 node] eqn:Hadd.
  destruct (dict_get tm l) as [t|]; [|done]. injection Hrow as <-.
  destruct (rank_inv_add rows _ h h1 node Hh Hinv Hadd) as (Hinv1 & [Hrk Hrows] & Hnode & Hlin).
  fold (table_path l) in Hlin.
  set (h3 := set_attr (with_ncbi_tax_id (Some t))
               (set_attr (with_rank (Some (rankMapping_get r))) h1 node) node).
  assert (shape h1 = shape h3) as Hs.
  { unfold h3. by rewrite shape_with_ncbi, shape_with_rank. }
  assert (∀ n, lineage h3 n = lineage h1 n) as Hl3.
  { intros n. symmetry. by apply lineage_shape. }
  assert (length h3 = length h1) as Hlen3.
  { unfold h3. by rewrite !set_attr_length. }
  split; [by eapply silva_inv_shape|]. split.
  - intros n nd3 Hn. unfold h3 in Hn. rewrite !set_attr_lookup in Hn.
    unfold table_rank. rewrite table_row_snoc, Hl3.
    destruct (decide (node = n)) as [<-|Hne].
    + rewrite !decide_True in Hn by done.
      destruct (h1 !! node) as [nd1|]; [|done]. injection Hn as <-.
      by rewrite decide_True.
    + rewrite decide_False; [by apply Hrk|]. intros Hp. apply Hne.
      destruct (lookup_lt_is_Some_2 h1 node Hnode) as [nd1 Hnd1].
      apply (silva_lineage_inj h1 Hinv1 node n nd1 nd3 Hnd1 Hn). congruence.
  - intros l' r' [Hin|Hin]%elem_of_app.
    + destruct (Hrows l' r' Hin) as (m & Hm & Hlm). exists m. rewrite Hl3. split; [lia|done].
    + apply list_elem_of_singleton in Hin. injection Hin as -> ->.
      exists node. rewrite Hl3. split; [lia|done].
Qed.

Lemma rank_inv_rows tm rows2 : ∀ rows1 h h', h = [] ∨ silva_inv h → rank_inv rows1 h →
  foldM (silva_row tm) h rows2 = Ok h' →
  (h' = [] ∨ silva_inv h') ∧ rank_inv (rows1 ++ rows2) h'.
Proof.
  induction rows2 as [|[l r] rows2 IH]; intros rows1 h h' Hh Hinv Hf.
  - simpl in Hf. injection Hf as <-. by rewrite app_nil_r.
  - cbn [foldM] in Hf. apply bind_Ok_inv in Hf as (h1 & Hrow & Hf).
    destruct (rank_inv_row rows1 tm h l r h1 Hh Hinv Hrow) as [Hinv1 Hrk1].
    replace (rows1 ++ (l, r) :: rows2) with ((rows1 ++ [(l, r)]) ++ rows2)
      by (by rewrite <- app_assoc).
    by apply (IH _ h1 h' (or_intror Hinv1)).
Qed.

Lemma rank_inv_records rows recs : ∀ h taxmap h' taxmap',
  h = [] ∨ silva_inv h → rank_inv rows h →
  foldl silva_record (h, taxmap) recs = (h', taxmap') →
  (h' = [] ∨ silva_inv h') ∧ rank_inv rows h'.
Proof.
  induction recs as [|[hitid lin] recs IH]; intros h taxmap h' taxmap' Hh Hinv Hf.
  - simpl in Hf. by injection Hf as <- <-.
  - cbn [foldl] in Hf. unfold silva_record at 2 in Hf.
    destruct (addToTreeFromString lin h) as [h1 node] eqn:Hadd.
    destruct (rank_inv_add rows _ h h1 node Hh Hinv Hadd) as (Hinv1 & Hrk1 & _).
    by eapply (IH h1 _ h' taxmap' (or_intror Hinv1)).
Qed.

(** The ranks of the tree a run of [buildSilvaTree] returns. *)
Lemma buildSilvaTree_ranks rankMap tm fasta b :
  buildSilvaTree rankMap tm fasta = Ok b →
  ∀ n nd, b_heap b !! n = Some nd →
    node_rank nd = table_rank rankMap (lineage (b_heap b) n).
Proof.
  unfold buildSilvaTree. intros Hb.
  apply bind_Ok_inv in Hb as (maxTaxid & Hmax & Hb).
  apply bind_Ok_inv in Hb as (h1 & Hrows & Hb).
  destruct (getOrgsFromSilvaFasta fasta) as [recs exn] eqn:Hrecs.
  destruct (foldl silva_record (h1, []) recs) as [h2 taxmap] eqn:Hfold.
  destruct exn as [e|]; [done|].
  destruct h2 as [|nd0 h2']; [done|]. set (h2 := nd0 :: h2') in *.
  assert (rank_inv [] []) as Hstart.
  { split; [by intros n nd Hn; rewrite lookup_nil in Hn|].
    by intros l r Hin; apply elem_of_nil in Hin. }
  destruct (rank_inv_rows tm rankMap [] [] h1 (or_introl eq_refl) Hstart Hrows)
    as [Hh1 Hrk1]. rewrite app_nil_l in Hrk1.
  destruct (rank_inv_records rankMap recs h1 [] h2 taxmap Hh1 Hrk1 Hfold)
    as [[Hnil|Hinv2] [Hrk2 _]]; [done|].
  destruct (silva_rows_spec rankMap tm rankMap (λ row H, H) [] h1
              (or_introl eq_refl) (silva_attrs_nil _ _) Hrows) as (_ & Ha1 & _).
  destruct (silva_records_spec rankMap tm recs h1 [] h2 taxmap Hh1 Ha1 Hfold) as [_ Ha2].
  rewrite (getRootNode_root h2 (proj1 Hinv2)) in Hb.
  destruct (foldl silva_fix_id (h2, maxTaxid) (treeGenerator h2 0)) as [h3 m'] eqn:Hfix.
  injection Hb as <-. cbn [b_heap].
  destruct (silva_fix_ids_spec maxTaxid _ maxTaxid h2 h3 m'
              (fix_inv_start rankMap tm maxTaxid h2 Ha2) Hfix) as [_ Hsame].
  intros n nd Hn. destruct (proj2 Hsame n nd Hn) as (nd2 & Hn2 & _ & Hr).
  by rewrite Hr, (Hrk2 n nd2 Hn2), (same_tree_lineage _ _ _ Hsame).
Qed.

Lemma rankMapping_get_cases r :
  (r = "superkingdom" ∧ rankMapping_get r = "major_clade") ∨
  (r ≠ "superkingdom" ∧ rankMapping_get r = r).
Proof.
  unfold rankMapping_get. simpl. destruct (decide ("superkingdom" = r)) as [<-|Hne].
  - by left.
  - right. split; [congruence|done].
Qed.

(** C3 (as amended).  In the tree a run of [buildSilvaTree] returns, the
    rank of a node is the rank of the last row of the table whose lineage,
    stripped of ";" and blanks, is the path of the node, with
    "superkingdom" renamed to "major_clade"; a node no row names has no
    rank.  The nodes dump of the run has one line for every node, and the
    rank column of that line is: for a node whose row has the rank
    "superkingdom", the alias "major_clade" when the vocabulary of the
    target format has that label and "no rank" when it has not, never
    "superkingdom"; and "superkingdom" exactly for the nodes whose row has
    the rank "domain".  So the writer does not undo the rename. *)
Theorem silva_superkingdom_dumped_as_alias (taxon_ranks : list string)
    (rankMap : list (string * string)) (silvaTaxidMap : list (string * Z))
    (fastaLines : list string) (b : built) :
  buildSilvaTree rankMap silvaTaxidMap fastaLines = Ok b →
  ∃ nodes names,
    writeDumpFiles taxon_ranks (b_heap b) (b_root b) = Ok (nodes, names) ∧
    (∀ n, (n < length (b_heap b))%nat → n ∈ treeGenerator (b_heap b) (b_root b)) ∧
    ∀ i n, treeGenerator (b_heap b) (b_root b) !! i = Some n →
      ∃ nd pid,
        b_heap b !! n = Some nd ∧
        node_rank nd = table_rank rankMap (lineage (b_heap b) n) ∧
        nodes !! i = Some (nodes_line (node_id nd) pid
                             (dump_rank taxon_ranks (node_rank nd))) ∧
        (∀ l, table_row rankMap (lineage (b_heap b) n) = Some (l, "superkingdom") →
           node_rank nd = Some "major_clade" ∧
           dump_rank taxon_ranks (node_rank nd) =
             (if decide ("major_clade" ∈ taxon_ranks) then "major_clade"
              else "no rank") ∧
           dump_rank taxon_ranks (node_rank nd) ≠ "superkingdom") ∧
        (dump_rank taxon_ranks (node_rank nd) = "superkingdom" ↔
         ∃ l, table_row rankMap (lineage (b_heap b) n) = Some (l, "domain")).
Proof.
  intros Hbuild.
  assert (built_by b) as Hby by (right; by exists rankMap, silvaTaxidMap, fastaLines).
  destruct (built_by_wf b Hby) as [Hwf Hroot].
  destruct (buildSilvaTree_spec _ _ _ _ Hbuild)
    as (m0 & h2 & m' & _ & _ & _ & _ & _ & Hr & _).
  pose proof (buildSilvaTree_ranks _ _ _ _ Hbuild) as Hranks.
  rewrite Hr in *.
  destruct (writeDumpFiles_lines taxon_ranks _ _ Hwf Hroot) as (nodes & names & Hw & Hn & _).
  destruct (treeGenerator_exact _ _ Hwf Hroot) as [_ Hex].
  exists nodes, names. splits; [done| |].
  { intros n Hlt. apply Hex. by apply below_root. }
  intros i n Hi.
  destruct (Forall2_lookup_l _ _ _ _ _ Hn Hi) as (ln & Hln & pid & _ & ->).
  assert (n < length (b_heap b))%nat as Hlt.
  { apply (below_valid _ Hwf 0 n Hroot). apply Hex. by eapply list_elem_of_lookup_2. }
  destruct (lookup_lt_is_Some_2 _ n Hlt) as [nd Hnd].
  rewrite (obj_lookup _ _ _ Hnd) in Hln.
  pose proof (Hranks n nd Hnd) as Hrk.
  exists nd, pid. splits; try done.
  - intros l Hrow. rewrite Hrk. unfold table_rank. rewrite Hrow. cbn [fmap option_fmap option_map snd].
    change (rankMapping_get "superkingdom") with "major_clade".
    splits; [done| |].
    + unfold dump_rank. rewrite decide_False by done. by destruct (decide _).
    + unfold dump_rank. rewrite decide_False by done. by destruct (decide _).
  - rewrite Hrk. unfold table_rank.
    destruct (table_row rankMap (lineage (b_heap b) n)) as [[l r]|]; cbn [fmap option_fmap option_map snd].
    + destruct (rankMapping_get_cases r) as [[-> ->]|[Hne ->]].
      * unfold dump_rank. rewrite decide_False by done. split.
        -- by destruct (decide _).
        -- by intros [l' [= _ ?]].
      * unfold dump_rank. destruct (decide (r = "domain")) as [->|Hnd'].
        -- split; [by exists l|done].
        -- split.
           ++ destruct (decide (r ∈ taxon_ranks)); [by intros ->|done].
           ++ intros [l' [= _ ->]]. done.
    + unfold dump_rank. split; [done|by intros [l' ?]].
Qed.

Lemma silva_superkingdom_dumped_as_alias_witness :
  ∃ b nodes names,
    buildSilvaTree ex_rankMap ex_taxids ex_fasta = Ok b ∧
    writeDumpFiles ex_vocabulary (b_heap b) (b_root b) = Ok (nodes, names) ∧
    node_name (obj (b_heap b) 1) = "Bacteria" ∧
    ∃ pid, nodes !! 1%nat = Some (nodes_line (IdInt 5) pid "major_clade").
Proof.
  eexists.
  assert (buildSilvaTree ex_rankMap ex_taxids ex_fasta = Ok _) as Hb
    by (vm_compute; reflexivity).
  destruct (silva_superkingdom_dumped_as_alias ex_vocabulary _ _ _ _ Hb)
    as (nodes & names & Hw & _ & Hall).
  exists nodes, names. split; [exact Hb|]. split; [exact Hw|]. split; [reflexivity|].
  destruct (Hall 1%nat 1%nat eq_refl) as (nd & pid & Hnd & _ & Hline & Hsk & _).
  injection Hnd as <-.
  destruct (Hsk "Bacteria;" eq_refl) as (_ & Hdump & _).
  exists pid. rewrite Hline, Hdump. reflexivity.
Defined.

(** With a later row that gives the rank "domain" to the path of a row of
    rank "superkingdom", the node is dumped as "superkingdom". *)
Lemma silva_later_row_decides :
  ∃ b nodes names,
    buildSilvaTree ex_rankMap_twice ex_taxids_alias [] = Ok b ∧
    writeDumpFiles ex_vocabulary (b_heap b) (b_root b) = Ok (nodes, names) ∧
    nodes !! 1%nat = Some (nodes_line (IdInt 6) (IdInt 7) "superkingdom").
Proof.
  eexists _, _, _. split; [vm_compute; reflexivity|].
  split; [vm_compute; reflexivity|]. reflexivity.
Qed.
